(** * Medical-History-Interviewer: the slot-graph dialog engine

    A shallow embedding of [backend/slot_schema.js], [backend/memory.js] and
    the deterministic part of [backend/dialog_manager.js] and
    [backend/chains/routerChain.js], followed by the properties of the
    engine: slot-graph traversal, slot validation, the multi-extraction
    merge, the review rendering, the correction engine and the turn
    controller.

    Conventions of the embedding.
    - A JavaScript string is a [string]: a sequence of the code units U+0000
      to U+00FF.  Lower case, white space and line ends are those
      JavaScript has on this range.
    - A JavaScript number used as a confidence is a binary64 [float], the
      representation JavaScript itself uses.
    - A plain object used as a dictionary is the association list of its own
      properties in the order of their creation.  [Object.keys] and
      [Object.entries] list the array indices first ([Obj.entries]); a
      property read [o[k]] that finds no own property goes on to
      [Object.prototype] ([Obj.inherited]), and an assignment to
      [__proto__] goes to its setter ([Obj.assign]).
    - [undefined] is the absence of a value ([None]); [null] is [VNull].
    - The answer of the patient is a string, as the page sends it; a
      request without a string answer is outside the embedding.
    - Calls to the language model are delegates: functions supplied by the
      environment, over which every theorem quantifies.  So is the regular
      expression engine of the host on the patterns the model does not
      compile itself.
    - Time stamps and console output are not part of the state. *)

From Stdlib Require Import String Ascii List Bool Arith Lia Floats ZArith NArith
  Relations Permutation.
Import ListNotations.

#[local] Set Warnings "-inexact-float".
#[local] Open Scope list_scope.
#[local] Open Scope string_scope.

(* ================================================================= *)
(** ** JavaScript strings *)

Module JsString.

Definition is_upper (c : ascii) : bool :=
  Nat.leb 65 (nat_of_ascii c) && Nat.leb (nat_of_ascii c) 90.

Definition is_lower (c : ascii) : bool :=
  Nat.leb 97 (nat_of_ascii c) && Nat.leb (nat_of_ascii c) 122.

Definition is_digit (c : ascii) : bool :=
  Nat.leb 48 (nat_of_ascii c) && Nat.leb (nat_of_ascii c) 57.

(** The capital letters from U+00C0 to U+00DE; U+00D7 is the
    multiplication sign. *)
Definition is_upper_latin (c : ascii) : bool :=
  let n := nat_of_ascii c in
  Nat.leb 192 n && Nat.leb n 222 && negb (Nat.eqb n 215).

(** The small letters from U+00E0 to U+00FE; U+00F7 is the division
    sign. *)
Definition is_lower_latin (c : ascii) : bool :=
  let n := nat_of_ascii c in
  Nat.leb 224 n && Nat.leb n 254 && negb (Nat.eqb n 247).

Definition lower_char (c : ascii) : ascii :=
  if is_upper c || is_upper_latin c then ascii_of_nat (nat_of_ascii c + 32)
  else c.

(** The capital of a letter whose capital is one code unit of the range.
    The capitals of U+00B5 and U+00FF lie beyond U+00FF: these two stay as
    they are here.  The capital of U+00DF is two letters, see
    [capitalize]. *)
Definition upper_char (c : ascii) : ascii :=
  if is_lower c || is_lower_latin c then ascii_of_nat (nat_of_ascii c - 32)
  else c.

(** [s.toLowerCase()] *)
Fixpoint toLowerCase (s : string) : string :=
  match s with
  | EmptyString => EmptyString
  | String c s' => String (lower_char c) (toLowerCase s')
  end.

(** White space, as [trim] and [\s] have it: TAB, LF, VT, FF, CR, SPACE and
    NO-BREAK SPACE (U+00A0). *)
Definition is_space (c : ascii) : bool :=
  let n := nat_of_ascii c in
  (Nat.leb 9 n && Nat.leb n 13) || Nat.eqb n 32 || Nat.eqb n 160.

(** Line terminators: LF and CR. *)
Definition is_line_terminator (c : ascii) : bool :=
  let n := nat_of_ascii c in Nat.eqb n 10 || Nat.eqb n 13.

(** A word character, [[A-Za-z0-9_]]. *)
Definition is_word (c : ascii) : bool :=
  is_upper c || is_lower c || is_digit c || Nat.eqb (nat_of_ascii c) 95.

Fixpoint trimStart (s : string) : string :=
  match s with
  | EmptyString => EmptyString
  | String c s' => if is_space c then trimStart s' else s
  end.

Fixpoint trimEnd (s : string) : string :=
  match s with
  | EmptyString => EmptyString
  | String c s' =>
      let t := trimEnd s' in
      if is_space c && (t =? "") then "" else String c t
  end.

(** [s.trim()] *)
Definition trim (s : string) : string := trimStart (trimEnd s).

(** [l.join(sep)] for a list of strings *)
Definition join (sep : string) (l : list string) : string := String.concat sep l.

(** [s.split(sep)] for a one-character separator *)
Fixpoint split (sep : ascii) (s : string) : list string :=
  match s with
  | EmptyString => [""]
  | String c s' =>
      let r := split sep s' in
      if Ascii.eqb c sep then "" :: r
      else match r with
           | h :: t => String c h :: t
           | [] => [String c ""]
           end
  end.

(** [hay.includes(needle)] *)
Fixpoint includes (needle hay : string) : bool :=
  prefix needle hay ||
  match hay with
  | EmptyString => false
  | String _ hay' => includes needle hay'
  end.

(** [s.endsWith(suffix)] *)
Fixpoint endsWith (suffix s : string) : bool :=
  (s =? suffix) ||
  match s with
  | EmptyString => false
  | String _ s' => endsWith suffix s'
  end.

(** [s.slice(0, -1)] *)
Fixpoint dropLast (s : string) : string :=
  match s with
  | EmptyString => EmptyString
  | String c s' =>
      match s' with
      | EmptyString => EmptyString
      | String _ _ => String c (dropLast s')
      end
  end.

(** [s.charAt(0).toUpperCase() + s.slice(1)]; the capital of U+00DF is
    "SS". *)
Definition capitalize (s : string) : string :=
  match s with
  | EmptyString => EmptyString
  | String c s' =>
      if Nat.eqb (nat_of_ascii c) 223 then String "S" (String "S" s')
      else String (upper_char c) s'
  end.

(** [s.replace(/\(.*?\)/g, '')]: every parenthesis that is closed on its
    own line is removed with its content, up to the first closing
    parenthesis.  [pending] holds the text read since an opening
    parenthesis that is not closed yet; it is given back when the line or
    the string ends first. *)
Fixpoint removeParens (pending : option string) (s : string) : string :=
  match s with
  | EmptyString =>
      match pending with Some buf => buf | None => EmptyString end
  | String c s' =>
      match pending with
      | None =>
          if Ascii.eqb c "(" then removeParens (Some "(") s'
          else String c (removeParens None s')
      | Some buf =>
          if Ascii.eqb c ")" then removeParens None s'
          else if is_line_terminator c
               then buf ++ String c (removeParens None s')
               else removeParens (Some (buf ++ String c "")) s'
      end
  end.

End JsString.

(* ================================================================= *)
(** ** Regular expressions

    The fragment of JavaScript's regular expressions the engine uses: single
    characters, [.], classes, [\s], [\b], greedy counted repetition of a
    single-character atom, sequence, alternation and one capturing group.
    Matching is by backtracking, leftmost and greedy, as [RegExp.prototype.exec]
    does it. *)

Module Regex.
Import JsString.

Inductive atom : Type :=
| AChar (c : ascii)          (* a literal character *)
| AAny                       (* [.]: any character but a line terminator *)
| ASet (cs : list ascii)     (* [[...]] *)
| ASpace.                    (* [\s] *)

Inductive regex : Type :=
| Eps
| Atom (a : atom)
| Seq (r1 r2 : regex)
| Alt (r1 r2 : regex)
| Rep (lo : nat) (hi : option nat) (a : atom)   (* a{lo,hi}, greedy *)
| Group (r : regex)                             (* capturing group 1 *)
| WordB.                                        (* [\b] *)

(** A literal string. *)
Fixpoint lit (s : string) : regex :=
  match s with
  | EmptyString => Eps
  | String c s' => Seq (Atom (AChar c)) (lit s')
  end.

Definition seq (rs : list regex) : regex := fold_right Seq Eps rs.

Fixpoint alt (rs : list regex) : regex :=
  match rs with
  | [] => Eps
  | [r] => r
  | r :: rs' => Alt r (alt rs')
  end.

Definition star (a : atom) : regex := Rep 0 None a.
Definition plus (a : atom) : regex := Rep 1 None a.

Section Matcher.
(** The [i] flag. *)
Variable icase : bool.

Definition char_eq (x c : ascii) : bool :=
  if icase then Ascii.eqb (lower_char x) (lower_char c) else Ascii.eqb x c.

Definition atom_matches (a : atom) (c : ascii) : bool :=
  match a with
  | AChar x => char_eq x c
  | AAny => negb (is_line_terminator c)
  | ASet cs => existsb (fun x => char_eq x c) cs
  | ASpace => is_space c
  end.

(** [\b] holds between a word character and a non-word character (or an
    end of the input). *)
Definition at_boundary (prev : option ascii) (s : string) : bool :=
  let before := match prev with Some c => is_word c | None => false end in
  let after := match s with String c _ => is_word c | EmptyString => false end in
  xorb before after.

(** The text consumed between input [s] and its suffix [s']. *)
Definition consumed (s s' : string) : string :=
  substring 0 (String.length s - String.length s') s.

Section Run.
Context {R : Type}.

(** A continuation receives the character before the position, the
    rest of the input and the capture. *)
Definition cont : Type := option ascii -> string -> option string -> option R.

Fixpoint rep (a : atom) (lo : nat) (hi : option nat)
         (prev : option ascii) (s : string) (cap : option string)
         (k : cont) {struct s} : option R :=
  let stop := match lo with 0 => k prev s cap | S _ => None end in
  match hi with
  | Some 0 => stop
  | _ =>
      match s with
      | String c s' =>
          if atom_matches a c then
            match rep a (Nat.pred lo) (option_map Nat.pred hi) (Some c) s' cap k with
            | Some x => Some x
            | None => stop
            end
          else stop
      | EmptyString => stop
      end
  end.

Fixpoint run (r : regex) (prev : option ascii) (s : string)
         (cap : option string) (k : cont) {struct r} : option R :=
  match r with
  | Eps => k prev s cap
  | Atom a =>
      match s with
      | String c s' => if atom_matches a c then k (Some c) s' cap else None
      | EmptyString => None
      end
  | Seq r1 r2 => run r1 prev s cap (fun p' s' c' => run r2 p' s' c' k)
  | Alt r1 r2 =>
      match run r1 prev s cap k with
      | Some x => Some x
      | None => run r2 prev s cap k
      end
  | Rep lo hi a => rep a lo hi prev s cap k
  | Group r1 => run r1 prev s cap (fun p' s' _ => k p' s' (Some (consumed s s')))
  | WordB => if at_boundary prev s then k prev s cap else None
  end.
End Run.

(** The first match from the left; the result is the capture. *)
Fixpoint search (r : regex) (prev : option ascii) (s : string)
  : option (option string) :=
  match run r prev s None (fun _ _ cap => Some cap) with
  | Some cap => Some cap
  | None =>
      match s with
      | String c s' => search r (Some c) s'
      | EmptyString => None
      end
  end.

(** [s.match(r)]: [Some m1] on a match, [m1] being the text of group 1. *)
Definition exec (r : regex) (s : string) : option (option string) :=
  search r None s.

(** [r.test(s)] *)
Definition test (r : regex) (s : string) : bool :=
  match exec r s with Some _ => true | None => false end.
End Matcher.

(** *** Compiling a pattern given as text

    [new RegExp(pattern)] on the patterns a slot's [branches] are keyed by:
    alternatives separated by [|], each a sequence of characters and [.],
    each optionally followed by [*], [+] or [?] (and a lazy mark).  A
    quantifier with nothing to repeat is a syntax error.  Groups, classes,
    anchors, escapes and braces are outside this fragment: a pattern that
    has one is [Unsupported] here and left to the engine of the host. *)

Inductive compiled : Type :=
| Compiled (r : regex)
| SyntaxError
| Unsupported.

Definition is_quantifier (c : ascii) : bool :=
  Ascii.eqb c "*" || Ascii.eqb c "+" || Ascii.eqb c "?".

Definition is_other_meta (c : ascii) : bool :=
  existsb (Ascii.eqb c) ["("; ")"; "["; "]"; "{"; "}"; "\"; "^"; "$"]%char.

Fixpoint has_other_meta (s : string) : bool :=
  match s with
  | EmptyString => false
  | String c s' => is_other_meta c || has_other_meta s'
  end.

Definition quantified (q : ascii) (a : atom) : regex :=
  if Ascii.eqb q "*" then Rep 0 None a
  else if Ascii.eqb q "+" then Rep 1 None a
  else Rep 0 (Some 1) a.

Definition then_ (r : regex) (c : compiled) : compiled :=
  match c with
  | Compiled r' => Compiled (Seq r r')
  | other => other
  end.

Fixpoint parse_term (s : string) : compiled :=
  match s with
  | EmptyString => Compiled Eps
  | String c s' =>
      if is_quantifier c then SyntaxError
      else
        let a := if Ascii.eqb c "." then AAny else AChar c in
        match s' with
        | String q s'' =>
            if is_quantifier q then
              match s'' with
              | String l s3 =>
                  if Ascii.eqb l "?" then then_ (quantified q a) (parse_term s3)
                  else then_ (quantified q a) (parse_term s'')
              | EmptyString => Compiled (quantified q a)
              end
            else then_ (Atom a) (parse_term s')
        | EmptyString => Compiled (Atom a)
        end
  end.

Fixpoint parse_alternatives (ts : list string) : compiled :=
  match ts with
  | [] => Compiled Eps
  | [t] => parse_term t
  | t :: ts' =>
      match parse_term t, parse_alternatives ts' with
      | Compiled r1, Compiled r2 => Compiled (Alt r1 r2)
      | SyntaxError, _ | _, SyntaxError => SyntaxError
      | _, _ => Unsupported
      end
  end.

(** [new RegExp(pattern, flags)] *)
Definition RegExp (pattern : string) : compiled :=
  if has_other_meta pattern then Unsupported
  else parse_alternatives (split "|" pattern).

End Regex.

(* ================================================================= *)
(** ** Values and objects *)

(** The values a slot can hold: the router's schema allows a string, a list
    of strings, a boolean or [null]. *)
Inductive JsValue : Type :=
| VNull
| VBool (b : bool)
| VStr (s : string)
| VList (l : list string).

(** [String(v)], also what a template literal does to [v]. *)
Definition js_String (v : JsValue) : string :=
  match v with
  | VNull => "null"
  | VBool true => "true"
  | VBool false => "false"
  | VStr s => s
  | VList l => JsString.join "," l
  end.

(** Whether [v] is falsy, as [!v] tests it. *)
Definition falsy (v : JsValue) : bool :=
  match v with
  | VNull => true
  | VBool b => negb b
  | VStr s => s =? ""
  | VList _ => false
  end.

(** [a === b], [a] possibly [undefined].  Strings, booleans and [null]
    compare by content; two lists are two objects and never identical. *)
Definition strict_eq (a : option JsValue) (b : JsValue) : bool :=
  match a, b with
  | Some VNull, VNull => true
  | Some (VBool x), VBool y => Bool.eqb x y
  | Some (VStr x), VStr y => x =? y
  | _, _ => false
  end.

(** A plain object used as a dictionary: its own properties, in the order
    of their creation. *)
Module Obj.
Definition t (A : Type) : Type := list (string * A).

(** The own property [k] of [o]. *)
Fixpoint get {A : Type} (k : string) (o : t A) : option A :=
  match o with
  | [] => None
  | (k', v) :: o' => if k' =? k then Some v else get k o'
  end.

(** The own property [k] is defined as [v], as a computed key of an object
    literal or [JSON.parse] does: an existing property keeps its place, a
    new one goes last. *)
Fixpoint set {A : Type} (k : string) (v : A) (o : t A) : t A :=
  match o with
  | [] => [(k, v)]
  | (k', v') :: o' => if k' =? k then (k, v) :: o' else (k', v') :: set k v o'
  end.

(** The object a JSON text declares, or an object literal that does not
    name [__proto__]: its properties are defined one after the other. *)
Definition literal {A : Type} (declared : list (string * A)) : t A :=
  fold_left (fun o entry => set (fst entry) (snd entry) o) declared [].

(** The members every plain object inherits from [Object.prototype]. *)
Definition prototypeMembers : list string :=
  ["constructor"; "__defineGetter__"; "__defineSetter__"; "hasOwnProperty";
   "__lookupGetter__"; "__lookupSetter__"; "isPrototypeOf";
   "propertyIsEnumerable"; "toString"; "valueOf"; "__proto__";
   "toLocaleString"].

(** [o[k]] finds a member of [Object.prototype] when [o] has no own
    property [k]. *)
Definition inherited (k : string) : bool :=
  existsb (String.eqb k) prototypeMembers.

(** [o[k] = v] on an object that inherits from [Object.prototype].  The
    name [__proto__], when it is no own property, is the accessor of the
    prototype: its setter changes the prototype or does nothing, and
    leaves the own properties as they are. *)
Definition assign {A : Type} (k : string) (v : A) (o : t A) : t A :=
  match get k o with
  | Some _ => set k v o
  | None => if k =? "__proto__" then o else set k v o
  end.

(** The number a text of decimal digits writes. *)
Fixpoint decimal (acc : N) (s : string) : option N :=
  match s with
  | EmptyString => Some acc
  | String c s' =>
      if JsString.is_digit c
      then decimal (10 * acc + N.of_nat (nat_of_ascii c - 48))%N s'
      else None
  end.

(** An array index: the canonical text of an integer from 0 to 2^32 - 2. *)
Definition arrayIndex (k : string) : option N :=
  match k with
  | EmptyString => None
  | String "0" EmptyString => Some 0%N
  | String "0" _ => None
  | _ =>
      match decimal 0 k with
      | Some n => if (n <? 4294967295)%N then Some n else None
      | None => None
      end
  end.

Fixpoint insertIndexed {A : Type} (n : N) (entry : string * A)
         (l : list (N * (string * A))) : list (N * (string * A)) :=
  match l with
  | [] => [(n, entry)]
  | (m, entry') :: l' =>
      if (n <=? m)%N then (n, entry) :: l
      else (m, entry') :: insertIndexed n entry l'
  end.

(** The properties whose key is an array index, in ascending order. *)
Fixpoint indexed {A : Type} (o : t A) : list (N * (string * A)) :=
  match o with
  | [] => []
  | entry :: o' =>
      match arrayIndex (fst entry) with
      | Some n => insertIndexed n entry (indexed o')
      | None => indexed o'
      end
  end.

(** The other properties, in the order of their creation. *)
Definition named {A : Type} (o : t A) : list (string * A) :=
  filter (fun entry => match arrayIndex (fst entry) with
                       | Some _ => false
                       | None => true
                       end) o.

(** [Object.entries(o)]: the array indices in ascending order, then the
    other keys in the order of their creation. *)
Definition entries {A : Type} (o : t A) : list (string * A) :=
  (map snd (indexed o) ++ named o)%list.

(** [Object.keys(o)] *)
Definition keys {A : Type} (o : t A) : list string := map fst (entries o).
End Obj.

Definition FilledSlots : Type := Obj.t JsValue.

(* ================================================================= *)
(** ** slot_schema.js *)

Record SlotConfig : Type := {
  id : string;
  question : string;
  slot : string;
  required : bool;
  branches : list (string * string);
  next_default : option string
}.

Definition SlotGraph : Type := Obj.t SlotConfig.

(** What [slots[name]] is when it is not [undefined]: the configuration of
    a slot, or a member inherited from [Object.prototype], which has no
    [question] and no [branches]. *)
Inductive SlotEntry : Type :=
| Slot (cfg : SlotConfig)
| Member.

(** [slotConfig.question] *)
Definition entryQuestion (entry : SlotEntry) : option string :=
  match entry with
  | Slot cfg => Some (question cfg)
  | Member => None
  end.

(** [slotConfig.branches] *)
Definition entryBranches (entry : SlotEntry) : option (Obj.t string) :=
  match entry with
  | Slot cfg => Some (branches cfg)
  | Member => None
  end.

Definition SLOT_SCHEMA : SlotGraph := [
  ("full_name",
   {| id := "full_name"; question := "What is your full name?";
      slot := "full_name"; required := true;
      branches := []; next_default := Some "dob" |});
  ("dob",
   {| id := "dob"; question := "What is your date of birth?";
      slot := "dob"; required := true;
      branches := []; next_default := Some "has_partner" |});
  ("has_partner",
   {| id := "has_partner";
      question := "Do you have a partner who will be part of treatment? (yes/no)";
      slot := "has_partner"; required := true;
      branches := []; next_default := Some "chief_complaint" |});
  ("chief_complaint",
   {| id := "chief_complaint"; question := "What brings you in today?";
      slot := "chief_complaint_text"; required := true;
      branches := [(".*fertility.*", "months_ttc");
                   (".*pregnant.*", "months_ttc");
                   (".*trying.*", "months_ttc")];
      next_default := None |});
  ("months_ttc",
   {| id := "months_ttc";
      question := "How many months have you been trying to get pregnant?";
      slot := "months_ttc"; required := false;
      branches := []; next_default := None |})
].

(** [SLOT_SCHEMA.slots[name]] *)
Definition slotEntry (name : string) : option SlotEntry :=
  match Obj.get name SLOT_SCHEMA with
  | Some cfg => Some (Slot cfg)
  | None => if Obj.inherited name then Some Member else None
  end.

(** The body of the [try]/[catch] of [getNextUnfilledSlot]: the branch key is
    a case-insensitive regular expression; when it does not compile, the
    value is compared with the key's [|]-separated alternatives.  For a key
    outside the fragment of [Regex.RegExp] the answer is that of the host:
    [host pattern value] is what the [try]/[catch] leaves in [isMatch]
    there. *)
Definition isMatch (host : string -> string -> bool) (pattern value : string)
  : bool :=
  match Regex.RegExp pattern with
  | Regex.Compiled r => Regex.test true r value
  | Regex.SyntaxError =>
      existsb (String.eqb value)
        (map (fun v => JsString.toLowerCase (JsString.trim v))
             (JsString.split "|" pattern))
  | Regex.Unsupported => host pattern value
  end.

(** How a call of [getNextUnfilledSlot] ends. *)
Inductive Traversal : Type :=
| Unfilled (current : string)      (* [return current] *)
| PathFilled                       (* the loop ends: [return null] *)
| LoopDetected (current : string)  (* reported on the console, [return null] *)
| NoConfig (current : string)      (* [cfg] is undefined: a TypeError *)
| OutOfFuel.                       (* the bound of the model is reached *)

(** What the caller receives: [Some (Some s)] for a slot, [Some None] for
    [null], [None] when the call throws. *)
Definition returned (t : Traversal) : option (option string) :=
  match t with
  | Unfilled s => Some (Some s)
  | PathFilled | LoopDetected _ => Some None
  | NoConfig _ | OutOfFuel => None
  end.

(** [x || null] for a slot id: the empty string is falsy. *)
Definition or_null (x : option string) : option string :=
  match x with
  | Some "" => None
  | _ => x
  end.

Section Traversal.
(** The traversal for any slot graph and any reading of the branch keys.
    The slots of a graph are named as those of the schema are: by no name
    of a member of [Object.prototype], so that [filledSlots[current]] and
    [slots[current]] are reads of own properties. *)
Variable matches : string -> string -> bool.
Variable slots : SlotGraph.
Variable filledSlots : FilledSlots.

(** [String(filledSlots[current] ?? '').toLowerCase()] *)
Definition branch_value (v : JsValue) : string :=
  JsString.toLowerCase (match v with VNull => "" | _ => js_String v end).

(** The [for] loop over the entries of the branches. *)
Fixpoint first_match (value : string) (bs : list (string * string))
  : option string :=
  match bs with
  | [] => None
  | (pattern, targetSlot) :: bs' =>
      if matches pattern value then Some targetSlot
      else first_match value bs'
  end.

(** The slot that follows [cfg] when it holds [v]; the loop runs over
    [Object.entries(cfg.branches)]. *)
Definition next_slot (cfg : SlotConfig) (v : JsValue) : option string :=
  let value := branch_value v in
  let next := or_null (next_default cfg) in
  if value =? "" then next
  else match first_match value (Obj.entries (branches cfg)) with
       | Some targetSlot => Some targetSlot
       | None => next
       end.

(** The [while (current)] loop; [visited] is the set of the call. *)
Fixpoint walk (fuel : nat) (current : option string) (visited : list string)
  : Traversal :=
  match or_null current with
  | None => PathFilled
  | Some cur =>
      match fuel with
      | 0 => OutOfFuel
      | S fuel' =>
          if existsb (String.eqb cur) visited then LoopDetected cur
          else
            match Obj.get cur filledSlots with
            | None => Unfilled cur
            | Some v =>
                match Obj.get cur slots with
                | None => NoConfig cur
                | Some cfg => walk fuel' (next_slot cfg v) (cur :: visited)
                end
            end
      end
  end.

(** [ROOT_SLOT = Object.keys(slots)[0]] *)
Definition ROOT_SLOT : option string := hd_error (Obj.keys slots).

Definition nextUnfilledSlot : Traversal :=
  walk (S (List.length slots)) ROOT_SLOT [].
End Traversal.

(** [getNextUnfilledSlot(filledSlots)], on the schema of the program.  The
    branch keys of the schema are in the fragment that is compiled here, so
    that the host is not asked and any answer can stand for its own. *)
Definition getNextUnfilledSlot (filledSlots : FilledSlots) : Traversal :=
  nextUnfilledSlot (isMatch (fun _ _ => false)) SLOT_SCHEMA filledSlots.

Record Validation : Type := {
  isValid : bool;
  error : option string
}.

(** [validateSlotValue(slotName, value)] *)
Definition validateSlotValue (slotName : string) (v : JsValue) : Validation :=
  match slotEntry slotName with
  | None => {| isValid := false; error := Some "Invalid slot name" |}
  | Some _ =>
      match v with
      | VNull => {| isValid := false; error := Some "No value provided" |}
      | VBool _ => {| isValid := true; error := None |}
      | VStr s =>
          if JsString.trim s =? ""
          then {| isValid := false; error := Some "Empty value provided" |}
          else {| isValid := true; error := None |}
      | VList _ => {| isValid := true; error := None |}
      end
  end.

(* ================================================================= *)
(** ** memory.js *)

(** A message of the conversation: the interviewer's carries its text,
    which is [undefined] when the question asked for is that of a member of
    [Object.prototype]; the respondent's also the extracted value and the
    slot. *)
Inductive Message : Type :=
| AiMessage (content : option string)
| HumanMessage (content : string) (extractedValue : JsValue) (slotName : string).

Record InterviewMemory : Type := {
  messages : list Message;
  interactionCount : nat
}.

(** [clearMemory()] *)
Definition clearMemory : InterviewMemory :=
  {| messages := []; interactionCount := 0 |}.

(** [saveInteraction(question, userResponse, extractedValue, slotName)] *)
Definition saveInteraction (question : option string) (userResponse : string)
           (extractedValue : JsValue) (slotName : string)
           (m : InterviewMemory) : InterviewMemory :=
  {| messages := (messages m ++
                  [AiMessage question;
                   HumanMessage userResponse extractedValue slotName])%list;
     interactionCount := S (interactionCount m) |}.

(* ================================================================= *)
(** ** The delegates *)

(** A candidate extraction: [{slotName, value, confidence}]. *)
Record Extraction : Type := {
  slotName : string;
  value : JsValue;
  confidence : float
}.

(** An entry of [failedExtractions]: the candidate and [validation.error]. *)
Record FailedExtraction : Type := {
  candidate : Extraction;
  failure : option string
}.

Inductive Action : Type := Extract | Ask | Clarify.

(** The answers of the language model.  Each function stands for one call
    whose failure modes are those its caller handles. *)
Record Delegates : Type := {
  (** the router's decision for (currentSlot, userResponse); [None] when the
      call fails or its answer does not parse *)
  routerDecision : string -> string -> option Action;
  (** [extractMultipleSlots(userResponse, availableSlots, currentSlot)], which
      returns the empty list on failure *)
  extractMultipleSlots : string -> string -> list Extraction;
  (** [extractionChain.invoke] for (slotName, userResponse) *)
  extractionChain : string -> string -> JsValue * float;
  (** [generateClarificationQuestion(currentSlot, userResponse, slotConfig)] *)
  generateClarificationQuestion : string -> string -> string;
  (** the corrections parsed from the model's answer to the correction
      prompt, for (filledSlots, userResponse); [None] when the call fails *)
  parsedCorrections : FilledSlots -> string -> option (list (string * JsValue))
}.

(** [confidence >= 0.7] *)
Definition confident (c : float) : bool := (0.7 <=? c)%float.

(* ================================================================= *)
(** ** routerChain.js *)

Record RouterResult : Type := {
  action : Action;
  extractions : list Extraction
}.

(** [routeUserResponse(currentSlot, userResponse, SLOT_SCHEMA.slots, ...)] *)
Definition routeUserResponse (d : Delegates) (currentSlot userResponse : string)
  : RouterResult :=
  let fallback := {| action := Ask; extractions := [] |} in
  match slotEntry currentSlot with
  | None => fallback
  | Some _ =>
      match routerDecision d currentSlot userResponse with
      | None => fallback
      | Some Extract =>
          {| action := Extract;
             extractions :=
               filter (fun ext => confident (confidence ext))
                      (extractMultipleSlots d userResponse currentSlot) |}
      | Some a => {| action := a; extractions := [] |}
      end
  end.

(* ================================================================= *)
(** ** extractSlotChain.js *)

(** [preprocessResponse(userResponse, slotConfig)] *)
Definition preprocessResponse (userResponse : string) (slotConfig : SlotEntry)
  : string :=
  let lowerResponse := JsString.trim (JsString.toLowerCase userResponse) in
  let hit (b : string * string) :=
    existsb (fun p => lowerResponse =? JsString.toLowerCase p)
            (JsString.split "|" (fst b)) in
  let entries :=
    match entryBranches slotConfig with
    | Some branches => Obj.entries branches
    | None => []
    end in
  match find hit entries with
  | Some (pattern, _) => hd "" (JsString.split "|" pattern)
  | None =>
      if existsb (String.eqb lowerResponse) ["yes"; "y"; "true"] then "yes"
      else if existsb (String.eqb lowerResponse) ["no"; "n"; "false"] then "no"
      else userResponse
  end.

(* ================================================================= *)
(** ** dialog_manager.js *)

Module DialogManager.
Import JsString.

(** The double quote, which the review message shows after a backslash. *)
Definition dquote : string := String (ascii_of_nat 34) EmptyString.
Definition nl : string := String (ascii_of_nat 10) EmptyString.

(** [extractSlotValue(slotName, userResponse)]; [VNull] asks for a
    reprompt. *)
Definition extractSlotValue (d : Delegates) (slotConfig : SlotEntry)
           (slotName userResponse : string) : JsValue :=
  let preprocessed := preprocessResponse userResponse slotConfig in
  if negb (preprocessed =? userResponse) then VStr preprocessed
  else
    let result := extractionChain d slotName userResponse in
    match fst result with
    | VNull => VNull
    | v => if confident (snd result) then v else VNull
    end.

(** *** The review message *)

Definition formatValue (val : JsValue) : string :=
  match val with
  | VBool true => "Yes"
  | VBool false => "No"
  | VList l => join ", " l
  | other => js_String other
  end.

(** [makeLabel(question, slotName)]; [question] is undefined for a slot
    that is not in the schema. *)
Definition makeLabel (question : option string) (slotName : string) : string :=
  let label :=
    match question with
    | Some q => if q =? "" then slotName else q
    | None => slotName
    end in
  let label := trim (removeParens None label) in
  let label := if endsWith "?" label then dropLast label else label in
  capitalize label.

Definition reviewLine (entry : string * JsValue) : string :=
  let (slotName, val) := entry in
  let question := option_map question (Obj.get slotName SLOT_SCHEMA) in
  "- **" ++ makeLabel question slotName ++ ":** " ++ formatValue val.

(** [Object.entries(filledSlots).map(...)] *)
Definition reviewLines (filledSlots : FilledSlots) : list string :=
  map reviewLine (Obj.entries filledSlots).

Definition reviewHeader : string :=
  "### Please review your information" ++ nl ++ nl.

Definition reviewFooter : string :=
  nl ++ nl ++
  "If anything looks incorrect or needs to be updated, just tell me (for example, \"
  ++ dquote ++ "Change my birth year to 1987\" ++ dquote ++ " or \" ++ dquote
  ++ "I don't have a partner\" ++ dquote ++ ")." ++ nl ++ nl ++
  "When everything looks good, type **approved** to finalize.".

(** [generateReviewMessage(filledSlots)] *)
Definition generateReviewMessage (filledSlots : FilledSlots) : string :=
  reviewHeader ++ join nl (reviewLines filledSlots) ++ reviewFooter.

(** *** The next question *)

Inductive NextQuestion : Type :=
| ReviewQuestion (filledSlots : FilledSlots) (message : string)  (* isReview *)
| SlotQuestion (slot : string) (message : string).       (* isComplete: false *)

(** [getNextQuestion(filledSlots)]; [None] when the call throws. *)
Definition getNextQuestion (filledSlots : FilledSlots) : option NextQuestion :=
  match returned (getNextUnfilledSlot filledSlots) with
  | None => None
  | Some None =>
      Some (ReviewQuestion filledSlots (generateReviewMessage filledSlots))
  | Some (Some nextSlot) =>
      match Obj.get nextSlot SLOT_SCHEMA with
      | Some slotConfig => Some (SlotQuestion nextSlot (question slotConfig))
      | None => None
      end
  end.

(** *** The merge of several extractions *)

Record MultiResult : Type := {
  updatedSlots : FilledSlots;
  successfulExtractions : list Extraction;
  failedExtractions : list FailedExtraction
}.

(** [SLOT_SCHEMA.slots[slotName].question], for a name the validation has
    accepted: the question of a slot, [undefined] for a member of
    [Object.prototype]. *)
Definition questionOf (slotName : string) : option string :=
  option_map question (Obj.get slotName SLOT_SCHEMA).

(** The test of the loop of [processMultipleExtractions]. *)
Definition accepted (e : Extraction) : bool :=
  isValid (validateSlotValue (slotName e) (value e)) && confident (confidence e).

(** One turn of the loop of [processMultipleExtractions]. *)
Definition mergeStep (st : MultiResult * InterviewMemory) (e : Extraction)
  : MultiResult * InterviewMemory :=
  let (r, mem) := st in
  let validation := validateSlotValue (slotName e) (value e) in
  if isValid validation && confident (confidence e) then
    ({| updatedSlots := Obj.assign (slotName e) (value e) (updatedSlots r);
        successfulExtractions := (successfulExtractions r ++ [e])%list;
        failedExtractions := failedExtractions r |},
     saveInteraction (questionOf (slotName e))
                     ("[Multi-extraction] " ++ js_String (value e))
                     (value e) (slotName e) mem)
  else
    ({| updatedSlots := updatedSlots r;
        successfulExtractions := successfulExtractions r;
        failedExtractions :=
          (failedExtractions r ++
           [{| candidate := e; failure := error validation |}])%list |},
     mem).

(** [processMultipleExtractions(extractions, filledSlots)] *)
Definition processMultipleExtractions (extractions : list Extraction)
           (filledSlots : FilledSlots) (mem : InterviewMemory)
  : MultiResult * InterviewMemory :=
  fold_left mergeStep extractions
    ({| updatedSlots := filledSlots;
        successfulExtractions := [];
        failedExtractions := [] |}, mem).

(** *** The correction engine *)

Import Regex.

(** [saveInteraction(`Correction for ${slotName}`, userResponse, v, slotName)] *)
Definition logCorrection (slotName userResponse : string) (v : JsValue)
           (mem : InterviewMemory) : InterviewMemory :=
  saveInteraction (Some ("Correction for " ++ slotName)) userResponse v
                  slotName mem.

(** The object [updated] while the parsed corrections are applied: its own
    properties, and whether it still inherits from [Object.prototype],
    which ends when a correction sets [__proto__] to [null]. *)
Record Updated : Type := {
  own : FilledSlots;
  inherits : bool
}.

(** [updated[slotName] = newValue] *)
Definition assignParsed (slotName : string) (newValue : JsValue) (u : Updated)
  : Updated :=
  if inherits u then
    {| own := Obj.assign slotName newValue (own u);
       inherits :=
         match Obj.get slotName (own u), newValue with
         | None, VNull => negb (slotName =? "__proto__")
         | _, _ => true
         end |}
  else {| own := Obj.set slotName newValue (own u); inherits := false |}.

(** The loop over [parsed.corrections].  [updated[slotName]], when it is
    no own property, is [undefined] or a member of a prototype, and differs
    from every parsed value. *)
Definition applyParsed (userResponse : string)
           (st : Updated * InterviewMemory) (c : string * JsValue)
  : Updated * InterviewMemory :=
  let (updated, mem) := st in
  let (slotName, newValue) := c in
  match slotEntry slotName with
  | Some _ =>
      if strict_eq (Obj.get slotName (own updated)) newValue then st
      else (assignParsed slotName newValue updated,
            logCorrection slotName userResponse newValue mem)
  | None => st
  end.

Definition startsWithAny (prefixes : list string) (v : string) : bool :=
  existsb (fun p => prefix p v) prefixes.

(** [/^(yes|true|y|have|with|married)/i] and
    [/^(no|false|n|single|none|without)/i] *)
Definition affirmative : list string :=
  ["yes"; "true"; "y"; "have"; "with"; "married"].
Definition negative : list string :=
  ["no"; "false"; "n"; "single"; "none"; "without"].

(** [typeof current === 'boolean' || /^(has_|is_)/.test(slot)] *)
Definition looksBoolean (filledSlots : FilledSlots) (slot : string) : bool :=
  match Obj.get slot filledSlots with
  | Some (VBool _) => true
  | _ => startsWithAny ["has_"; "is_"] slot
  end.

(** [assignValue(slot, val)] *)
Definition assignValue (filledSlots : FilledSlots) (slot val : string)
           (updated : FilledSlots) : FilledSlots :=
  let v := toLowerCase val in
  if looksBoolean filledSlots slot && startsWithAny affirmative v
  then Obj.set slot (VBool true) updated
  else if looksBoolean filledSlots slot && startsWithAny negative v
  then Obj.set slot (VBool false) updated
  else Obj.set slot (VStr (trim val)) updated.

(** [slotName.replace(/_/g, '[ _]')], as a pattern *)
Definition slotPattern (slotName : string) : regex :=
  seq (map (fun c => if Ascii.eqb c "_"
                     then Atom (ASet [" "; "_"]%char)
                     else Atom (AChar c))
           (list_ascii_of_string slotName)).

(** [slotName.replace(/_/g, ' ')] *)
Definition words (slotName : string) : string :=
  string_of_list_ascii
    (map (fun c => if Ascii.eqb c "_" then " "%char else c)
         (list_ascii_of_string slotName)).

(** [`${slotPattern}\\s*[:=]\\s*(.+)`] *)
Definition strictRegex (slotName : string) : regex :=
  seq [slotPattern slotName; star ASpace; Atom (ASet [":"; "="]%char);
       star ASpace; Group (plus AAny)].

(** [`(?:change|update|correct|set).{0,40}${words}.{0,20}(?:to|is|=)\\s+(.+)`] *)
Definition regex1 (slotName : string) : regex :=
  seq [alt [lit "change"; lit "update"; lit "correct"; lit "set"];
       Rep 0 (Some 40) AAny; lit (words slotName); Rep 0 (Some 20) AAny;
       alt [lit "to"; lit "is"; lit "="]; plus ASpace; Group (plus AAny)].

(** [`${words}\\s+(?:is|=)\\s+(.+)`] *)
Definition regex2 (slotName : string) : regex :=
  seq [lit (words slotName); plus ASpace; alt [lit "is"; lit "="];
       plus ASpace; Group (plus AAny)].

(** [/\bi am single\b/i] *)
Definition singleRegex : regex := seq [WordB; lit "i am single"; WordB].

(** [/\bmarried\b|\bspouse\b|\bhusband\b|\bwife\b/] *)
Definition marriedRegex : regex :=
  alt [seq [WordB; lit "married"; WordB]; seq [WordB; lit "spouse"; WordB];
       seq [WordB; lit "husband"; WordB]; seq [WordB; lit "wife"; WordB]].

(** [userResponse.match(regex1) || userResponse.match(regex2)] *)
Definition naturalMatch (slotName userResponse : string)
  : option (option string) :=
  match exec true (regex1 slotName) userResponse with
  | Some m => Some m
  | None => exec true (regex2 slotName) userResponse
  end.

(** The body of [if (match && match[1])]: assign, and log when the slot
    has changed. *)
Definition assignMatched (filledSlots : FilledSlots)
           (slotName userResponse : string) (m : option (option string))
           (st : FilledSlots * InterviewMemory)
  : FilledSlots * InterviewMemory :=
  let (updated, mem) := st in
  match m with
  | Some (Some m1) =>
      if m1 =? "" then st
      else
        let before := Obj.get slotName updated in
        let updated' := assignValue filledSlots slotName m1 updated in
        match Obj.get slotName updated' with
        | Some now =>
            if strict_eq before now then (updated', mem)
            else (updated', logCorrection slotName userResponse now mem)
        | None => (updated', mem)
        end
  | _ => st
  end.

(** The first loop: the strict [field: value] form. *)
Definition strictStep (filledSlots : FilledSlots) (userResponse : string)
           (st : FilledSlots * InterviewMemory) (slotName : string)
  : FilledSlots * InterviewMemory :=
  assignMatched filledSlots slotName userResponse
                (exec true (strictRegex slotName) userResponse) st.

(** [/\bi am single\b/i.test(lower) && /has_partner/.test(slotName)] *)
Definition saysSingle (lower slotName : string) : bool :=
  test true singleRegex lower && includes "has_partner" slotName.

(** [/\bmarried\b|.../.test(lower) && /has_partner/.test(slotName)] *)
Definition saysMarried (lower slotName : string) : bool :=
  test false marriedRegex lower && includes "has_partner" slotName.

(** The second loop: the natural-language forms, then the two partner
    rules. *)
Definition naturalStep (filledSlots : FilledSlots) (userResponse : string)
           (st : FilledSlots * InterviewMemory) (slotName : string)
  : FilledSlots * InterviewMemory :=
  let lower := toLowerCase userResponse in
  let st1 := assignMatched filledSlots slotName userResponse
                           (naturalMatch slotName userResponse) st in
  let st2 :=
    if saysSingle lower slotName
    then (Obj.set slotName (VBool false) (fst st1),
          logCorrection slotName userResponse (VBool false) (snd st1))
    else st1 in
  if saysMarried lower slotName
  then (Obj.set slotName (VBool true) (fst st2),
        logCorrection slotName userResponse (VBool true) (snd st2))
  else st2.

(** The part of [applyCorrections] that follows the [try] block. *)
Definition patternFallback (userResponse : string) (filledSlots : FilledSlots)
           (st : FilledSlots * InterviewMemory)
  : FilledSlots * InterviewMemory :=
  let st1 := fold_left (strictStep filledSlots userResponse)
                       (Obj.keys SLOT_SCHEMA) st in
  fold_left (naturalStep filledSlots userResponse) (Obj.keys SLOT_SCHEMA) st1.

(** [applyCorrections(userResponse, filledSlots)] *)
Definition applyCorrections (d : Delegates) (userResponse : string)
           (filledSlots : FilledSlots) (mem : InterviewMemory)
  : FilledSlots * InterviewMemory :=
  let st0 :=
    match parsedCorrections d filledSlots userResponse with
    | Some corrections =>
        let (updated, mem') :=
          fold_left (applyParsed userResponse) corrections
                    ({| own := filledSlots; inherits := true |}, mem) in
        (own updated, mem')
    | None => (filledSlots, mem)
    end in
  patternFallback userResponse filledSlots st0.

(** *** The turn controller *)

Inductive TurnResult : Type :=
| Success (filledSlots : FilledSlots)
          (extractedSlots : option (list Extraction))  (* isHybridExtraction *)
          (next : NextQuestion)
| Reprompt (error : option string) (isClarification : bool)
| Thrown.

(** The single-slot processing that ends [processResponse]. *)
Definition standardProcessing (d : Delegates) (slotConfig : SlotEntry)
           (currentSlot userResponse : string) (filledSlots : FilledSlots)
           (mem : InterviewMemory) : TurnResult * InterviewMemory :=
  let question := entryQuestion slotConfig in
  let extractedValue := extractSlotValue d slotConfig currentSlot userResponse in
  if falsy extractedValue then
    (Reprompt (Some (generateClarificationQuestion d currentSlot userResponse)) true,
     saveInteraction question userResponse VNull currentSlot mem)
  else
    let validation := validateSlotValue currentSlot extractedValue in
    if negb (isValid validation) then
      (Reprompt (error validation) false,
       saveInteraction question userResponse VNull currentSlot mem)
    else
      let updatedSlots := Obj.set currentSlot extractedValue filledSlots in
      let mem' := saveInteraction question userResponse extractedValue currentSlot mem in
      match getNextQuestion updatedSlots with
      | Some nextQuestion => (Success updatedSlots None nextQuestion, mem')
      | None => (Thrown, mem')
      end.

(** [processResponse(currentSlot, userResponse, filledSlots)];
    [hybridMode] is the field of the manager. *)
Definition processResponse (d : Delegates) (hybridMode : bool)
           (currentSlot userResponse : string) (filledSlots : FilledSlots)
           (mem : InterviewMemory) : TurnResult * InterviewMemory :=
  match slotEntry currentSlot with
  | None => (Thrown, mem)   (* [slotConfig.question] of [undefined] *)
  | Some slotConfig =>
      let question := entryQuestion slotConfig in
      let standard := standardProcessing d slotConfig currentSlot userResponse filledSlots in
      if hybridMode then
        let routerResult := routeUserResponse d currentSlot userResponse in
        match action routerResult with
        | Extract =>
            let (multiResult, mem1) :=
              processMultipleExtractions (extractions routerResult) filledSlots mem in
            match successfulExtractions multiResult with
            | first :: _ =>
                let mem2 := saveInteraction question userResponse (value first)
                                            currentSlot mem1 in
                match getNextQuestion (updatedSlots multiResult) with
                | Some nextQuestion =>
                    (Success (updatedSlots multiResult)
                             (Some (successfulExtractions multiResult))
                             nextQuestion, mem2)
                | None => standard mem2   (* caught: [catch (routerError)] *)
                end
            | [] =>
                (Reprompt (Some (generateClarificationQuestion d currentSlot userResponse)) true,
                 saveInteraction question userResponse VNull currentSlot mem1)
            end
        | Clarify =>
            (Reprompt (Some (generateClarificationQuestion d currentSlot userResponse)) true,
             saveInteraction question userResponse VNull currentSlot mem)
        | Ask => standard mem
        end
      else standard mem
  end.

End DialogManager.

(* ================================================================= *)
(** ** The HTTP handler and the client page *)

Module Server.
Import DialogManager.

(** The body of a POST to [/api/interview-next], as the client builds it:
    [currentSlot] is a string or [null], [response] a string and
    [filledSlots] an object. *)
Record RequestBody : Type := {
  currentSlot : option string;
  response : string;
  filledSlots : FilledSlots;
  phase : option string
}.

Inductive Reply : Type :=
| Question (nextQuestion : NextQuestion)           (* the interview starts *)
| Accepted (filledSlots : FilledSlots) (extractedSlots : list Extraction)
           (isHybridExtraction : bool) (next : NextQuestion)
| BadRequest (error : option string) (isClarification : bool)  (* status 400 *)
| InternalError.                                               (* status 500 *)

(** The handler of [/api/interview-next]: it reads [currentSlot],
    [response] and [filledSlots] from the body, and nothing else. *)
Definition interviewNext (d : Delegates) (hybridMode : bool)
           (body : RequestBody) (mem : InterviewMemory)
  : Reply * InterviewMemory :=
  match or_null (currentSlot body) with
  | None =>
      match getNextQuestion [] with
      | Some nextQuestion => (Question nextQuestion, mem)
      | None => (InternalError, mem)
      end
  | Some cur =>
      let (result, mem') :=
        processResponse d hybridMode cur (response body) (filledSlots body) mem in
      match result with
      | Reprompt error isClarification => (BadRequest error isClarification, mem')
      | Success slots extracted next =>
          (Accepted slots
                    (match extracted with Some l => l | None => [] end)
                    (match extracted with Some _ => true | None => false end)
                    next, mem')
      | Thrown => (InternalError, mem')
      end
  end.
End Server.

Module Client.
(** [interviewState] of the page; the summary text is left out. *)
Record InterviewState : Type := {
  isStarted : bool;
  isComplete : bool;
  isReview : bool;
  currentSlot : option string;
  filledSlots : FilledSlots;
  retryCount : nat
}.

(** The request [sendMessage] posts for the text typed; nothing is sent
    for a blank input. *)
Definition sendMessage (st : InterviewState) (input : string)
  : option Server.RequestBody :=
  let userResponse := JsString.trim input in
  if userResponse =? "" then None
  else Some {| Server.currentSlot := currentSlot st;
               Server.response := userResponse;
               Server.filledSlots := filledSlots st;
               Server.phase := if isReview st then Some "review" else None |}.

End Client.

(* ================================================================= *)
(** ** memory.js, continued *)

Module Memory.

(** The test of the filter of [getFilledSlots]:
    [msg.type === 'human' && msg.slotName && msg.extractedValue]; a slot
    name that is [null] is a message without slot, the empty name here. *)
Definition fillsSlot (msg : Message) : bool :=
  match msg with
  | AiMessage _ => false
  | HumanMessage _ extractedValue slotName =>
      negb (slotName =? "") && negb (falsy extractedValue)
  end.

(** [slots[msg.slotName] = msg.extractedValue] *)
Definition recordSlot (slots : FilledSlots) (msg : Message) : FilledSlots :=
  match msg with
  | AiMessage _ => slots
  | HumanMessage _ extractedValue slotName =>
      Obj.assign slotName extractedValue slots
  end.

(** [getFilledSlots()] *)
Definition getFilledSlots (m : InterviewMemory) : FilledSlots :=
  fold_left recordSlot (filter fillsSlot (messages m)) [].

(** The counters of [getStats()]. *)
Record Stats : Type := {
  totalMessages : nat;
  totalInteractions : nat
}.

Definition getStats (m : InterviewMemory) : Stats :=
  {| totalMessages := List.length (messages m);
     totalInteractions := interactionCount m |}.

(** [getFormattedConversation()]; a content that is [undefined] reads
    "undefined" in the template. *)
Definition formatted (msg : Message) : string :=
  match msg with
  | AiMessage (Some content) => "Interviewer: " ++ content
  | AiMessage None => "Interviewer: undefined"
  | HumanMessage content _ _ => "Patient: " ++ content
  end.

Definition getFormattedConversation (m : InterviewMemory) : string :=
  JsString.join (String (ascii_of_nat 10) (String (ascii_of_nat 10) ""))
                (map formatted (messages m)).
End Memory.

(* ================================================================= *)
(** ** routerChain.js, continued *)

Module RouterChain.
Import JsString Regex.

(** [\d] *)
Definition digit : atom :=
  ASet ["0"; "1"; "2"; "3"; "4"; "5"; "6"; "7"; "8"; "9"]%char.

(** [/(\d+)\s*years?\s*old/i] *)
Definition ageRegex : regex :=
  seq [Group (plus digit); star ASpace; lit "year"; Rep 0 (Some 1) (AChar "s");
       star ASpace; lit "old"].

Definition marriedKeywords : list string :=
  ["married"; "spouse"; "husband"; "wife"; "partner"].
Definition singleKeywords : list string :=
  ["single"; "unmarried"; "divorced"; "widowed"].

Section PostProcessing.
(** The text that [currentYear - parseInt(ageMatch[1])] has in a template
    literal, as a function of [ageMatch[1]]: the clock and the conversion of
    numbers belong to the environment. *)
Variable birthYear : option string -> string.
Variable userResponse : string.

(** [extraction.value = v] *)
Definition withValue (e : Extraction) (v : JsValue) : Extraction :=
  {| slotName := slotName e; value := v; confidence := confidence e |}.

(** The conversion of an age into a date of birth. *)
Definition convertAge (e : Extraction) : Extraction :=
  match value e with
  | VStr _ =>
      if slotName e =? "dob" then
        match exec true ageRegex userResponse with
        | Some ageMatch1 => withValue e (VStr ("01/01/" ++ birthYear ageMatch1))
        | None => e
        end
      else e
  | _ => e
  end.

(** The conversion of a marital status into [has_partner]. *)
Definition inferPartner (e : Extraction) : Extraction :=
  match value e with
  | VStr _ =>
      if slotName e =? "has_partner" then
        let lowerResponse := toLowerCase userResponse in
        if existsb (fun keyword => includes keyword lowerResponse) marriedKeywords
        then withValue e (VBool true)
        else if existsb (fun keyword => includes keyword lowerResponse) singleKeywords
             then withValue e (VBool false)
             else e
      else e
  | _ => e
  end.

(** The function mapped over [result.extractions]. *)
Definition postProcess (e : Extraction) : Extraction :=
  inferPartner (convertAge e).

(** What [extractMultipleSlots] returns for the extractions parsed from the
    answer of the model; [None] when the call or the parsing fails. *)
Definition processedExtractions (parsed : option (list Extraction))
  : list Extraction :=
  match parsed with
  | Some extractions => map postProcess extractions
  | None => []
  end.
End PostProcessing.

(** The slots [extractMultipleSlots] describes to the model: the key slots
    and the current one. *)
Definition keySlots : list string :=
  ["first_name"; "last_name"; "dob"; "chief_complaint"; "chief_complaint_text";
   "has_partner"; "months_ttc"; "age"; "phone"; "email"].

Definition describedSlots (availableSlots : SlotGraph) (currentSlot : string)
  : SlotGraph :=
  filter (fun entry => existsb (String.eqb (fst entry)) keySlots
                       || (fst entry =? currentSlot))
         (Obj.entries availableSlots).

(** [`${name}: ${config.question}`] *)
Definition describe (entry : string * SlotConfig) : string :=
  fst entry ++ ": " ++ question (snd entry).

(** [slotContext], the text of the prompt of [extractMultipleSlots] that
    lists the slots. *)
Definition slotContext (availableSlots : SlotGraph) (currentSlot : string)
  : string :=
  join (String (ascii_of_nat 10) "")
       (map describe (describedSlots availableSlots currentSlot)).

(** [slotsContext], the text of the prompt of [routeUserResponse]: the
    first ten slots. *)
Definition slotsContext (availableSlots : SlotGraph) : string :=
  join (String (ascii_of_nat 10) "")
       (map describe (firstn 10 (Obj.entries availableSlots))).
End RouterChain.

(* ================================================================= *)
(** ** contextChain.js *)

Module ContextChain.
Import JsString.

(** How a call ends: with a value ([None] is [undefined]), with a new
    empty object, or by a TypeError. *)
Inductive Outcome : Type :=
| Returns (v : option JsValue)
| ReturnsObject
| Throws.

Definition partnerSlots : list string :=
  ["partner_first_name"; "partner_last_name"; "partner_dob";
   "partner_sex_at_birth"; "partner_gender_identity"; "partner_pronouns";
   "partner_prior_children"; "partner_children_details"].

(** [filledSlots[k] === false] *)
Definition isFalse (v : option JsValue) : bool :=
  match v with
  | Some (VBool false) => true
  | _ => false
  end.

(** [rule()] for a rule that is a member [skipRules] inherits from
    [Object.prototype], called without receiver and without argument:
    [Object()] is a new object, [toString] names the receiver,
    [isPrototypeOf] answers [false] for an argument that is no object, the
    other functions want a receiver, and [__proto__] is no function. *)
Definition memberRule (slotName : string) : Outcome :=
  if slotName =? "constructor" then ReturnsObject
  else if slotName =? "toString" then Returns (Some (VStr "[object Undefined]"))
  else if slotName =? "isPrototypeOf" then Returns (Some (VBool false))
  else Throws.

(** [shouldSkipSlot(slotName, filledSlots, conversationContext)] *)
Definition shouldSkipSlot (slotName : string) (filledSlots : FilledSlots)
  : Outcome :=
  if existsb (String.eqb slotName) partnerSlots
  then Returns (Some (VBool (isFalse (Obj.get "has_partner" filledSlots))))
  else if slotName =? "dob" then
    (* [filledSlots.dob && filledSlots.dob.includes('01/01/')] *)
    match Obj.get "dob" filledSlots with
    | None => Returns None
    | Some v =>
        if falsy v then Returns (Some v)
        else match v with
             | VStr s => Returns (Some (VBool (includes "01/01/" s)))
             | VList l => Returns (Some (VBool (existsb (String.eqb "01/01/") l)))
             | _ => Throws
             end
    end
  else if slotName =? "pregnancy_table"
  then Returns (Some (VBool (isFalse (Obj.get "current_partner_pregs" filledSlots))))
  else if slotName =? "other_pregnancy_table"
  then Returns (Some (VBool (isFalse (Obj.get "other_partner_pregs" filledSlots))))
  else if Obj.inherited slotName then memberRule slotName
  else Returns (Some (VBool false)).

End ContextChain.

(* ================================================================= *)
(** ** Regular expressions, continued *)

Module RegexOps.
Import JsString Regex.

(** [r.test(s)] for an expression written between [^] and [$], without the
    [m] flag: the match starts the input and ends it. *)
Definition testAnchored (icase : bool) (r : regex) (s : string) : bool :=
  match run icase r None s None
            (fun _ s' _ => if s' =? "" then Some tt else None) with
  | Some _ => true
  | None => false
  end.

(** The input that follows the match of [r] at the start of [s]. *)
Definition matchAt (icase : bool) (r : regex) (prev : option ascii) (s : string)
  : option string :=
  run icase r prev s None (fun _ s' _ => Some s').

(** [s.replace(r, '')] for an expression with the [g] flag: the matches are
    looked for from left to right, each after the end of the one before,
    and removed.  [skip] counts the characters of the current match that
    are still to be passed; after an empty match the search moves on by one
    character, which stays. *)
Fixpoint removeAll (icase : bool) (r : regex) (skip : nat)
         (prev : option ascii) (s : string) : string :=
  match s with
  | EmptyString => EmptyString
  | String c s' =>
      match skip with
      | S n => removeAll icase r n (Some c) s'
      | 0 =>
          match matchAt icase r prev s with
          | Some rest =>
              match String.length s - String.length rest with
              | S n => removeAll icase r n (Some c) s'
              | 0 => String c (removeAll icase r 0 (Some c) s')
              end
          | None => String c (removeAll icase r 0 (Some c) s')
          end
      end
  end.

(** [s.match(r)[0]] for an expression without the [g] flag: the text of the
    first match from the left, if there is one. *)
Fixpoint matchText (icase : bool) (r : regex) (prev : option ascii) (s : string)
  : option string :=
  match run icase r prev s None (fun _ s' _ => Some (consumed s s')) with
  | Some text => Some text
  | None =>
      match s with
      | String c s' => matchText icase r (Some c) s'
      | EmptyString => None
      end
  end.

(** The 256 characters. *)
Definition allAscii : list ascii := map ascii_of_nat (List.seq 0 256).

(** A class given by a test, [[^...]] for instance. *)
Definition class (p : ascii -> bool) : atom := ASet (filter p allAscii).
End RegexOps.

(* ================================================================= *)
(** ** validationChain.js *)

Module ValidationChain.
Import JsString Regex RegexOps.

Definition digit : atom := RouterChain.digit.

(** [[^\s@]] *)
Definition notSpaceNorAt : atom :=
  class (fun c => negb (is_space c || Ascii.eqb c "@")).

(** [/^[^\s@]+@[^\s@]+\.[^\s@]+$/] *)
Definition emailRule : regex :=
  seq [plus notSpaceNorAt; Atom (AChar "@"); plus notSpaceNorAt;
       Atom (AChar "."); plus notSpaceNorAt].

(** [/^[\+]?[1-9][\d]{0,15}$/] *)
Definition phoneRule : regex :=
  seq [Rep 0 (Some 1) (ASet ["+"%char]);
       Atom (ASet ["1"; "2"; "3"; "4"; "5"; "6"; "7"; "8"; "9"]%char);
       Rep 0 (Some 15) digit].

(** [/^(\d{1,2}\/\d{1,2}\/\d{4}|\d{4}-\d{1,2}-\d{1,2}|\d{1,2}-\d{1,2}-\d{4})$/] *)
Definition dobRule : regex :=
  Group
    (alt [seq [Rep 1 (Some 2) digit; Atom (AChar "/"); Rep 1 (Some 2) digit;
               Atom (AChar "/"); Rep 4 (Some 4) digit];
          seq [Rep 4 (Some 4) digit; Atom (AChar "-"); Rep 1 (Some 2) digit;
               Atom (AChar "-"); Rep 1 (Some 2) digit];
          seq [Rep 1 (Some 2) digit; Atom (AChar "-"); Rep 1 (Some 2) digit;
               Atom (AChar "-"); Rep 4 (Some 4) digit]]).

(** The own properties of [formatRules]. *)
Definition formatRules (slotName : string) : option regex :=
  if slotName =? "email" then Some emailRule
  else if slotName =? "phone" then Some phoneRule
  else if slotName =? "dob" then Some dobRule
  else None.

(** [/[\s\-\(\)]/g] *)
Definition separator : regex :=
  Atom (class (fun c => is_space c || Ascii.eqb c "-" || Ascii.eqb c "("
                        || Ascii.eqb c ")")).

(** [quickFormatValidation(slotName, value)]; [None] is a TypeError:
    [formatRules[slotName]] is then a member of [Object.prototype], which
    is truthy and has no [test]. *)
Definition quickFormatValidation (slotName : string) (value : JsValue)
  : option bool :=
  match value with
  | VStr s =>
      match formatRules slotName with
      | Some rule =>
          Some (testAnchored false rule (removeAll false separator 0 None s))
      | None => if Obj.inherited slotName then None else Some true
      end
  | _ => Some true
  end.

(** A character as a digit in the radix, if it is one. *)
Definition digitValue (radix : Z) (c : ascii) : option Z :=
  let n := Z.of_nat (nat_of_ascii c) in
  let v := if is_digit c then Some (n - 48)%Z
           else if is_lower c then Some (n - 87)%Z
           else if is_upper c then Some (n - 55)%Z
           else None in
  match v with
  | Some d => if (d <? radix)%Z then Some d else None
  | None => None
  end.

(** The number the digits at the start of [s] write; [None] without a
    digit. *)
Fixpoint digitsValue (radix : Z) (acc : option Z) (s : string) : option Z :=
  match s with
  | EmptyString => acc
  | String c s' =>
      match digitValue radix c with
      | Some d =>
          digitsValue radix
            (Some (radix * match acc with Some a => a | None => 0 end + d)%Z) s'
      | None => acc
      end
  end.

(** [parseInt(s)]: white space, a sign, [0x] for the radix 16, digits.
    [None] is [NaN].  The number is exact here where JavaScript rounds it to
    a binary64; the comparisons below, with small integers, are the same. *)
Definition parseInt (s : string) : option Z :=
  let s := trimStart s in
  let signed :=
    match s with
    | String "-" s' => (true, s')
    | String "+" s' => (false, s')
    | _ => (false, s)
    end in
  let based :=
    match snd signed with
    | String "0" (String x s') =>
        if Ascii.eqb x "x" || Ascii.eqb x "X" then (16%Z, s')
        else (10%Z, snd signed)
    | _ => (10%Z, snd signed)
    end in
  option_map (fun z => if fst signed then (- z)%Z else z)
             (digitsValue (fst based) None (snd based)).

Record Issue : Type := {
  type : string;
  message : string;
  severity : string
}.

Section Consistency.
(** The clock and the reading of dates belong to the environment:
    [new Date().getFullYear()], and [new Date(v).getFullYear()] for a value
    [v], [None] when it is [NaN]. *)
Variable currentYear : Z.
Variable getFullYear : JsValue -> option Z.

(** [filledSlots[k]] is truthy. *)
Definition truthy (filledSlots : FilledSlots) (k : string) : bool :=
  match Obj.get k filledSlots with
  | Some v => negb (falsy v)
  | None => false
  end.

(** The text of [filledSlots[k]] in a template literal or as the argument of
    [parseInt]. *)
Definition text (filledSlots : FilledSlots) (k : string) : string :=
  match Obj.get k filledSlots with
  | Some v => js_String v
  | None => "undefined"
  end.

(** [Math.abs(calculatedAge - parseInt(filledSlots.age)) > 1] *)
Definition ageDiffers (filledSlots : FilledSlots) : bool :=
  match Obj.get "dob" filledSlots with
  | Some dob =>
      match getFullYear dob, parseInt (text filledSlots "age") with
      | Some birthYear, Some age =>
          (1 <? Z.abs (currentYear - birthYear - age))%Z
      | _, _ => false
      end
  | None => false
  end.

Definition ageIssue (filledSlots : FilledSlots) : list Issue :=
  if truthy filledSlots "dob" && truthy filledSlots "age"
     && ageDiffers filledSlots
  then [{| type := "age_inconsistency";
           message := "Age (" ++ text filledSlots "age"
                      ++ ") doesn't match birth date ("
                      ++ text filledSlots "dob" ++ ")";
           severity := "warning" |}]
  else [].

Definition partnerFields : list string :=
  ["partner_first_name"; "partner_last_name"; "partner_dob"].

Definition partnerIssue (filledSlots : FilledSlots) : list Issue :=
  match Obj.get "has_partner" filledSlots with
  | Some (VBool false) =>
      match filter (truthy filledSlots) partnerFields with
      | [] => []
      | _ :: _ =>
          [{| type := "partner_inconsistency";
              message := "Partner information provided but has_partner is false";
              severity := "error" |}]
      end
  | _ => []
  end.

Definition timelineIssue (filledSlots : FilledSlots) : list Issue :=
  if truthy filledSlots "months_ttc"
     && match parseInt (text filledSlots "months_ttc") with
        | Some months => (120 <? months)%Z
        | None => false
        end
  then [{| type := "timeline_inconsistency";
           message := "Trying to conceive for over 10 years seems unusual";
           severity := "warning" |}]
  else [].

(** [checkDataConsistency(filledSlots)] *)
Definition checkDataConsistency (filledSlots : FilledSlots) : list Issue :=
  (ageIssue filledSlots ++ partnerIssue filledSlots
   ++ timelineIssue filledSlots)%list.
End Consistency.
End ValidationChain.

(* ================================================================= *)
(** ** extractSlotChain.js, continued *)

Module ExtractSlotChain.
Import JsString Regex RegexOps.

Definition backtick : ascii := "`"%char.

(** [/```json\s*/g], [/```\s*/g] and [/`{1,3}/g] *)
Definition jsonFence : regex := Seq (lit "```json") (star ASpace).
Definition fence : regex := Seq (lit "```") (star ASpace).
Definition backticks : regex := Rep 1 (Some 3) (AChar backtick).

(** [/\{[\s\S]*\}/] *)
Definition jsonObject : regex :=
  seq [Atom (AChar "{"); star (class (fun _ => true)); Atom (AChar "}")].

(** [cleanLLMResponse(response)] *)
Definition cleanLLMResponse (response : string) : string :=
  let cleaned :=
    trim (removeAll false backticks 0 None
            (removeAll false fence 0 None
               (removeAll false jsonFence 0 None response))) in
  if prefix "{" cleaned && endsWith "}" cleaned then cleaned
  else
    match matchText false jsonObject None cleaned with
    | Some jsonMatch0 => jsonMatch0
    | None => cleaned
    end.
End ExtractSlotChain.

(* ================================================================= *)
(** ** The client page, continued *)

Module Page.
Import DialogManager Client.

(** The state of the page: [interviewState] and the flag [loading], which
    is set while a request is under way. *)
Record PageState : Type := {
  interview : InterviewState;
  loading : bool
}.

(** The state of the page before the interview. *)
Definition initialState : PageState :=
  {| interview :=
       {| isStarted := false; isComplete := false; isReview := false;
          currentSlot := None; filledSlots := []; retryCount := 0 |};
     loading := false |}.

(** What the page reads in a reply with status 200: the fields of the next
    question, and [data.filledSlots], which a slot question sent at the
    start of the interview does not have.  A reply with another status
    makes the page throw. *)
Definition okData (reply : Server.Reply)
  : option (NextQuestion * option FilledSlots) :=
  match reply with
  | Server.Question (ReviewQuestion slots message) =>
      Some (ReviewQuestion slots message, Some slots)
  | Server.Question nextQuestion => Some (nextQuestion, None)
  | Server.Accepted _ _ _ (ReviewQuestion slots message) =>
      Some (ReviewQuestion slots message, Some slots)
  | Server.Accepted slots _ _ nextQuestion => Some (nextQuestion, Some slots)
  | Server.BadRequest _ _ | Server.InternalError => None
  end.

(** [data.slot] *)
Definition slotOf (nextQuestion : NextQuestion) : option string :=
  match nextQuestion with
  | SlotQuestion slot _ => Some slot
  | ReviewQuestion _ _ => None
  end.

(** The body of the request that starts the interview, and of the one that
    skips a question. *)
Definition startBody (slots : FilledSlots) : Server.RequestBody :=
  {| Server.currentSlot := None; Server.response := "";
     Server.filledSlots := slots; Server.phase := None |}.

(** [startInterview()]; when the request fails only the chat changes.
    [loading] is reset at the end. *)
Definition startInterview (d : Delegates) (hybridMode : bool)
           (p : PageState) (mem : InterviewMemory)
  : PageState * InterviewMemory :=
  let st := interview p in
  let (reply, mem') := Server.interviewNext d hybridMode (startBody []) mem in
  match okData reply with
  | Some (nextQuestion, _) =>
      ({| interview :=
            {| isStarted := true; isComplete := isComplete st;
               isReview := match nextQuestion with
                           | ReviewQuestion _ _ => true
                           | SlotQuestion _ _ => false
                           end;
               currentSlot := slotOf nextQuestion;
               filledSlots := [];
               retryCount := retryCount st |};
          loading := false |}, mem')
  | None => ({| interview := st; loading := false |}, mem')
  end.

(** The state after a reply with status 200.  The server of this program
    never sets [isComplete]; a slot map that is absent is the empty one. *)
Definition accept (st : InterviewState) (nextQuestion : NextQuestion)
           (slots : option FilledSlots) : InterviewState :=
  match nextQuestion with
  | ReviewQuestion _ _ =>
      {| isStarted := isStarted st; isComplete := isComplete st;
         isReview := true;
         currentSlot := currentSlot st;
         filledSlots := match slots with
                        | Some data_filledSlots => data_filledSlots
                        | None => filledSlots st
                        end;
         retryCount := retryCount st |}
  | SlotQuestion slot _ =>
      {| isStarted := isStarted st; isComplete := isComplete st;
         isReview := isReview st;
         currentSlot := Some slot;
         filledSlots := match slots with
                        | Some data_filledSlots => data_filledSlots
                        | None => []
                        end;
         retryCount := 0 |}
  end.

(** [setInterviewState(prev => ({...prev, retryCount: prev.retryCount + 1}))] *)
Definition retry (st : InterviewState) : InterviewState :=
  {| isStarted := isStarted st; isComplete := isComplete st;
     isReview := isReview st; currentSlot := currentSlot st;
     filledSlots := filledSlots st; retryCount := S (retryCount st) |}.

(** [setInterviewState(prev => ({...prev, currentSlot: skipData.slot,
    retryCount: 0}))] *)
Definition skipTo (st : InterviewState) (slot : option string) : InterviewState :=
  {| isStarted := isStarted st; isComplete := isComplete st;
     isReview := isReview st; currentSlot := slot;
     filledSlots := filledSlots st; retryCount := 0 |}.

(** [sendMessage()] for the text typed, when the server is reached: the
    request, the reply and the new state.  Nothing happens for a blank input
    or while [loading] is set.  A reprompt comes with status 400, so it is
    handled where errors are; there the function returns after the request
    that skips the question, before [loading] is reset. *)
Definition sendMessage (d : Delegates) (hybridMode : bool)
           (p : PageState) (input : string) (mem : InterviewMemory)
  : PageState * InterviewMemory :=
  let st := interview p in
  if loading p then (p, mem)
  else
    match Client.sendMessage st input with
    | None => (p, mem)
    | Some body =>
        let (reply, mem1) := Server.interviewNext d hybridMode body mem in
        match okData reply with
        | Some (nextQuestion, slots) =>
            ({| interview := accept st nextQuestion slots; loading := false |},
             mem1)
        | None =>
            if Nat.leb 2 (retryCount st) then
              let (skipReply, mem2) :=
                Server.interviewNext d hybridMode (startBody (filledSlots st))
                                     mem1 in
              match okData skipReply with
              | Some (skipNext, _) =>
                  ({| interview := skipTo st (slotOf skipNext); loading := true |},
                   mem2)
              | None => ({| interview := retry st; loading := false |}, mem2)
              end
            else ({| interview := retry st; loading := false |}, mem1)
        end
    end.
End Page.

(* ================================================================= *)
(** * Vocabulary of the properties *)

Definition isSome {A : Type} (o : option A) : bool :=
  match o with Some _ => true | None => false end.

(** ** The merge *)

Section MergeVocabulary.
Import DialogManager.

(** What the loop of [processMultipleExtractions] does to the slot map
    alone. *)
Definition mergeSlots (fs : FilledSlots) (e : Extraction) : FilledSlots :=
  if accepted e then Obj.assign (slotName e) (value e) fs else fs.

(** The entry of [failedExtractions] for a candidate. *)
Definition rejection (e : Extraction) : FailedExtraction :=
  {| candidate := e;
     failure := error (validateSlotValue (slotName e) (value e)) |}.

(** The value the last accepted candidate for slot [k] carries, if any. *)
Definition lastAccepted (k : string) (candidates : list Extraction)
  : option JsValue :=
  fold_left (fun r e => if accepted e && (slotName e =? k)
                        then Some (value e) else r)
            candidates None.

Definition acceptInto (r : MultiResult) (e : Extraction) : MultiResult :=
  {| updatedSlots := Obj.assign (slotName e) (value e) (updatedSlots r);
     successfulExtractions := (successfulExtractions r ++ [e])%list;
     failedExtractions := failedExtractions r |}.

Definition rejectInto (r : MultiResult) (e : Extraction) : MultiResult :=
  {| updatedSlots := updatedSlots r;
     successfulExtractions := successfulExtractions r;
     failedExtractions := (failedExtractions r ++ [rejection e])%list |}.

(** The candidates of the spec's merge scenario, for a slot. *)
Definition scenarioCandidates (slot : string) : list Extraction :=
  [ {| slotName := slot; value := VStr "John"; confidence := 0.9 |};
    {| slotName := slot; value := VStr "Jon"; confidence := 0.95 |} ].

(** The same two candidates for [full_name], the more confident one first. *)
Definition reversedCandidates : list Extraction :=
  [ {| slotName := "full_name"; value := VStr "Jon"; confidence := 0.95 |};
    {| slotName := "full_name"; value := VStr "John"; confidence := 0.9 |} ].

(** A candidate for a name that is no slot of the schema but a member of
    [Object.prototype]. *)
Definition memberCandidate : Extraction :=
  {| slotName := "constructor"; value := VStr "x"; confidence := 0.9 |}.

(** The names of the five slots of the schema. *)
Definition schemaNames : list string :=
  ["full_name"; "dob"; "has_partner"; "chief_complaint"; "months_ttc"].

(** The names of the members of [Object.prototype], which every object
    created by a literal or by [JSON.parse] inherits. *)
Definition memberNames : list string :=
  ["constructor"; "__defineGetter__"; "__defineSetter__"; "hasOwnProperty";
   "__lookupGetter__"; "__lookupSetter__"; "isPrototypeOf";
   "propertyIsEnumerable"; "toString"; "valueOf"; "__proto__";
   "toLocaleString"].

(** A name is known to the schema lookup: a slot, or a member of
    [Object.prototype]. *)
Definition known (name : string) : Prop :=
  In name schemaNames \/ In name memberNames.

(** The same, decided. *)
Definition knownName (name : string) : bool :=
  existsb (String.eqb name) (schemaNames ++ memberNames).

(** The object can take a value under [k] by assignment: every name but
    [__proto__], which is the accessor of the prototype unless the object
    has it as an own property. *)
Definition assignable {A : Type} (k : string) (o : Obj.t A) : bool :=
  negb (k =? "__proto__") || isSome (Obj.get k o).

(** The candidates of a turn that gives a name, a partner and a list. *)
Definition sampleCandidates : list Extraction :=
  [ {| slotName := "full_name"; value := VStr "Jane Doe"; confidence := 0.9 |};
    {| slotName := "has_partner"; value := VBool false; confidence := 0.8 |};
    {| slotName := "chief_complaint"; value := VList ["headache"; "nausea"];
       confidence := 0.75 |} ].
End MergeVocabulary.

(** ** The slot graph *)

Section GraphVocabulary.
Variable slots : SlotGraph.

(** The slots [cfg] can lead to: its default and the targets of its
    branches. *)
Definition targets (cfg : SlotConfig) : list string :=
  (match or_null (next_default cfg) with
   | Some t => [t]
   | None => []
   end ++ map snd (branches cfg))%list.

Definition edge (a b : string) : Prop :=
  exists cfg, Obj.get a slots = Some cfg /\ In b (targets cfg).

(** Every edge leads to a slot of the graph. *)
Definition well_formed : Prop :=
  forall a b, edge a b -> In b (Obj.keys slots).

(** No slot is reachable from itself. *)
Definition acyclic : Prop :=
  forall a, ~ clos_trans string edge a a.
End GraphVocabulary.

(** The rule of the branches in the words of the spec: the target of the
    first branch, in the order of declaration, whose pattern matches the
    lower-case text of the value, and the default when there is none. *)
Definition firstMatchingBranch (matches : string -> string -> bool)
           (cfg : SlotConfig) (v : JsValue) : option string :=
  match find (fun b => matches (fst b) (branch_value v)) (branches cfg) with
  | Some b => Some (snd b)
  | None => or_null (next_default cfg)
  end.

(** The rule of the branches as the loop has it: nothing is tried for a
    value whose text is empty, and the branches are tried in the order of
    [Object.entries]. *)
Definition firstMatchingEntry (matches : string -> string -> bool)
           (cfg : SlotConfig) (v : JsValue) : option string :=
  if branch_value v =? "" then or_null (next_default cfg)
  else match find (fun b => matches (fst b) (branch_value v))
                  (Obj.entries (branches cfg)) with
       | Some b => Some (snd b)
       | None => or_null (next_default cfg)
       end.

(** No key of the object is an array index: its entries come in the order
    of declaration. *)
Definition noIndexKey {A : Type} (o : Obj.t A) : bool :=
  forallb (fun entry => match Obj.arrayIndex (fst entry) with
                        | Some _ => false
                        | None => true
                        end) o.

(** The pattern is in the fragment that is compiled. *)
Definition compiles (pattern : string) : bool :=
  match Regex.RegExp pattern with
  | Regex.Compiled _ => true
  | _ => false
  end.

(** A host whose engine matches nothing, and one that matches everything. *)
Definition deafHost : string -> string -> bool := fun _ _ => false.
Definition eagerHost : string -> string -> bool := fun _ _ => true.

(** The distance of a slot of the schema to the end of the longest path. *)
Definition schemaRank (s : string) : nat :=
  if s =? "full_name" then 4
  else if s =? "dob" then 3
  else if s =? "has_partner" then 2
  else if s =? "chief_complaint" then 1
  else 0.

(** A graph of two slots that lead to each other. *)
Definition cyclicGraph : SlotGraph := [
  ("a", {| id := "a"; question := "A?"; slot := "a"; required := true;
           branches := []; next_default := Some "b" |});
  ("b", {| id := "b"; question := "B?"; slot := "b"; required := true;
           branches := []; next_default := Some "a" |})
].

(** The graph of the spec's traversal scenarios: the schema with the one
    branch the scenario names. *)
Definition scenarioGraph : SlotGraph := [
  ("full_name",
   {| id := "full_name"; question := "What is your full name?";
      slot := "full_name"; required := true;
      branches := []; next_default := Some "dob" |});
  ("dob",
   {| id := "dob"; question := "What is your date of birth?";
      slot := "dob"; required := true;
      branches := []; next_default := Some "has_partner" |});
  ("has_partner",
   {| id := "has_partner";
      question := "Do you have a partner who will be part of treatment? (yes/no)";
      slot := "has_partner"; required := true;
      branches := []; next_default := Some "chief_complaint" |});
  ("chief_complaint",
   {| id := "chief_complaint"; question := "What brings you in today?";
      slot := "chief_complaint_text"; required := true;
      branches := [(".*fertility.*", "months_ttc")];
      next_default := None |});
  ("months_ttc",
   {| id := "months_ttc";
      question := "How many months have you been trying to get pregnant?";
      slot := "months_ttc"; required := false;
      branches := []; next_default := None |})
].

(** The slot map of the scenarios, for a complaint. *)
Definition scenarioFilled (complaint : string) : FilledSlots := [
  ("full_name", VStr "Jane Doe");
  ("dob", VStr "1990-01-01");
  ("has_partner", VBool true);
  ("chief_complaint", VStr complaint)
].

(** A slot whose one branch matches every text, the empty one too. *)
Definition catchAllSlot : SlotConfig :=
  {| id := "allergies"; question := "Any allergies?"; slot := "allergies";
     required := true; branches := [(".*", "allergy_details")];
     next_default := Some "medications" |}.

(** A slot with two branches: the first declared matches every text, the
    second has an array index for its key. *)
Definition gradedSlot : SlotConfig :=
  {| id := "pain_level"; question := "How strong is the pain, from 1 to 3?";
     slot := "pain_level"; required := true;
     branches := [(".*", "pain_details"); ("3", "emergency")];
     next_default := None |}.

(** A slot whose branch key is no regular expression: its second
    alternative is a quantifier with nothing to repeat. *)
Definition starredSlot : SlotConfig :=
  {| id := "consent"; question := "Do you consent?"; slot := "consent";
     required := true; branches := [("yes|*", "consent_details")];
     next_default := Some "refusal" |}.

(** ** The correction engine *)

Section CorrectionVocabulary.
Import DialogManager.

(** Whether the strict form or a natural-language form of [slotName]
    matches. *)
Definition matchesSlotForm (userResponse slotName : string) : bool :=
  isSome (Regex.exec true (strictRegex slotName) userResponse)
  || isSome (naturalMatch slotName userResponse).

(** Whether one of the patterns tried for [slotName] matches: a form of the
    slot, or a partner key word when the slot is [has_partner]. *)
Definition matchesSlotPattern (userResponse slotName : string) : bool :=
  matchesSlotForm userResponse slotName
  || saysSingle (JsString.toLowerCase userResponse) slotName
  || saysMarried (JsString.toLowerCase userResponse) slotName.

(** The utterance matches no form of any slot. *)
Definition matchesNoSlotForm (userResponse : string) : bool :=
  forallb (fun k => negb (matchesSlotForm userResponse k)) (Obj.keys SLOT_SCHEMA).

(** The utterance matches no pattern of any slot. *)
Definition matchesNoSlotPattern (userResponse : string) : bool :=
  forallb (fun k => negb (matchesSlotPattern userResponse k))
          (Obj.keys SLOT_SCHEMA).

(** A parsed correction is applicable when the lookup of the schema finds
    its name, as a slot or as a member of [Object.prototype], and its value
    is not the one the slot map has as an own property. *)
Definition applicable (filledSlots : FilledSlots) (c : string * JsValue) : bool :=
  knownName (fst c) && negb (strict_eq (Obj.get (fst c) filledSlots) (snd c)).

(** The delegate fails, or parses no applicable correction. *)
Definition noApplicableCorrection (d : Delegates) (filledSlots : FilledSlots)
           (userResponse : string) : bool :=
  match parsedCorrections d filledSlots userResponse with
  | Some corrections => forallb (fun c => negb (applicable filledSlots c)) corrections
  | None => true
  end.

(** Delegates that fail. *)
Definition silentDelegates : Delegates :=
  {| routerDecision := fun _ _ => None;
     extractMultipleSlots := fun _ _ => [];
     extractionChain := fun _ _ => (VNull, 0%float);
     generateClarificationQuestion := fun _ _ => "Could you say more?";
     parsedCorrections := fun _ _ => None |}.

(** Delegates that propose the value [dob] already has, and a value for a
    slot that does not exist. *)
Definition echoDelegates : Delegates :=
  {| routerDecision := fun _ _ => None;
     extractMultipleSlots := fun _ _ => [];
     extractionChain := fun _ _ => (VNull, 0%float);
     generateClarificationQuestion := fun _ _ => "Could you say more?";
     parsedCorrections := fun _ _ =>
       Some [("dob", VStr "01/01/1989"); ("birth_year", VStr "1987")] |}.

(** A router that always extracts, and finds the given candidates. *)
Definition extractingDelegates (found : list Extraction) : Delegates :=
  {| routerDecision := fun _ _ => Some Extract;
     extractMultipleSlots := fun _ _ => found;
     extractionChain := fun _ _ => (VNull, 0%float);
     generateClarificationQuestion := fun _ _ => "Could you say more?";
     parsedCorrections := fun _ _ => None |}.

Definition birthYearRequest : string := "change my birth year to 1987".
Definition dobRequest : string := "change my dob to 1987".
Definition husbandRemark : string := "I will come with my husband".
End CorrectionVocabulary.

(** ** Turns *)

Section TurnVocabulary.

Definition completedSlots : FilledSlots := [
  ("full_name", VStr "Jane Doe");
  ("dob", VStr "1990-01-01");
  ("has_partner", VBool true);
  ("chief_complaint", VStr "a cold")
].




End TurnVocabulary.

(* ================================================================= *)
(** * Vocabulary of the further properties *)

Section LogVocabulary.
Import DialogManager.

(** An exchange: the question, which can be [undefined], the response,
    the value and the slot. *)
Definition Exchange : Type := (option string * string * JsValue * string)%type.

(** The two messages [saveInteraction] appends for an exchange. *)
Definition exchangeMessages (x : Exchange) : list Message :=
  let '(question, userResponse, v, k) := x in
  [AiMessage question; HumanMessage userResponse v k].

(** Memory [m'] is memory [m] with [n] more interactions: the messages of
    [n] exchanges, a question and a response each, come after those of
    [m]. *)
Definition grows (m m' : InterviewMemory) (n : nat) : Prop :=
  exists exchanges : list Exchange,
    messages m' = (messages m ++ flat_map exchangeMessages exchanges)%list
    /\ List.length exchanges = n
    /\ interactionCount m' = interactionCount m + n.

(** The exchange [processMultipleExtractions] saves for an accepted
    candidate. *)
Definition mergeExchange (e : Extraction) : Exchange :=
  (questionOf (slotName e), "[Multi-extraction] " ++ js_String (value e),
   value e, slotName e).

Definition mergeMessages (e : Extraction) : list Message :=
  exchangeMessages (mergeExchange e).

(** A value the validation lets through: not [null], and not a string of
    white space only. *)
Definition storable (v : JsValue) : bool :=
  match v with
  | VNull => false
  | VStr s => negb (JsString.trim s =? "")
  | _ => true
  end.

(** The number of interactions a turn logs, by its result. *)
Definition turnInteractions (r : TurnResult) : nat :=
  match r with
  | Success _ (Some extracted) _ => 1 + List.length extracted
  | Success _ None _ => 1
  | Reprompt _ _ => 1
  | Thrown => 0
  end.

(** The value of the last parsed correction that names [k], when the
    lookup of the schema finds [k]. *)
Definition lastCorrection (k : string) (corrections : list (string * JsValue))
  : option JsValue :=
  if knownName k
  then fold_left (fun r c => if fst c =? k then Some (snd c) else r)
                 corrections None
  else None.
End LogVocabulary.

Section ReachVocabulary.
Variable slots : SlotGraph.

(** Slot [s] is the root of the graph or is reached from it along edges. *)
Definition reachable (s : string) : Prop :=
  exists root, ROOT_SLOT slots = Some root
               /\ clos_refl_trans string (edge slots) root s.
End ReachVocabulary.

(** Delegates whose router fails and whose extraction chain finds the
    value [false], with confidence. *)
Definition denyingDelegates : Delegates :=
  {| routerDecision := fun _ _ => None;
     extractMultipleSlots := fun _ _ => [];
     extractionChain := fun _ _ => (VBool false, 0.95%float);
     generateClarificationQuestion := fun _ _ => "Could you say more?";
     parsedCorrections := fun _ _ => None |}.

(** Delegates whose correction parser proposes two dates of birth, one
    after the other, and an age, which the lookup of the schema does not
    find. *)
Definition revisingDelegates : Delegates :=
  {| routerDecision := fun _ _ => None;
     extractMultipleSlots := fun _ _ => [];
     extractionChain := fun _ _ => (VNull, 0%float);
     generateClarificationQuestion := fun _ _ => "Could you say more?";
     parsedCorrections := fun _ _ =>
       Some [("dob", VStr "02/03/1990"); ("age", VStr "33");
             ("dob", VStr "02/03/1991")] |}.

(** Delegates whose correction parser proposes a value for [constructor],
    a member of [Object.prototype], after a date of birth. *)
Definition memberDelegates : Delegates :=
  {| routerDecision := fun _ _ => None;
     extractMultipleSlots := fun _ _ => [];
     extractionChain := fun _ _ => (VNull, 0%float);
     generateClarificationQuestion := fun _ _ => "Could you say more?";
     parsedCorrections := fun _ _ =>
       Some [("dob", VStr "02/03/1990"); ("constructor", VStr "x")] |}.

(** One step, or several, of the correction engine from state [st] to state
    [st']: the properties stay in place and new ones have names the lookup
    of the schema finds, the log grows, and what is stored under another
    name stays. *)
Definition correctionStep (st st' : FilledSlots * InterviewMemory) : Prop :=
  (exists added,
      Obj.keys (fst st') = (Obj.keys (fst st) ++ added)%list
      /\ forall k, In k added -> known k)
  /\ (exists n, grows (snd st) (snd st') n)
  /\ (forall k, ~ known k -> Obj.get k (fst st') = Obj.get k (fst st)).

(** ** The log as a transcript *)

Section TranscriptVocabulary.

(** The memory holds the messages of a list of exchanges, and counts
    them. *)
Definition transcript (m : InterviewMemory) : Prop :=
  exists exchanges : list Exchange,
    messages m = flat_map exchangeMessages exchanges
    /\ interactionCount m = List.length exchanges.

(** What reaches the memory of the server: a request to
    [/api/interview-next] under some setting of the hybrid mode and some
    answers of the model, a call of the correction engine, and the reset of
    the session. *)
Inductive Event : Type :=
| Posted (d : Delegates) (hybridMode : bool) (body : Server.RequestBody)
| Corrected (d : Delegates) (userResponse : string) (filledSlots : FilledSlots)
| ResetSession.

Definition handle (m : InterviewMemory) (ev : Event) : InterviewMemory :=
  match ev with
  | Posted d hybridMode body => snd (Server.interviewNext d hybridMode body m)
  | Corrected d userResponse filledSlots =>
      snd (DialogManager.applyCorrections d userResponse filledSlots m)
  | ResetSession => clearMemory
  end.

Definition session (events : list Event) : InterviewMemory :=
  fold_left handle events clearMemory.

(** The candidates whose value is truthy. *)
Definition truthyCandidates (candidates : list Extraction) : list Extraction :=
  filter (fun e => negb (falsy (value e))) candidates.
End TranscriptVocabulary.

(** ** What a regular expression matches *)

Section RegexVocabulary.
Import JsString Regex.
Variable icase : bool.

(** Every character of [w] satisfies [p]. *)
Fixpoint allChars (p : ascii -> bool) (w : string) : bool :=
  match w with
  | EmptyString => true
  | String c w' => p c && allChars p w'
  end.

(** [n] is within the upper bound [hi] of a repetition. *)
Definition within (hi : option nat) (n : nat) : Prop :=
  match hi with
  | Some h => n <= h
  | None => True
  end.

(** [r] matches a text at the start of [s] that ends where [s'] begins.
    A word boundary consumes nothing; whether it holds is not recorded. *)
Fixpoint lang (r : regex) (s s' : string) : Prop :=
  match r with
  | Eps => s' = s
  | Atom a => exists c, s = String c s' /\ atom_matches icase a c = true
  | Seq r1 r2 => exists m, lang r1 s m /\ lang r2 m s'
  | Alt r1 r2 => lang r1 s s' \/ lang r2 s s'
  | Rep lo hi a =>
      exists w, s = w ++ s' /\ allChars (atom_matches icase a) w = true
                /\ lo <= String.length w /\ within hi (String.length w)
  | Group r1 => lang r1 s s'
  | WordB => s' = s
  end.

(** No word boundary occurs in [r]. *)
Fixpoint boundaryFree (r : regex) : bool :=
  match r with
  | Eps | Atom _ | Rep _ _ _ => true
  | Seq r1 r2 | Alt r1 r2 => boundaryFree r1 && boundaryFree r2
  | Group r1 => boundaryFree r1
  | WordB => false
  end.
End RegexVocabulary.

(** ** The questions of the schema *)

Section TableVocabulary.
Import JsString Regex.

(** The characters of [w], one after the other, then [tail]. *)
Fixpoint chars (w : string) (tail : regex) : regex :=
  match w with
  | EmptyString => tail
  | String c w' => Seq (Atom (AChar c)) (chars w' tail)
  end.



(** [t] is an end of [s]. *)
Definition suffixOf (t s : string) : Prop := exists p, s = p ++ t.

(** The expression, read without regard to case, matches a part of the
    text. *)
Definition matchesSomewhere (r : regex) (text : string) : Prop :=
  exists t rest, suffixOf t text /\ lang true r t rest.

(** The [|]-separated alternatives of a branch key, trimmed and in lower
    case. *)
Definition alternatives (pattern : string) : list string :=
  map (fun a => toLowerCase (trim a)) (split "|" pattern).


End TableVocabulary.

(** ** The formats of [quickFormatValidation] *)

Section FormatVocabulary.
Import JsString.

(** The characters of [s] that satisfy [p]. *)
Fixpoint filterChars (p : ascii -> bool) (s : string) : string :=
  match s with
  | EmptyString => EmptyString
  | String c s' => if p c then String c (filterChars p s') else filterChars p s'
  end.

(** White space, hyphen and parentheses. *)
Definition isSeparator (c : ascii) : bool :=
  is_space c || Ascii.eqb c "-" || Ascii.eqb c "(" || Ascii.eqb c ")".

Definition withoutSeparators (s : string) : string :=
  filterChars (fun c => negb (isSeparator c)) s.

Definition digits (w : string) : bool := allChars is_digit w.

(** Neither white space nor [@]. *)
Definition plain (w : string) : bool :=
  allChars (fun c => negb (is_space c || Ascii.eqb c "@")) w.

(** One or two digits, a slash, one or two digits, a slash, four digits. *)
Definition slashDate (t : string) : Prop :=
  exists d m y,
    t = d ++ "/" ++ m ++ "/" ++ y
    /\ digits d = true /\ 1 <= String.length d <= 2
    /\ digits m = true /\ 1 <= String.length m <= 2
    /\ digits y = true /\ String.length y = 4.

(** An optional plus sign, a digit that is not zero, at most fifteen
    digits. *)
Definition phoneNumber (t : string) : Prop :=
  exists sign first rest,
    t = sign ++ String first rest
    /\ (sign = "" \/ sign = "+")
    /\ is_digit first = true /\ first <> "0"%char
    /\ digits rest = true /\ String.length rest <= 15.

(** Three texts that are not empty, an [@] after the first and a dot after
    the second. *)
Definition emailAddress (t : string) : Prop :=
  exists a b c,
    t = a ++ "@" ++ b ++ "." ++ c
    /\ a <> "" /\ plain a = true
    /\ b <> "" /\ plain b = true
    /\ c <> "" /\ plain c = true.

(** The first form of [dobRule]. *)
Definition slashes : Regex.regex :=
  Regex.seq [Regex.Rep 1 (Some 2) RouterChain.digit;
             Regex.Atom (Regex.AChar "/");
             Regex.Rep 1 (Some 2) RouterChain.digit;
             Regex.Atom (Regex.AChar "/");
             Regex.Rep 4 (Some 4) RouterChain.digit].
End FormatVocabulary.

(** ** The cleaning of an answer of the model *)

Section CleaningVocabulary.
Import JsString RegexOps ExtractSlotChain.

(** No character of [s] is a backtick. *)
Definition noBacktick (s : string) : bool :=
  allChars (fun c => negb (Ascii.eqb c backtick)) s.

(** [s] starts with an opening brace and ends with a closing one. *)
Definition braced (s : string) : Prop := exists w, s = "{" ++ w ++ "}".

(** [s] has an opening brace before a closing one. *)
Definition hasBraces (s : string) : Prop :=
  exists a w b, s = a ++ "{" ++ w ++ "}" ++ b.

(** The text [cleanLLMResponse] calls [cleaned]. *)
Definition withoutFences (response : string) : string :=
  trim (removeAll false backticks 0 None
          (removeAll false fence 0 None
             (removeAll false jsonFence 0 None response))).
End CleaningVocabulary.

(** ** Sessions of the page *)

Section PageVocabulary.
Import Client.

(** What the patient does, under some setting of the hybrid mode and some
    answers of the model: start the interview or send a text. *)
Inductive PageEvent : Type :=
| Started (d : Delegates) (hybridMode : bool)
| Sent (d : Delegates) (hybridMode : bool) (input : string).

Definition pageStep (s : Page.PageState * InterviewMemory) (ev : PageEvent)
  : Page.PageState * InterviewMemory :=
  match ev with
  | Started d hybridMode => Page.startInterview d hybridMode (fst s) (snd s)
  | Sent d hybridMode input => Page.sendMessage d hybridMode (fst s) input (snd s)
  end.

(** The state of the page and of the memory after the events. *)
Definition pageSession (events : list PageEvent)
  : Page.PageState * InterviewMemory :=
  fold_left pageStep events (Page.initialState, clearMemory).



(** Every key of the slot map is a name the lookup of the schema finds: a
    slot, or a member of [Object.prototype]. *)
Definition knownKeyed (slots : FilledSlots) : Prop :=
  forall k, In k (Obj.keys slots) -> known k.

(** The page asks for no slot or for a slot of the schema, has counted at
    most two refusals, and holds values under names the lookup of the
    schema finds only. *)
Definition pageInvariant (st : InterviewState) : Prop :=
  match currentSlot st with
  | Some slot => In slot (Obj.keys SLOT_SCHEMA)
  | None => True
  end
  /\ retryCount st <= 2
  /\ knownKeyed (filledSlots st).

(** A page that has counted two refusals at [dob]. *)
Definition stuckInterview : InterviewState :=
  {| isStarted := true; isComplete := false; isReview := false;
     currentSlot := Some "dob";
     filledSlots := [("full_name", VStr "Jane Doe")];
     retryCount := 2 |}.

Definition stuckState : Page.PageState :=
  {| Page.interview := stuckInterview; Page.loading := false |}.
End PageVocabulary.


(** ** The review summary *)

Section ReviewVocabulary.








End ReviewVocabulary.
(* ================================================================= *)
(** * Properties *)

(** ** Objects *)

Section ObjFacts.
Context {A : Type}.

Lemma get_set_same (k : string) (v : A) (o : Obj.t A) :
  Obj.get k (Obj.set k v o) = Some v.
Proof.
  induction o as [| [k' v'] o IH]; simpl.
  - now rewrite String.eqb_refl.
  - destruct (k' =? k) eqn:E; simpl.
    + now rewrite String.eqb_refl.
    + now rewrite E.
Qed.

Lemma get_set_other (k k' : string) (v : A) (o : Obj.t A) :
  k <> k' -> Obj.get k (Obj.set k' v o) = Obj.get k o.
Proof.
  intros Hne. induction o as [| [k0 v0] o IH]; simpl.
  - destruct (k' =? k) eqn:E; [apply String.eqb_eq in E; congruence | reflexivity].
  - destruct (k0 =? k') eqn:E; simpl.
    + apply String.eqb_eq in E. subst k0.
      destruct (k' =? k) eqn:E'; [apply String.eqb_eq in E'; congruence | reflexivity].
    + now rewrite IH.
Qed.

Lemma get_Some_In (k : string) (v : A) (o : Obj.t A) :
  Obj.get k o = Some v -> In (k, v) o.
Proof.
  induction o as [| [k' v'] o IH]; simpl; [discriminate |].
  destruct (k' =? k) eqn:E.
  - apply String.eqb_eq in E. intros [= ->]. subst. now left.
  - intros H. right. now apply IH.
Qed.

(** The own properties in creation order: a write keeps the properties in
    place and puts a new one last. *)
Lemma names_set (k : string) (v : A) (o : Obj.t A) :
  map fst (Obj.set k v o)
  = (map fst o ++ match Obj.get k o with Some _ => [] | None => [k] end)%list.
Proof.
  induction o as [| [k' v'] o IH]; simpl; [reflexivity |].
  destruct (k' =? k) eqn:E; simpl.
  - apply String.eqb_eq in E. subst. now rewrite app_nil_r.
  - now rewrite IH.
Qed.

Lemma get_None_names (k : string) (o : Obj.t A) :
  Obj.get k o = None <-> ~ In k (map fst o).
Proof.
  induction o as [| [k' v'] o IH]; simpl.
  - tauto.
  - destruct (k' =? k) eqn:E.
    + apply String.eqb_eq in E. split; [discriminate | intros H; exfalso; apply H; now left].
    + apply String.eqb_neq in E. rewrite IH. tauto.
Qed.

(** *** The order of [Object.entries] *)

Lemma insertIndexed_perm (n : N) (entry : string * A)
      (l : list (N * (string * A))) :
  Permutation (Obj.insertIndexed n entry l) ((n, entry) :: l).
Proof.
  induction l as [| [m e] l IH]; simpl; [apply Permutation_refl |].
  destruct (n <=? m)%N; [apply Permutation_refl |].
  eapply Permutation_trans; [apply perm_skip, IH | apply perm_swap].
Qed.

(** The entries are the own properties, in another order. *)
Lemma entries_perm (o : Obj.t A) : Permutation (Obj.entries o) o.
Proof.
  unfold Obj.entries, Obj.named.
  induction o as [| [k v] o IH]; simpl; [apply Permutation_refl |].
  destruct (Obj.arrayIndex k) as [n |].
  - eapply Permutation_trans;
      [apply Permutation_app_tail, Permutation_map, insertIndexed_perm |].
    simpl. now apply perm_skip.
  - eapply Permutation_trans; [apply Permutation_sym, Permutation_middle |].
    now apply perm_skip.
Qed.


Lemma keys_In (k : string) (o : Obj.t A) :
  In k (Obj.keys o) <-> In k (map fst o).
Proof.
  unfold Obj.keys.
  split; apply Permutation_in, Permutation_map;
    [apply entries_perm | apply Permutation_sym, entries_perm].
Qed.

Lemma keys_length (o : Obj.t A) : List.length (Obj.keys o) = List.length o.
Proof.
  unfold Obj.keys. rewrite length_map.
  apply Permutation_length, entries_perm.
Qed.

(** Without an array index among the keys, the entries are in the order of
    creation. *)
Lemma entries_named (o : Obj.t A) : noIndexKey o = true -> Obj.entries o = o.
Proof.
  intros H.
  assert (Hi : Obj.indexed o = [] /\ Obj.named o = o).
  { unfold Obj.named, noIndexKey in *.
    induction o as [| [k v] o IH]; simpl in *; [auto |].
    destruct (Obj.arrayIndex k); [discriminate |].
    destruct (IH H) as [-> ->]. auto. }
  unfold Obj.entries. destruct Hi as [-> ->]. reflexivity.
Qed.

Lemma get_Some_key (k : string) (v : A) (o : Obj.t A) :
  Obj.get k o = Some v -> In k (Obj.keys o).
Proof.
  intros H. apply get_Some_In in H. apply keys_In.
  change k with (fst (k, v)). now apply in_map.
Qed.

Lemma get_None_iff (k : string) (o : Obj.t A) :
  Obj.get k o = None <-> ~ In k (Obj.keys o).
Proof. rewrite keys_In. apply get_None_names. Qed.

Lemma indexed_set (k : string) (v : A) (o : Obj.t A) :
  Obj.arrayIndex k = None -> Obj.indexed (Obj.set k v o) = Obj.indexed o.
Proof.
  intros Hk. induction o as [| [k' v'] o IH]; simpl.
  - now rewrite Hk.
  - destruct (k' =? k) eqn:E; simpl.
    + apply String.eqb_eq in E. subst k'. now rewrite Hk.
    + now rewrite IH.
Qed.

Lemma named_set (k : string) (v : A) (o : Obj.t A) :
  Obj.arrayIndex k = None -> Obj.named (Obj.set k v o) = Obj.set k v (Obj.named o).
Proof.
  intros Hk. unfold Obj.named.
  induction o as [| [k' v'] o IH]; simpl.
  - now rewrite Hk.
  - destruct (k' =? k) eqn:E; simpl.
    + apply String.eqb_eq in E. subst k'. rewrite Hk. simpl.
      now rewrite String.eqb_refl.
    + rewrite IH. destruct (Obj.arrayIndex k'); [reflexivity |].
      simpl. now rewrite E.
Qed.

Lemma get_named (k : string) (o : Obj.t A) :
  Obj.arrayIndex k = None -> Obj.get k (Obj.named o) = Obj.get k o.
Proof.
  intros Hk. unfold Obj.named.
  induction o as [| [k' v'] o IH]; simpl; [reflexivity |].
  destruct (k' =? k) eqn:E.
  - apply String.eqb_eq in E. subst k'. rewrite Hk. simpl.
    now rewrite String.eqb_refl.
  - destruct (Obj.arrayIndex k'); [exact IH |]. simpl. now rewrite E.
Qed.

(** A write under a name that is no array index keeps the keys in place
    and puts a new key last. *)
Lemma keys_set (k : string) (v : A) (o : Obj.t A) :
  Obj.arrayIndex k = None ->
  Obj.keys (Obj.set k v o)
  = (Obj.keys o ++ match Obj.get k o with Some _ => [] | None => [k] end)%list.
Proof.
  intros Hk. unfold Obj.keys, Obj.entries.
  rewrite indexed_set, named_set by exact Hk.
  rewrite !map_app, names_set, get_named by exact Hk.
  now rewrite app_assoc.
Qed.

(** *** Assignment *)

Lemma assign_set (k : string) (v : A) (o : Obj.t A) :
  assignable k o = true -> Obj.assign k v o = Obj.set k v o.
Proof.
  unfold assignable, Obj.assign.
  destruct (Obj.get k o); [reflexivity |].
  destruct (k =? "__proto__"); [discriminate | reflexivity].
Qed.

Lemma assign_blocked (k : string) (v : A) (o : Obj.t A) :
  assignable k o = false -> Obj.assign k v o = o /\ Obj.get k o = None.
Proof.
  unfold assignable, Obj.assign.
  destruct (Obj.get k o); [now rewrite orb_true_r |].
  destruct (k =? "__proto__"); [auto | discriminate].
Qed.

Lemma get_assign_other (k k' : string) (v : A) (o : Obj.t A) :
  k <> k' -> Obj.get k (Obj.assign k' v o) = Obj.get k o.
Proof.
  intros Hne. unfold Obj.assign.
  destruct (Obj.get k' o); [now apply get_set_other |].
  destruct (k' =? "__proto__"); [reflexivity | now apply get_set_other].
Qed.

Lemma get_assign_same (k : string) (v : A) (o : Obj.t A) :
  Obj.get k (Obj.assign k v o)
  = if assignable k o then Some v else None.
Proof.
  destruct (assignable k o) eqn:E.
  - rewrite assign_set by exact E. apply get_set_same.
  - destruct (assign_blocked k v o E) as [-> H]. exact H.
Qed.

Lemma assignable_assign (k k' : string) (v : A) (o : Obj.t A) :
  assignable k (Obj.assign k' v o) = assignable k o.
Proof.
  unfold assignable.
  destruct (String.eqb_spec k k') as [-> | Hne].
  - rewrite get_assign_same. unfold assignable.
    destruct (Obj.get k' o); [now rewrite !orb_true_r |].
    cbn [isSome]. rewrite orb_false_r. now destruct (negb (k' =? "__proto__")).
  - now rewrite get_assign_other.
Qed.
End ObjFacts.

Lemma existsb_eqb_In (x : string) (l : list string) :
  existsb (String.eqb x) l = true <-> In x l.
Proof.
  rewrite existsb_exists. split.
  - intros [y [Hy E]]. apply String.eqb_eq in E. now subst.
  - intros H. exists x. split; [assumption | apply String.eqb_refl].
Qed.

Lemma fold_left_fixed {A B : Type} (f : A -> B -> A) (l : list B) (a : A) :
  (forall x, In x l -> f a x = a) -> fold_left f l a = a.
Proof.
  induction l as [| x l IH]; intros H; simpl; [reflexivity |].
  rewrite (H x (or_introl eq_refl)). apply IH.
  intros y Hy. apply H. now right.
Qed.

(** ** Confidences *)

(** The comparisons of binary64: strictly below excludes at or above. *)
Lemma SFltb_not_SFleb (a b : spec_float) :
  SFltb a b = true -> SFleb b a = false.
Proof.
  unfold SFltb, SFleb.
  destruct a as [sa | sa | | sa ma ea], b as [sb | sb | | sb mb eb]; simpl;
    try discriminate; try (destruct sa; discriminate);
    try (destruct sb; discriminate);
    try (destruct sa, sb; simpl; intros; try discriminate; reflexivity).
  pose proof (Pos.compare_cont_antisym ma mb Eq) as H. simpl in H.
  destruct sa, sb; simpl; try discriminate; try reflexivity;
    rewrite (Z.compare_antisym ea eb);
    destruct (ea ?= eb)%Z; simpl; try discriminate; try reflexivity;
    rewrite <- H; destruct (Pos.compare_cont Eq ma mb); simpl;
    try discriminate; reflexivity.
Qed.

Lemma below_not_confident (c : float) :
  (c <? 0.7)%float = true -> confident c = false.
Proof.
  unfold confident. rewrite ltb_spec, leb_spec. apply SFltb_not_SFleb.
Qed.

(* ================================================================= *)
(** ** The merge of several extractions *)

Section MergeFacts.
Import DialogManager.

Lemma mergeStep_accepted (r : MultiResult) (mem : InterviewMemory) (e : Extraction) :
  accepted e = true ->
  mergeStep (r, mem) e
  = (acceptInto r e,
     saveInteraction (questionOf (slotName e))
                     ("[Multi-extraction] " ++ js_String (value e))
                     (value e) (slotName e) mem).
Proof. unfold accepted, mergeStep. now intros ->. Qed.

Lemma mergeStep_rejected (r : MultiResult) (mem : InterviewMemory) (e : Extraction) :
  accepted e = false -> mergeStep (r, mem) e = (rejectInto r e, mem).
Proof. unfold accepted, mergeStep. now intros ->. Qed.

Lemma merge_fold (candidates : list Extraction) :
  forall (r : MultiResult) (mem : InterviewMemory),
    let out := fst (fold_left mergeStep candidates (r, mem)) in
    successfulExtractions out
      = (successfulExtractions r ++ filter accepted candidates)%list
    /\ failedExtractions out
      = (failedExtractions r
         ++ map rejection (filter (fun e => negb (accepted e)) candidates))%list
    /\ updatedSlots out = fold_left mergeSlots candidates (updatedSlots r).
Proof.
  induction candidates as [| e es IH]; intros r mem; cbn [fold_left filter].
  - cbn. now rewrite !app_nil_r.
  - unfold mergeSlots at 2. destruct (accepted e) eqn:E.
    + rewrite (mergeStep_accepted r mem e E).
      destruct (IH (acceptInto r e)
                   (saveInteraction (questionOf (slotName e))
                      ("[Multi-extraction] " ++ js_String (value e))
                      (value e) (slotName e) mem)) as (H1 & H2 & H3).
      cbn -[fold_left filter] in *. rewrite H1, H2, H3, <- app_assoc. auto.
    + rewrite (mergeStep_rejected r mem e E).
      destruct (IH (rejectInto r e) mem) as (H1 & H2 & H3).
      cbn -[fold_left filter] in *. rewrite H1, H2, H3, <- app_assoc. auto.
Qed.

(** The three outputs of the merge, each as a function of the input. *)
Lemma merge_result (candidates : list Extraction) (filledSlots : FilledSlots)
      (mem : InterviewMemory) :
  let out := fst (processMultipleExtractions candidates filledSlots mem) in
  successfulExtractions out = filter accepted candidates
  /\ failedExtractions out
     = map rejection (filter (fun e => negb (accepted e)) candidates)
  /\ updatedSlots out = fold_left mergeSlots candidates filledSlots.
Proof.
  unfold processMultipleExtractions.
  destruct (merge_fold candidates
              {| updatedSlots := filledSlots; successfulExtractions := [];
                 failedExtractions := [] |} mem) as (H1 & H2 & H3).
  simpl in *. auto.
Qed.

Lemma assignable_mergeSlots (k : string) (candidates : list Extraction) :
  forall fs, assignable k (fold_left mergeSlots candidates fs) = assignable k fs.
Proof.
  induction candidates as [| e es IH]; intros fs; cbn [fold_left]; [reflexivity |].
  rewrite IH. unfold mergeSlots. destruct (accepted e); [| reflexivity].
  apply assignable_assign.
Qed.

(** The slot map holds the value of the last accepted candidate, under
    every name that can be assigned. *)
Lemma mergeSlots_get (k : string) (fs : FilledSlots)
      (candidates : list Extraction) :
  Obj.get k (fold_left mergeSlots candidates fs)
  = match lastAccepted k candidates with
    | Some v => if assignable k fs then Some v else None
    | None => Obj.get k fs
    end.
Proof.
  unfold lastAccepted.
  induction candidates as [| e es IH] using rev_ind; [reflexivity |].
  rewrite !fold_left_app. cbn [fold_left]. unfold mergeSlots at 1.
  destruct (accepted e) eqn:Ea; cbn [andb].
  - destruct (slotName e =? k) eqn:Ek.
    + apply String.eqb_eq in Ek. rewrite Ek, get_assign_same.
      now rewrite assignable_mergeSlots.
    + apply String.eqb_neq in Ek. rewrite get_assign_other by congruence.
      exact IH.
  - exact IH.
Qed.

(** Without an accepted candidate the loop changes nothing. *)
Lemma merge_none_accepted (candidates : list Extraction) :
  forall (r : MultiResult) (mem : InterviewMemory),
    filter accepted candidates = [] ->
    snd (fold_left mergeStep candidates (r, mem)) = mem
    /\ updatedSlots (fst (fold_left mergeStep candidates (r, mem)))
       = updatedSlots r.
Proof.
  induction candidates as [| e es IH]; intros r mem Hf; cbn [fold_left].
  - auto.
  - cbn [filter] in Hf. destruct (accepted e) eqn:E; [discriminate |].
    rewrite (mergeStep_rejected r mem e E).
    destruct (IH (rejectInto r e) mem Hf) as (H1 & H2). auto.
Qed.

End MergeFacts.

(** ** The lookup of the schema *)

Lemma SLOT_SCHEMA_entries : Obj.entries SLOT_SCHEMA = SLOT_SCHEMA.
Proof. reflexivity. Qed.

Lemma SLOT_SCHEMA_keys :
  Obj.keys SLOT_SCHEMA
  = ["full_name"; "dob"; "has_partner"; "chief_complaint"; "months_ttc"].
Proof. reflexivity. Qed.

Lemma inherited_In (k : string) :
  Obj.inherited k = true <-> In k Obj.prototypeMembers.
Proof. apply existsb_eqb_In. Qed.

(** The lookup finds the slots of the schema and the members of
    [Object.prototype], and nothing else. *)
Lemma slotEntry_known (k : string) : slotEntry k <> None <-> known k.
Proof.
  unfold slotEntry, known.
  change schemaNames with (Obj.keys SLOT_SCHEMA).
  change memberNames with Obj.prototypeMembers.
  destruct (Obj.get k SLOT_SCHEMA) as [cfg |] eqn:E.
  - split; [intros _ | discriminate]. left. eapply get_Some_key; eauto.
  - apply get_None_iff in E.
    destruct (Obj.inherited k) eqn:Ei.
    + split; [intros _ | discriminate]. right. now apply inherited_In.
    + split; [congruence |]. intros [H | H]; [contradiction |].
      apply inherited_In in H. congruence.
Qed.

Lemma schema_key_known (k : string) : In k (Obj.keys SLOT_SCHEMA) -> known k.
Proof. intros H. left. exact H. Qed.

Lemma schema_slot_known (k : string) (cfg : SlotConfig) :
  Obj.get k SLOT_SCHEMA = Some cfg -> known k.
Proof. intros H. apply schema_key_known. eapply get_Some_key; eauto. Qed.

Lemma knownName_known (k : string) : knownName k = true <-> known k.
Proof.
  unfold knownName, known. now rewrite existsb_eqb_In, in_app_iff.
Qed.

Lemma knownName_found (k : string) (e : SlotEntry) :
  slotEntry k = Some e -> knownName k = true.
Proof.
  intros H. apply knownName_known, slotEntry_known. congruence.
Qed.

Lemma knownName_missing (k : string) : slotEntry k = None -> knownName k = false.
Proof.
  intros H. destruct (knownName k) eqn:E; [| reflexivity].
  apply knownName_known, slotEntry_known in E. contradiction.
Qed.

Lemma slotEntry_unknown (k : string) : slotEntry k = None <-> ~ known k.
Proof.
  rewrite <- slotEntry_known. destruct (slotEntry k); split; try congruence.
  intros H. exfalso. apply H. discriminate.
Qed.

Lemma slotEntry_slot (k : string) (cfg : SlotConfig) :
  Obj.get k SLOT_SCHEMA = Some cfg -> slotEntry k = Some (Slot cfg).
Proof. unfold slotEntry. now intros ->. Qed.

(** A name the lookup does not find is invalid whatever the value, and a
    candidate for it is never accepted. *)
Lemma unknown_name_invalid (name : string) (v : JsValue) :
  slotEntry name = None ->
  validateSlotValue name v
  = {| isValid := false; error := Some "Invalid slot name" |}.
Proof. unfold validateSlotValue. now intros ->. Qed.

Lemma unknown_name_rejected (name : string) (v : JsValue) (c : float) :
  slotEntry name = None ->
  DialogManager.accepted {| slotName := name; value := v; confidence := c |}
  = false.
Proof.
  intros H. unfold DialogManager.accepted. cbn [slotName value].
  now rewrite (unknown_name_invalid name v H).
Qed.

Module MergeEngine.
Import DialogManager.

(** C10, the defect.  [validateSlotValue] looks the name up with
    [SLOT_SCHEMA.slots[slotName]], which finds the members every object
    inherits from [Object.prototype]: [constructor] is no key of the schema,
    yet a value for it is valid, and a candidate for it is accepted by the
    merge, stored in the slot map and logged with a question that is
    [undefined].  So are [toString] and [__proto__] valid names. *)
Theorem member_name_is_accepted :
  ~ In "constructor" (Obj.keys SLOT_SCHEMA)
  /\ validateSlotValue "constructor" (VStr "x")
     = {| isValid := true; error := None |}
  /\ processMultipleExtractions [memberCandidate] [] clearMemory
     = ({| updatedSlots := [("constructor", VStr "x")];
           successfulExtractions := [memberCandidate];
           failedExtractions := [] |},
        saveInteraction None "[Multi-extraction] x" (VStr "x") "constructor"
                        clearMemory)
  /\ validateSlotValue "toString" (VBool true)
     = {| isValid := true; error := None |}
  /\ validateSlotValue "__proto__" (VList ["x"])
     = {| isValid := true; error := None |}
  /\ validateSlotValue "first_name" (VStr "x")
     = {| isValid := false; error := Some "Invalid slot name" |}.
Proof.
  split; [vm_compute; intuition discriminate |].
  repeat split; vm_compute; reflexivity.
Qed.

(** C3. Whatever the candidates, every successful extraction has a
    confidence of at least 0.7, and a candidate whose confidence is below
    0.7 is among the failed extractions and not among the successful ones;
    the router passes on no candidate below 0.7 either. *)
Theorem merge_respects_threshold :
  forall (candidates : list Extraction) (filledSlots : FilledSlots)
         (mem : InterviewMemory),
    let out := fst (processMultipleExtractions candidates filledSlots mem) in
    (forall a, In a (successfulExtractions out) ->
               (0.7 <=? confidence a)%float = true)
    /\ (forall e, In e candidates -> (confidence e <? 0.7)%float = true ->
                  In (rejection e) (failedExtractions out)
                  /\ ~ In e (successfulExtractions out))
    /\ (forall (d : Delegates) (currentSlot userResponse : string) e,
           In e (extractions (routeUserResponse d currentSlot userResponse)) ->
           (0.7 <=? confidence e)%float = true).
Proof.
  intros candidates filledSlots mem out.
  destruct (merge_result candidates filledSlots mem) as (Hs & Hf & _).
  fold out in Hs, Hf. split; [| split].
  - intros a Ha. rewrite Hs in Ha. apply filter_In in Ha.
    destruct Ha as [_ Hacc]. unfold accepted in Hacc.
    apply andb_true_iff in Hacc. exact (proj2 Hacc).
  - intros e He Hlow. apply below_not_confident in Hlow.
    assert (Hrej : accepted e = false).
    { unfold accepted. rewrite Hlow. apply andb_false_r. }
    split.
    + rewrite Hf. apply in_map. apply filter_In. now rewrite Hrej.
    + rewrite Hs. intros Hin. apply filter_In in Hin.
      destruct Hin as [_ Hacc]. congruence.
  - intros d currentSlot userResponse e. unfold routeUserResponse.
    destruct (slotEntry currentSlot); [| intros []].
    destruct (routerDecision d currentSlot userResponse) as [[| |] |];
      cbn [extractions]; try (intros []).
    intros Hin. apply filter_In in Hin. exact (proj2 Hin).
Qed.

(** C1, the claim fails: both candidates of the scenario name
    [first_name], which is not a slot of the schema, so that nothing is
    accepted; and of two accepted candidates for [full_name] both are kept
    and the later, less confident one is the value stored. *)
Lemma merge_keeps_no_most_confident :
  successfulExtractions
    (fst (processMultipleExtractions (scenarioCandidates "first_name") [] clearMemory))
  = []
  /\ successfulExtractions
       (fst (processMultipleExtractions reversedCandidates [] clearMemory))
     = reversedCandidates
  /\ Obj.get "full_name"
       (updatedSlots
          (fst (processMultipleExtractions reversedCandidates [] clearMemory)))
     = Some (VStr "John").
Proof. repeat split; vm_compute; reflexivity. Qed.

(** C1, amended. Every candidate that passes the validation with a
    confidence of at least 0.7 is accepted, in the order of the input and
    without de-duplication; the slot map holds for each slot the value of
    the last accepted candidate for it, whatever the confidences (and the
    former value when there is none).  This holds under every name that
    can be assigned, which leaves out [__proto__] alone, and only when the
    map does not have it as an own property: the map then keeps none.  The
    two candidates of the scenario are both rejected with "Invalid slot
    name"; put for the schema's slot [full_name], both are accepted and
    "Jon", the later one, is stored. *)
Theorem merge_last_accepted_wins :
  forall (candidates : list Extraction) (filledSlots : FilledSlots)
         (mem : InterviewMemory),
    let out := fst (processMultipleExtractions candidates filledSlots mem) in
    successfulExtractions out = filter accepted candidates
    /\ (forall k, Obj.get k (updatedSlots out)
                  = match lastAccepted k candidates with
                    | Some v => if assignable k filledSlots then Some v else None
                    | None => Obj.get k filledSlots
                    end)
    /\ map failure
         (failedExtractions
            (fst (processMultipleExtractions (scenarioCandidates "first_name")
                                             filledSlots mem)))
       = [Some "Invalid slot name"; Some "Invalid slot name"]
    /\ successfulExtractions
         (fst (processMultipleExtractions (scenarioCandidates "full_name")
                                          filledSlots mem))
       = scenarioCandidates "full_name"
    /\ Obj.get "full_name"
         (updatedSlots
            (fst (processMultipleExtractions (scenarioCandidates "full_name")
                                             filledSlots mem)))
       = Some (VStr "Jon").
Proof.
  intros candidates filledSlots mem out.
  destruct (merge_result candidates filledSlots mem) as (Hs & _ & Hu).
  fold out in Hs, Hu. split; [exact Hs | split].
  - intros k. rewrite Hu. apply mergeSlots_get.
  - destruct (merge_result (scenarioCandidates "first_name") filledSlots mem)
      as (_ & Hf1 & _).
    destruct (merge_result (scenarioCandidates "full_name") filledSlots mem)
      as (Hs2 & _ & Hu2).
    rewrite Hf1, Hs2, Hu2, mergeSlots_get.
    repeat split; reflexivity.
Qed.
End MergeEngine.

(* ================================================================= *)
(** ** The traversal of the slot graph *)

Module SlotGraphFacts.

Section Graph.
Variable matches : string -> string -> bool.
Variable slots : SlotGraph.
Variable filledSlots : FilledSlots.

Lemma first_match_target (value : string) (bs : list (string * string)) (t : string) :
  first_match matches value bs = Some t -> In t (map snd bs).
Proof.
  induction bs as [| [p t'] bs IH]; simpl; [discriminate |].
  destruct (matches p value).
  - intros [= ->]. now left.
  - intros H. right. now apply IH.
Qed.

Lemma next_slot_target (cfg : SlotConfig) (v : JsValue) (t : string) :
  next_slot matches cfg v = Some t -> In t (targets cfg).
Proof.
  unfold next_slot, targets. intros H. apply in_or_app.
  destruct (branch_value v =? "").
  - left. rewrite H. now left.
  - destruct (first_match matches (branch_value v) (Obj.entries (branches cfg)))
      as [t' |] eqn:E.
    + injection H as ->. right. apply first_match_target in E.
      revert E. apply Permutation_in, Permutation_map, entries_perm.
    + left. rewrite H. now left.
Qed.

Lemma or_null_Some (x : option string) (s : string) :
  or_null x = Some s -> x = Some s /\ s <> "".
Proof.
  destruct x as [[| c s'] |]; simpl; try discriminate;
    intros [= <-]; split; [reflexivity | discriminate].
Qed.

(** The loop ends within the bound: a slot is visited once, and a visited
    slot that does not end the loop is a key of the graph. *)
Lemma walk_within_bound (fuel : nat) :
  forall (current : option string) (visited : list string),
    NoDup visited ->
    incl visited (Obj.keys slots) ->
    List.length slots < fuel + List.length visited ->
    walk matches slots filledSlots fuel current visited <> OutOfFuel.
Proof.
  induction fuel as [| fuel IH]; intros current visited Hnd Hincl Hlen.
  - exfalso. pose proof (NoDup_incl_length Hnd Hincl) as Hle.
    rewrite keys_length in Hle. simpl in Hlen. lia.
  - simpl. destruct (or_null current) as [cur |]; [| discriminate].
    destruct (existsb (String.eqb cur) visited) eqn:Hvis; [discriminate |].
    destruct (Obj.get cur filledSlots); [| discriminate].
    destruct (Obj.get cur slots) as [cfg |] eqn:Hcfg; [| discriminate].
    apply IH.
    + constructor; [| assumption].
      intros Hin. apply existsb_eqb_In in Hin. congruence.
    + intros x [<- | Hx]; [eapply get_Some_key; eauto | now apply Hincl].
    + simpl. lia.
Qed.

(** More fuel does not change a result. *)
Lemma walk_more_fuel (fuel : nat) :
  forall (extra : nat) (current : option string) (visited : list string),
    walk matches slots filledSlots fuel current visited <> OutOfFuel ->
    walk matches slots filledSlots (fuel + extra) current visited
    = walk matches slots filledSlots fuel current visited.
Proof.
  induction fuel as [| fuel IH]; intros extra current visited H.
  - simpl in H. destruct (or_null current) eqn:E; [congruence |].
    destruct extra; simpl; now rewrite E.
  - simpl in *. destruct (or_null current) as [cur |]; [| reflexivity].
    destruct (existsb (String.eqb cur) visited); [reflexivity |].
    destruct (Obj.get cur filledSlots); [| reflexivity].
    destruct (Obj.get cur slots); [| reflexivity].
    now apply IH.
Qed.

(** In a well-formed graph the loop only meets slots of the graph. *)
Lemma walk_well_formed (Hwf : well_formed slots) (fuel : nat) :
  forall (current : option string) (visited : list string),
    (forall cur, or_null current = Some cur -> In cur (Obj.keys slots)) ->
    match walk matches slots filledSlots fuel current visited with
    | Unfilled s | LoopDetected s => In s (Obj.keys slots)
    | PathFilled | OutOfFuel => True
    | NoConfig _ => False
    end.
Proof.
  induction fuel as [| fuel IH]; intros current visited Hcur; simpl.
  - now destruct (or_null current).
  - destruct (or_null current) as [cur |] eqn:Ecur; [| exact I].
    specialize (Hcur cur eq_refl).
    destruct (existsb (String.eqb cur) visited); [exact Hcur |].
    destruct (Obj.get cur filledSlots) as [v |]; [| exact Hcur].
    destruct (Obj.get cur slots) as [cfg |] eqn:Hcfg.
    + apply IH. intros nxt Hnxt. apply or_null_Some in Hnxt.
      destruct Hnxt as [Hnxt _]. apply (Hwf cur nxt).
      exists cfg. split; [assumption |]. eapply next_slot_target; eauto.
    + apply get_None_iff in Hcfg. contradiction.
Qed.

(** In an acyclic graph no slot is met twice: every visited slot leads to
    the current one. *)
Lemma walk_acyclic (Hac : acyclic slots) (fuel : nat) :
  forall (current : option string) (visited : list string),
    (forall cur x, or_null current = Some cur -> In x visited ->
                   clos_trans string (edge slots) x cur) ->
    forall s, walk matches slots filledSlots fuel current visited
              <> LoopDetected s.
Proof.
  induction fuel as [| fuel IH]; intros current visited Hpath s; simpl.
  - destruct (or_null current); discriminate.
  - destruct (or_null current) as [cur |] eqn:Ecur; [| discriminate].
    destruct (existsb (String.eqb cur) visited) eqn:Hvis.
    + exfalso. apply existsb_eqb_In in Hvis.
      exact (Hac cur (Hpath cur cur eq_refl Hvis)).
    + destruct (Obj.get cur filledSlots) as [v |]; [| discriminate].
      destruct (Obj.get cur slots) as [cfg |] eqn:Hcfg; [| discriminate].
      apply IH. intros nxt x Hnxt Hx.
      apply or_null_Some in Hnxt. destruct Hnxt as [Hnxt _].
      assert (Hedge : edge slots cur nxt).
      { exists cfg. split; [assumption |]. eapply next_slot_target; eauto. }
      destruct Hx as [<- | Hx].
      * now apply t_step.
      * eapply t_trans; [apply (Hpath cur x eq_refl Hx) | now apply t_step].
Qed.

Lemma root_is_key (cur : string) :
  or_null (ROOT_SLOT slots) = Some cur -> In cur (Obj.keys slots).
Proof.
  intros H. apply or_null_Some in H. destruct H as [H _].
  unfold ROOT_SLOT in H. destruct (Obj.keys slots); [discriminate |].
  injection H as ->. now left.
Qed.
End Graph.

(** A graph whose edges all go down a rank has no cycle. *)
Lemma ranked_acyclic (slots : SlotGraph) (rank : string -> nat) :
  (forall a b, edge slots a b -> rank b < rank a) -> acyclic slots.
Proof.
  intros Hrank a Hloop.
  assert (H : forall x y, clos_trans string (edge slots) x y -> rank y < rank x).
  { induction 1 as [x y Hxy | x y z _ IH1 _ IH2]; [now apply Hrank | lia]. }
  specialize (H a a Hloop). lia.
Qed.

(** *** The schema of the program *)

Ltac schema_cases H :=
  cbn [Obj.get SLOT_SCHEMA] in H;
  repeat match type of H with
         | context [if ?c then _ else _] =>
             let E := fresh "E" in
             destruct c eqn:E; [apply String.eqb_eq in E; subst |]
         end;
  try discriminate.

Lemma SLOT_SCHEMA_edges (a b : string) :
  edge SLOT_SCHEMA a b ->
  (a = "full_name" /\ b = "dob")
  \/ (a = "dob" /\ b = "has_partner")
  \/ (a = "has_partner" /\ b = "chief_complaint")
  \/ (a = "chief_complaint" /\ b = "months_ttc").
Proof.
  intros (cfg & Hget & Hin). schema_cases Hget;
    injection Hget as <-; cbn in Hin; intuition (subst; auto).
Qed.

Lemma SLOT_SCHEMA_well_formed : well_formed SLOT_SCHEMA.
Proof.
  intros a b H. apply SLOT_SCHEMA_edges in H.
  rewrite SLOT_SCHEMA_keys. cbn. intuition (subst; auto).
Qed.

Lemma SLOT_SCHEMA_acyclic : acyclic SLOT_SCHEMA.
Proof.
  apply (ranked_acyclic SLOT_SCHEMA schemaRank).
  intros a b H. apply SLOT_SCHEMA_edges in H.
  destruct H as [[-> ->] | [[-> ->] | [[-> ->] | [-> ->]]]]; cbn; lia.
Qed.

(** On the schema of the program the traversal ends at an unfilled slot of
    the schema or at the end of the path. *)
Lemma getNextUnfilledSlot_result (filledSlots : FilledSlots) :
  match getNextUnfilledSlot filledSlots with
  | Unfilled s => In s (Obj.keys SLOT_SCHEMA)
  | PathFilled => True
  | _ => False
  end.
Proof.
  unfold getNextUnfilledSlot.
  pose proof (walk_well_formed (isMatch (fun _ _ => false)) SLOT_SCHEMA filledSlots
                SLOT_SCHEMA_well_formed (S (List.length SLOT_SCHEMA))
                (ROOT_SLOT SLOT_SCHEMA) [] (root_is_key SLOT_SCHEMA)) as Hwf.
  pose proof (walk_acyclic (isMatch (fun _ _ => false)) SLOT_SCHEMA filledSlots SLOT_SCHEMA_acyclic
                (S (List.length SLOT_SCHEMA)) (ROOT_SLOT SLOT_SCHEMA) []
                ltac:(intros ? ? _ [])) as Hac.
  pose proof (walk_within_bound (isMatch (fun _ _ => false)) SLOT_SCHEMA filledSlots
                (S (List.length SLOT_SCHEMA)) (ROOT_SLOT SLOT_SCHEMA) []
                (NoDup_nil _) ltac:(intros ? []) ltac:(simpl; lia)) as Hfuel.
  fold (nextUnfilledSlot (isMatch (fun _ _ => false)) SLOT_SCHEMA filledSlots) in Hwf, Hac, Hfuel.
  destruct (nextUnfilledSlot (isMatch (fun _ _ => false)) SLOT_SCHEMA filledSlots) as [s | | s | s |];
    auto.
  - exact (Hac s eq_refl).
Qed.

(** Two filled slots that lead to each other: the loop is detected at the
    second visit of the first. *)
Example cyclicGraph_loop_detected :
  nextUnfilledSlot (isMatch (fun _ _ => false)) cyclicGraph [("a", VStr "x"); ("b", VStr "y")]
  = LoopDetected "a".
Proof. reflexivity. Qed.

(** C2. For every slot graph, cyclic or not, every reading of the branch
    keys and every slot map, the traversal ends (within the bound of the
    model, and with the same result under any larger bound); a slot met a
    second time is detected through the visited set and the call returns
    [null]; in a well-formed graph the call returns [null] or a slot of the
    graph, and in a well-formed graph without cycles it ends at an unfilled
    slot of the graph or at the end of the path. *)
Theorem nextUnfilledSlot_terminates :
  forall (matches : string -> string -> bool) (slots : SlotGraph)
         (filledSlots : FilledSlots),
    nextUnfilledSlot matches slots filledSlots <> OutOfFuel
    /\ (forall extra,
           walk matches slots filledSlots (S (List.length slots) + extra)
                (ROOT_SLOT slots) []
           = nextUnfilledSlot matches slots filledSlots)
    /\ (forall fuel cur visited,
           cur <> "" -> In cur visited ->
           walk matches slots filledSlots (S fuel) (Some cur) visited
           = LoopDetected cur
           /\ returned (LoopDetected cur) = Some None)
    /\ (well_formed slots ->
        returned (nextUnfilledSlot matches slots filledSlots) = Some None
        \/ exists s, nextUnfilledSlot matches slots filledSlots = Unfilled s
                     /\ In s (Obj.keys slots))
    /\ (well_formed slots -> acyclic slots ->
        nextUnfilledSlot matches slots filledSlots = PathFilled
        \/ exists s, nextUnfilledSlot matches slots filledSlots = Unfilled s
                     /\ In s (Obj.keys slots)).
Proof.
  intros matches slots filledSlots.
  assert (Hfuel : nextUnfilledSlot matches slots filledSlots <> OutOfFuel).
  { apply walk_within_bound; [constructor | intros x [] | simpl; lia]. }
  assert (Hwf : well_formed slots ->
                match nextUnfilledSlot matches slots filledSlots with
                | Unfilled s | LoopDetected s => In s (Obj.keys slots)
                | PathFilled | OutOfFuel => True
                | NoConfig _ => False
                end).
  { intros H. apply walk_well_formed; [exact H | apply root_is_key]. }
  split; [exact Hfuel |].
  split; [intros extra; now apply walk_more_fuel |].
  split; [| split].
  - intros fuel cur visited Hne Hin. split; [| reflexivity].
    destruct cur as [| c cur']; [congruence |]. cbn [walk or_null].
    apply existsb_eqb_In in Hin. now rewrite Hin.
  - intros H. specialize (Hwf H).
    destruct (nextUnfilledSlot matches slots filledSlots) as [s | | s | s |];
      cbn; auto; [right; eauto | contradiction | congruence].
  - intros H Hac. specialize (Hwf H).
    pose proof (walk_acyclic matches slots filledSlots Hac
                  (S (List.length slots)) (ROOT_SLOT slots) []) as Hno.
    fold (nextUnfilledSlot matches slots filledSlots) in Hno.
    destruct (nextUnfilledSlot matches slots filledSlots) as [s | | s | s |];
      auto; [right; eauto | | contradiction | congruence].
    exfalso. apply (Hno ltac:(intros ? ? _ []) s). reflexivity.
Qed.

(** The theorem at the schema of the program, which is well formed and has
    no cycle. *)
Lemma nextUnfilledSlot_terminates_witness :
  getNextUnfilledSlot [("full_name", VStr "Jane Doe")] = PathFilled
  \/ exists s, getNextUnfilledSlot [("full_name", VStr "Jane Doe")] = Unfilled s
               /\ In s (Obj.keys SLOT_SCHEMA).
Proof.
  exact (proj2 (proj2 (proj2 (proj2
           (nextUnfilledSlot_terminates (isMatch (fun _ _ => false)) SLOT_SCHEMA
              [("full_name", VStr "Jane Doe")]))))
           SLOT_SCHEMA_well_formed SLOT_SCHEMA_acyclic).
Defined.

End SlotGraphFacts.

(* ================================================================= *)
(** ** The matcher and what a regular expression matches *)

Module RegexFacts.
Import JsString Regex.

Section Matcher.
Variable icase : bool.
Context {R : Type}.

(** What the repetition returns, a continuation has returned for a text
    the repetition matches. *)
Lemma rep_sound (a : atom) (s : string) :
  forall (lo : nat) (hi : option nat) (prev : option ascii)
         (cap : option string) (k : cont (R := R)) (x : R),
    rep icase a lo hi prev s cap k = Some x ->
    exists w s' prev',
      s = w ++ s' /\ allChars (atom_matches icase a) w = true
      /\ lo <= String.length w /\ within hi (String.length w)
      /\ k prev' s' cap = Some x.
Proof.
  induction s as [| c s IH]; intros lo hi prev cap k x H.
  - assert (Hs : lo = 0 /\ k prev "" cap = Some x).
    { destruct lo; destruct hi as [[| h] |]; cbn in H;
        try discriminate; auto. }
    destruct Hs as [-> Hk]. exists "", "", prev.
    repeat split; auto. destruct hi; cbn; lia.
  - assert (Hstop : match lo with 0 => k prev (String c s) cap | S _ => None end
                    = Some x ->
                    exists w s' prev',
                      String c s = w ++ s'
                      /\ allChars (atom_matches icase a) w = true
                      /\ lo <= String.length w /\ within hi (String.length w)
                      /\ k prev' s' cap = Some x).
    { destruct lo; [| discriminate]. intros Hk.
      exists "", (String c s), prev. repeat split; auto.
      destruct hi; cbn; lia. }
    cbn [rep] in H.
    destruct hi as [[| h] |]; [exact (Hstop H) | |].
    + destruct (atom_matches icase a c) eqn:Ea; [| exact (Hstop H)].
      destruct (rep icase a (Nat.pred lo) (option_map Nat.pred (Some (S h)))
                    (Some c) s cap k) as [y |] eqn:Er; [| exact (Hstop H)].
      injection H as ->.
      destruct (IH _ _ _ _ _ _ Er) as (w & s' & prev' & -> & Hw & Hlo & Hhi & Hk).
      exists (String c w), s', prev'. cbn in Hhi |- *. rewrite Ea, Hw.
      repeat split; auto; lia.
    + destruct (atom_matches icase a c) eqn:Ea; [| exact (Hstop H)].
      destruct (rep icase a (Nat.pred lo) (option_map Nat.pred None)
                    (Some c) s cap k) as [y |] eqn:Er; [| exact (Hstop H)].
      injection H as ->.
      destruct (IH _ _ _ _ _ _ Er) as (w & s' & prev' & -> & Hw & Hlo & Hhi & Hk).
      exists (String c w), s', prev'. cbn. rewrite Ea, Hw.
      repeat split; auto; lia.
Qed.

(** The repetition finds a match when the continuation accepts what follows
    some text it can match. *)
Lemma rep_complete (a : atom) (w : string) :
  forall (lo : nat) (hi : option nat) (prev : option ascii) (s' : string)
         (cap : option string) (k : cont (R := R)),
    allChars (atom_matches icase a) w = true ->
    lo <= String.length w -> within hi (String.length w) ->
    (forall p, k p s' cap <> None) ->
    rep icase a lo hi prev (w ++ s') cap k <> None.
Proof.
  induction w as [| c w IH]; intros lo hi prev s' cap k Hw Hlo Hhi Hk.
  - cbn in Hlo. assert (lo = 0) by lia. subst lo. cbn [append].
    destruct s' as [| c s']; cbn [rep].
    + destruct hi as [[| h] |]; apply Hk.
    + destruct hi as [[| h] |]; [apply Hk | |];
        (destruct (atom_matches icase a c); [| apply Hk];
         destruct (rep icase a _ _ (Some c) s' cap k); [discriminate | apply Hk]).
  - cbn in Hw. apply andb_true_iff in Hw. destruct Hw as [Hc Hw].
    cbn [String.length] in Hlo, Hhi. cbn [append rep].
    destruct hi as [[| h] |]; cbn in Hhi; [lia | |]; rewrite Hc.
    + assert (Hr : rep icase a (Nat.pred lo) (option_map Nat.pred (Some (S h)))
                       (Some c) (w ++ s') cap k <> None)
        by (apply IH; auto; cbn; lia).
      destruct (rep icase a (Nat.pred lo) (option_map Nat.pred (Some (S h)))
                    (Some c) (w ++ s') cap k); [discriminate | contradiction].
    + assert (Hr : rep icase a (Nat.pred lo) (option_map Nat.pred None)
                       (Some c) (w ++ s') cap k <> None)
        by (apply IH; auto; cbn; lia).
      destruct (rep icase a (Nat.pred lo) (option_map Nat.pred None)
                    (Some c) (w ++ s') cap k); [discriminate | contradiction].
Qed.
End Matcher.

Section Run.
Variable icase : bool.

(** What the matcher returns, the continuation has returned for a text the
    expression matches. *)
Lemma run_sound {R : Type} (r : regex) :
  forall (prev : option ascii) (s : string) (cap : option string)
         (k : cont (R := R)) (x : R),
    run icase r prev s cap k = Some x ->
    exists s' prev' cap', lang icase r s s' /\ k prev' s' cap' = Some x.
Proof.
  induction r as [| a | r1 IH1 r2 IH2 | r1 IH1 r2 IH2 | lo hi a | r1 IH1 |];
    intros prev s cap k x H; cbn [run] in H; cbn [lang].
  - eauto.
  - destruct s as [| c s]; [discriminate |].
    destruct (atom_matches icase a c) eqn:Ea; [| discriminate]. eauto 7.
  - destruct (IH1 _ _ _ _ _ H) as (m & p1 & c1 & H1 & H2).
    destruct (IH2 _ _ _ _ _ H2) as (s' & p2 & c2 & H3 & H4). eauto 7.
  - destruct (run icase r1 prev s cap k) as [y |] eqn:E1.
    + injection H as ->. destruct (IH1 _ _ _ _ _ E1) as (s' & p & c & H1 & H2).
      eauto 7.
    + destruct (IH2 _ _ _ _ _ H) as (s' & p & c & H1 & H2). eauto 7.
  - destruct (rep_sound icase a s lo hi prev cap k x H)
      as (w & s' & prev' & Hs & Hw & Hlo & Hhi & Hk).
    exists s', prev', cap. split; [| exact Hk]. exists w. auto.
  - destruct (IH1 _ _ _ _ _ H) as (s' & p & c & H1 & H2). eauto.
  - destruct (at_boundary prev s); [| discriminate]. eauto.
Qed.

(** An expression without word boundary finds a match when the continuation
    accepts what follows some text the expression matches. *)
Lemma run_complete {R : Type} (r : regex) :
  boundaryFree r = true ->
  forall (prev : option ascii) (s s' : string) (cap : option string)
         (k : cont (R := R)),
    lang icase r s s' ->
    (forall p c, k p s' c <> None) ->
    run icase r prev s cap k <> None.
Proof.
  induction r as [| a | r1 IH1 r2 IH2 | r1 IH1 r2 IH2 | lo hi a | r1 IH1 |];
    intros Hb prev s s' cap k Hl Hk; cbn [run]; cbn [lang boundaryFree] in *.
  - subst s'. apply Hk.
  - destruct Hl as (c & -> & Ha). rewrite Ha. apply Hk.
  - apply andb_true_iff in Hb. destruct Hb as [Hb1 Hb2].
    destruct Hl as (m & H1 & H2).
    apply (IH1 Hb1 prev s m cap _ H1). intros p c.
    apply (IH2 Hb2 p m s' c k H2 Hk).
  - apply andb_true_iff in Hb. destruct Hb as [Hb1 Hb2].
    destruct (run icase r1 prev s cap k) eqn:E1; [discriminate |].
    destruct Hl as [H1 | H2].
    + exfalso. exact (IH1 Hb1 prev s s' cap k H1 Hk E1).
    + exact (IH2 Hb2 prev s s' cap k H2 Hk).
  - destruct Hl as (w & -> & Hw & Hlo & Hhi).
    apply rep_complete; auto.
  - apply (IH1 Hb prev s s' cap _ Hl). intros p c. apply Hk.
  - discriminate.
Qed.
End Run.
End RegexFacts.

(* ================================================================= *)
(** ** The search, and texts that include a word *)

Module SearchFacts.
Import JsString Regex RegexFacts.

Section Search.
Variable icase : bool.

Lemma suffixOf_refl (s : string) : suffixOf s s.
Proof. now exists "". Qed.

Lemma suffixOf_tail (t s : string) (c : ascii) :
  suffixOf t s -> suffixOf t (String c s).
Proof. intros [p ->]. now exists (String c p). Qed.

(** A match found by the search is a match at some end of the input. *)
Lemma search_sound (r : regex) (s : string) :
  forall (prev : option ascii) (cap : option string),
    search icase r prev s = Some cap ->
    exists t s', suffixOf t s /\ lang icase r t s'.
Proof.
  induction s as [| c s IH]; intros prev cap H; cbn [search] in H.
  - destruct (run icase r prev "" None (fun _ _ cap0 => Some cap0)) eqn:E;
      [| discriminate].
    destruct (run_sound icase r _ _ _ _ _ E) as (s' & _ & _ & Hl & _).
    exists "", s'. split; [apply suffixOf_refl | exact Hl].
  - destruct (run icase r prev (String c s) None (fun _ _ cap0 => Some cap0)) eqn:E.
    + destruct (run_sound icase r _ _ _ _ _ E) as (s' & _ & _ & Hl & _).
      exists (String c s), s'. split; [apply suffixOf_refl | exact Hl].
    + destruct (IH _ _ H) as (t & s' & Ht & Hl).
      exists t, s'. split; [now apply suffixOf_tail | exact Hl].
Qed.

(** The search finds a match when there is one at some end of the input. *)
Lemma search_complete (r : regex) (t s' : string) :
  boundaryFree r = true -> lang icase r t s' ->
  forall (s : string) (prev : option ascii),
    suffixOf t s -> search icase r prev s <> None.
Proof.
  intros Hb Hl s prev [p ->]. revert prev.
  induction p as [| c p IH]; intros prev.
  - cbn [append].
    assert (Hr : run icase r prev t None (fun _ _ cap0 => Some cap0) <> None)
      by (apply (run_complete icase r Hb prev t s'); [exact Hl | discriminate]).
    destruct t; cbn [search];
      destruct (run icase r prev _ None (fun _ _ cap0 => Some cap0));
      try discriminate; contradiction.
  - cbn [append search].
    destruct (run icase r prev _ None (fun _ _ cap0 => Some cap0));
      [discriminate | apply IH].
Qed.
End Search.

(** *** Texts in lower case *)



Lemma allChars_app (p : ascii -> bool) (a b : string) :
  allChars p (a ++ b) = allChars p a && allChars p b.
Proof.
  induction a as [| c a IH]; [reflexivity |].
  cbn [append allChars]. now rewrite IH, andb_assoc.
Qed.


(** *** Texts that include a word *)



Lemma includes_suffix (w t s : string) :
  suffixOf t s -> prefix w t = true -> includes w s = true.
Proof.
  intros [p ->] H. induction p as [| c p IH]; cbn [append].
  - destruct t; cbn [includes]; now rewrite H.
  - cbn [includes]. rewrite IH. apply orb_true_r.
Qed.


(** *** The expression [.*w.*] *)





End SearchFacts.

Module BranchTraversal.
Import JsString Regex.

Lemma first_match_find (matches : string -> string -> bool) (value : string)
      (bs : list (string * string)) :
  first_match matches value bs
  = option_map snd (find (fun b => matches (fst b) value) bs).
Proof.
  induction bs as [| [p t] bs IH]; simpl; [reflexivity |].
  now destruct (matches p value).
Qed.

(** The loop: the guard of the empty text, then the entries in their
    order. *)
Lemma next_slot_entries (matches : string -> string -> bool) (cfg : SlotConfig)
      (v : JsValue) :
  next_slot matches cfg v = firstMatchingEntry matches cfg v.
Proof.
  unfold next_slot, firstMatchingEntry.
  destruct (branch_value v =? ""); [reflexivity |].
  rewrite first_match_find. now destruct (find _ _).
Qed.

(** Away from the empty text and from array indices the loop is the rule
    of the spec. *)
Lemma next_slot_rule (matches : string -> string -> bool) (cfg : SlotConfig)
      (v : JsValue) :
  branch_value v <> "" -> noIndexKey (branches cfg) = true ->
  next_slot matches cfg v = firstMatchingBranch matches cfg v.
Proof.
  intros Hne Hk. rewrite next_slot_entries.
  unfold firstMatchingEntry, firstMatchingBranch.
  apply String.eqb_neq in Hne. now rewrite Hne, entries_named.
Qed.

(** *** What the compiled fragment matches *)

Lemma then_boundaryFree (r r' : regex) (c : compiled) :
  boundaryFree r = true ->
  (forall r0, c = Compiled r0 -> boundaryFree r0 = true) ->
  then_ r c = Compiled r' -> boundaryFree r' = true.
Proof.
  intros Hr Hc. destruct c as [r0 | |]; cbn; try discriminate.
  intros [= <-]. cbn. now rewrite Hr, (Hc r0 eq_refl).
Qed.

Lemma quantified_boundaryFree (q : ascii) (a : atom) :
  boundaryFree (quantified q a) = true.
Proof.
  unfold quantified.
  destruct (Ascii.eqb q "*"); [reflexivity |].
  destruct (Ascii.eqb q "+"); reflexivity.
Qed.

Lemma parse_term_boundaryFree (n : nat) :
  forall (s : string) (r : regex),
    String.length s <= n -> parse_term s = Compiled r -> boundaryFree r = true.
Proof.
  induction n as [| n IH]; intros s r Hlen.
  - destruct s; [| cbn in Hlen; lia]. cbn. now intros [= <-].
  - destruct s as [| c s']; [cbn; now intros [= <-] |].
    cbn [parse_term]. destruct (is_quantifier c); [discriminate |].
    cbn [String.length] in Hlen.
    destruct s' as [| q s'']; [now intros [= <-] |].
    destruct (is_quantifier q).
    + destruct s'' as [| l s3].
      * intros [= <-]. apply quantified_boundaryFree.
      * cbn [String.length] in Hlen.
        destruct (Ascii.eqb l "?");
          apply then_boundaryFree;
          try apply quantified_boundaryFree;
          intros r0; apply IH; cbn [String.length] in *; lia.
    + apply then_boundaryFree; [reflexivity |].
      intros r0. apply IH. cbn [String.length] in *. lia.
Qed.

Lemma parse_alternatives_boundaryFree (ts : list string) :
  forall r, parse_alternatives ts = Compiled r -> boundaryFree r = true.
Proof.
  induction ts as [| t ts IH]; intros r; [now intros [= <-] |].
  cbn [parse_alternatives]. destruct ts as [| t' ts'].
  - apply (parse_term_boundaryFree (String.length t)). lia.
  - destruct (parse_term t) as [r1 | |] eqn:E1;
      destruct (parse_alternatives (t' :: ts')) as [r2 | |] eqn:E2;
      try discriminate.
    intros [= <-]. cbn.
    rewrite (parse_term_boundaryFree (String.length t) t r1 (le_n _) E1).
    now rewrite (IH r2 eq_refl).
Qed.

(** An expression compiled from a branch key has no word boundary. *)
Lemma RegExp_boundaryFree (pattern : string) (r : regex) :
  RegExp pattern = Compiled r -> boundaryFree r = true.
Proof.
  unfold RegExp. destruct (has_other_meta pattern); [discriminate |].
  apply parse_alternatives_boundaryFree.
Qed.

(** The test of an expression without word boundary: a part of the text
    is in its language. *)
Lemma test_lang (icase : bool) (r : regex) (s : string) :
  boundaryFree r = true ->
  (test icase r s = true <-> exists t rest, suffixOf t s /\ lang icase r t rest).
Proof.
  intros Hb. unfold test, exec. split.
  - destruct (search icase r None s) as [cap |] eqn:E; [| discriminate].
    intros _. eapply SearchFacts.search_sound; eauto.
  - intros (t & rest & Ht & Hl).
    pose proof (SearchFacts.search_complete icase r t rest Hb Hl s None Ht) as H.
    now destruct (search icase r None s).
Qed.

Lemma isMatch_compiled (host : string -> string -> bool) (pattern : string)
      (r : regex) (text : string) :
  RegExp pattern = Compiled r ->
  (isMatch host pattern text = true <-> matchesSomewhere r text).
Proof.
  intros H. unfold isMatch, matchesSomewhere. rewrite H.
  apply test_lang. eapply RegExp_boundaryFree; eauto.
Qed.

Lemma isMatch_alternatives (host : string -> string -> bool)
      (pattern text : string) :
  RegExp pattern = SyntaxError ->
  (isMatch host pattern text = true <-> In text (alternatives pattern)).
Proof.
  intros H. unfold isMatch, alternatives. rewrite H.
  apply existsb_eqb_In.
Qed.

(** The branch keys of the schema and of the scenario are in the fragment
    that is compiled. *)
Example branch_keys_compile :
  forallb (fun entry => forallb (fun b => compiles (fst b)) (branches (snd entry)))
          (SLOT_SCHEMA ++ scenarioGraph)%list = true.
Proof. reflexivity. Qed.

(** The traversal of the schema does not depend on the host. *)
Lemma getNextUnfilledSlot_any_host (host : string -> string -> bool)
      (filledSlots : FilledSlots) :
  nextUnfilledSlot (isMatch host) SLOT_SCHEMA filledSlots
  = getNextUnfilledSlot filledSlots.
Proof.
  unfold getNextUnfilledSlot, nextUnfilledSlot.
  generalize (ROOT_SLOT SLOT_SCHEMA), (@nil string).
  induction (S (List.length SLOT_SCHEMA)) as [| fuel IH]; intros current visited;
    cbn [walk]; [reflexivity |].
  destruct (or_null current) as [cur |]; [| reflexivity].
  destruct (existsb (String.eqb cur) visited); [reflexivity |].
  destruct (Obj.get cur filledSlots) as [v |]; [| reflexivity].
  destruct (Obj.get cur SLOT_SCHEMA) as [cfg |] eqn:E; [| reflexivity].
  replace (next_slot (isMatch host) cfg v)
    with (next_slot (isMatch (fun _ _ => false)) cfg v); [apply IH |].
  cbn [Obj.get SLOT_SCHEMA] in E.
  repeat match type of E with
         | context [if ?c then _ else _] => destruct c
         end;
    try discriminate; injection E as <-;
    unfold next_slot; destruct (branch_value v =? ""); reflexivity.
Qed.

(** C4, the claim fails.  A branch is not tried for a value whose text is
    empty: the empty list is a filled value, the key [.*] matches its text,
    and the traversal goes to the default.  And the branches are not tried
    in the order of declaration when a key is an array index: for the
    value 3 the branch declared second is taken, although the one declared
    first matches. *)
Lemma first_declared_match_not_followed :
  branch_value (VList []) = ""
  /\ isMatch deafHost ".*" "" = true
  /\ firstMatchingBranch (isMatch deafHost) catchAllSlot (VList [])
     = Some "allergy_details"
  /\ next_slot (isMatch deafHost) catchAllSlot (VList []) = Some "medications"
  /\ isMatch deafHost ".*" "3" = true
  /\ firstMatchingBranch (isMatch deafHost) gradedSlot (VStr "3")
     = Some "pain_details"
  /\ next_slot (isMatch deafHost) gradedSlot (VStr "3") = Some "emergency".
Proof. repeat split; vm_compute; reflexivity. Qed.

(** C4, amended.  The traversal goes from a filled slot to the default when
    the lower-case text of the value is empty, and otherwise to the target
    of the first branch whose key matches that text, the default when none
    does.  The branches are tried in the order of [Object.entries]: keys
    that are array indices first, in ascending order, then the others in
    the order of declaration, which is the order of declaration when no key
    is an array index.  A key that compiles is a regular expression read
    without regard to case, which matches when a part of the text is in its
    language; a key that is a syntax error matches when the text is one of
    its alternatives, trimmed and in lower case; a key outside the fragment
    is left to the host.  The text is that of the value in lower case, the
    empty text for [null].  With the slots of the scenario filled and the
    complaint "fertility issues" the next unfilled slot is [months_ttc];
    with the complaint "a cold" the call returns [null]. *)
Theorem branch_traversal_first_match :
  forall (host : string -> string -> bool),
    (forall (cfg : SlotConfig) (v : JsValue),
        next_slot (isMatch host) cfg v = firstMatchingEntry (isMatch host) cfg v)
    /\ (forall (cfg : SlotConfig) (v : JsValue),
           branch_value v <> "" -> noIndexKey (branches cfg) = true ->
           next_slot (isMatch host) cfg v
           = firstMatchingBranch (isMatch host) cfg v)
    /\ (forall (pattern : string) (r : regex) (text : string),
           RegExp pattern = Compiled r ->
           (isMatch host pattern text = true <-> matchesSomewhere r text))
    /\ (forall (pattern text : string),
           RegExp pattern = SyntaxError ->
           (isMatch host pattern text = true <-> In text (alternatives pattern)))
    /\ (forall (pattern text : string),
           RegExp pattern = Unsupported ->
           isMatch host pattern text = host pattern text)
    /\ (forall s, branch_value (VStr s) = toLowerCase s)
    /\ (forall l, branch_value (VList l) = toLowerCase (String.concat "," l))
    /\ branch_value (VBool true) = "true"
    /\ branch_value (VBool false) = "false"
    /\ branch_value VNull = ""
    /\ toLowerCase "Fertility ISSUES" = "fertility issues"
    /\ RegExp ".*fertility.*"
       = Compiled (Seq (Rep 0 None AAny) (chars "fertility" (Rep 0 None AAny)))
    /\ RegExp "yes|*" = SyntaxError
    /\ RegExp "^yes$" = Unsupported
    /\ isMatch host ".*FERTILITY.*" "in-vitro fertility treatment" = true
    /\ isMatch host ".*fertility.*" "a cold" = false
    /\ isMatch host "yes|no" "oh no" = true
    /\ next_slot (isMatch host) starredSlot (VStr "YES") = Some "consent_details"
    /\ next_slot (isMatch host) starredSlot (VStr "oh yes") = Some "refusal"
    /\ next_slot (isMatch host) catchAllSlot (VList ["Pollen"])
       = Some "allergy_details"
    /\ returned (nextUnfilledSlot (isMatch host) scenarioGraph
                                  (scenarioFilled "fertility issues"))
       = Some (Some "months_ttc")
    /\ returned (nextUnfilledSlot (isMatch host) scenarioGraph
                                  (scenarioFilled "a cold"))
       = Some None
    /\ returned (getNextUnfilledSlot (scenarioFilled "fertility issues"))
       = Some (Some "months_ttc")
    /\ returned (getNextUnfilledSlot (scenarioFilled "Fertility ISSUES"))
       = Some (Some "months_ttc")
    /\ returned (getNextUnfilledSlot (scenarioFilled "a cold")) = Some None.
Proof.
  intros host.
  split; [intros cfg v; apply next_slot_entries |].
  split; [intros cfg v; apply next_slot_rule |].
  split; [intros pattern r text; apply isMatch_compiled |].
  split; [intros pattern text; apply isMatch_alternatives |].
  split; [intros pattern text H; unfold isMatch; now rewrite H |].
  repeat split; vm_compute; reflexivity.
Qed.

End BranchTraversal.

(* ================================================================= *)
(** ** The review message *)

Module Review.
Import DialogManager.

(** *** Lines *)





(** *** The lines of the slots *)








End Review.

(* ================================================================= *)
(** ** The correction engine *)

Module Corrections.
Import DialogManager.

Lemma applyParsed_not_applicable (userResponse : string) (updated : Updated)
      (mem : InterviewMemory) (c : string * JsValue) :
  applicable (own updated) c = false ->
  applyParsed userResponse (updated, mem) c = (updated, mem).
Proof.
  unfold applicable, applyParsed. destruct c as [k v]. cbn [fst snd].
  destruct (slotEntry k) as [e |] eqn:E; [| reflexivity].
  rewrite (knownName_found k e E).
  destruct (strict_eq (Obj.get k (own updated)) v); [reflexivity | discriminate].
Qed.

Lemma strictStep_no_match (filledSlots : FilledSlots) (userResponse : string)
      (st : FilledSlots * InterviewMemory) (k : string) :
  Regex.exec true (strictRegex k) userResponse = None ->
  strictStep filledSlots userResponse st k = st.
Proof.
  unfold strictStep, assignMatched. intros ->. now destruct st.
Qed.

Lemma naturalStep_no_match (filledSlots : FilledSlots) (userResponse : string)
      (st : FilledSlots * InterviewMemory) (k : string) :
  naturalMatch k userResponse = None ->
  saysSingle (JsString.toLowerCase userResponse) k = false ->
  saysMarried (JsString.toLowerCase userResponse) k = false ->
  naturalStep filledSlots userResponse st k = st.
Proof.
  unfold naturalStep, assignMatched. intros -> -> ->. now destruct st.
Qed.

Lemma matchesSlotPattern_false (userResponse k : string) :
  matchesSlotPattern userResponse k = false ->
  Regex.exec true (strictRegex k) userResponse = None
  /\ naturalMatch k userResponse = None
  /\ saysSingle (JsString.toLowerCase userResponse) k = false
  /\ saysMarried (JsString.toLowerCase userResponse) k = false.
Proof.
  unfold matchesSlotPattern, matchesSlotForm. intros H.
  apply orb_false_iff in H. destruct H as [H H4].
  apply orb_false_iff in H. destruct H as [H H3].
  apply orb_false_iff in H. destruct H as [H1 H2].
  repeat split; try assumption.
  - now destruct (Regex.exec true (strictRegex k) userResponse).
  - now destruct (naturalMatch k userResponse).
Qed.

(** An utterance that matches no pattern goes through the fallback without
    effect. *)
Lemma patternFallback_no_match (userResponse : string) (filledSlots : FilledSlots)
      (st : FilledSlots * InterviewMemory) :
  matchesNoSlotPattern userResponse = true ->
  patternFallback userResponse filledSlots st = st.
Proof.
  unfold matchesNoSlotPattern, patternFallback. rewrite forallb_forall.
  intros H.
  assert (H' : forall k, In k (Obj.keys SLOT_SCHEMA) ->
                         matchesSlotPattern userResponse k = false).
  { intros k Hk. apply negb_true_iff. now apply H. }
  rewrite (fold_left_fixed (strictStep filledSlots userResponse)).
  - apply fold_left_fixed. intros k Hk.
    destruct (matchesSlotPattern_false _ _ (H' k Hk)) as (_ & H2 & H3 & H4).
    now apply naturalStep_no_match.
  - intros k Hk.
    destruct (matchesSlotPattern_false _ _ (H' k Hk)) as (H1 & _).
    now apply strictStep_no_match.
Qed.

(** The natural-language step when the form matches, the captured text is
    stored as [now] and no partner rule applies. *)
Lemma naturalStep_assign (filledSlots updated : FilledSlots) (mem : InterviewMemory)
      (userResponse k m1 : string) (now : JsValue) :
  naturalMatch k userResponse = Some (Some m1) ->
  (m1 =? "") = false ->
  assignValue filledSlots k m1 updated = Obj.set k now updated ->
  strict_eq (Obj.get k updated) now = false ->
  saysSingle (JsString.toLowerCase userResponse) k = false ->
  saysMarried (JsString.toLowerCase userResponse) k = false ->
  naturalStep filledSlots userResponse (updated, mem) k
  = (Obj.set k now updated, logCorrection k userResponse now mem).
Proof.
  intros Hm Hne Ha Hchg Hs1 Hs2. unfold naturalStep, assignMatched.
  rewrite Hm, Hne, Ha, get_set_same, Hchg, Hs1, Hs2. reflexivity.
Qed.

(** C9, the claim fails: the remark names no slot, in the strict form or
    in a natural-language form, and the delegate proposes nothing; yet the
    engine, at the word "husband", turns [has_partner] from false to true
    and logs a correction. *)
Lemma partner_keyword_changes_slots :
  matchesNoSlotForm husbandRemark = true
  /\ noApplicableCorrection silentDelegates [("has_partner", VBool false)]
                            husbandRemark = true
  /\ applyCorrections silentDelegates husbandRemark
                      [("has_partner", VBool false)] clearMemory
     = ([("has_partner", VBool true)],
        saveInteraction (Some "Correction for has_partner") husbandRemark
                        (VBool true) "has_partner" clearMemory).
Proof. repeat split; vm_compute; reflexivity. Qed.

(** C9, amended. When the correction delegate fails or proposes no
    applicable correction, and the utterance matches none of the patterns
    the fallback tries for the slots of the schema, which are the strict
    form, the two natural-language forms and, for [has_partner], the partner
    key words (i am single; married, spouse, husband, wife), the correction
    engine returns the slot map it was given and logs nothing.  A
    correction is applicable when the lookup of the schema finds its name,
    as a slot or as a member of [Object.prototype], and its value is not the
    one the map has under that name as an own property. *)
Theorem applyCorrections_no_match_unchanged :
  forall (d : Delegates) (userResponse : string) (filledSlots : FilledSlots)
         (mem : InterviewMemory),
    noApplicableCorrection d filledSlots userResponse = true ->
    matchesNoSlotPattern userResponse = true ->
    applyCorrections d userResponse filledSlots mem = (filledSlots, mem).
Proof.
  intros d userResponse filledSlots mem Hd Hp.
  unfold applyCorrections, noApplicableCorrection in *.
  destruct (parsedCorrections d filledSlots userResponse) as [cs |].
  - rewrite fold_left_fixed; [now apply patternFallback_no_match |].
    intros c Hc. apply applyParsed_not_applicable.
    rewrite forallb_forall in Hd. apply negb_true_iff. now apply Hd.
  - now apply patternFallback_no_match.
Qed.

Lemma applyCorrections_no_match_unchanged_witness :
  applyCorrections echoDelegates "Everything looks right to me"
                   [("dob", VStr "01/01/1989"); ("has_partner", VBool true)]
                   clearMemory
  = ([("dob", VStr "01/01/1989"); ("has_partner", VBool true)], clearMemory).
Proof.
  apply (applyCorrections_no_match_unchanged echoDelegates
           "Everything looks right to me"
           [("dob", VStr "01/01/1989"); ("has_partner", VBool true)]
           clearMemory); vm_compute; reflexivity.
Defined.

(** C6, the claim fails: the patterns of the fallback are made from the
    slot ids, and the request names no slot id; [dob] keeps its value, in
    which 1987 does not occur, and nothing is logged. *)
Lemma birth_year_request_not_applied :
  patternFallback birthYearRequest [("dob", VStr "01/01/1989")]
                  ([("dob", VStr "01/01/1989")], clearMemory)
  = ([("dob", VStr "01/01/1989")], clearMemory)
  /\ JsString.includes "1987" "01/01/1989" = false
  /\ applyCorrections silentDelegates birthYearRequest
                      [("dob", VStr "01/01/1989")] clearMemory
     = ([("dob", VStr "01/01/1989")], clearMemory).
Proof. repeat split; vm_compute; reflexivity. Qed.

(** C6, amended. On a slot map in which [dob] is "01/01/1989", the pattern
    fallback leaves the map and the log as they are for the request "change
    my birth year to 1987", which names no slot id; for the request that
    names the slot, "change my dob to 1987", it sets [dob] to "1987" and
    logs exactly one correction interaction. *)
Theorem pattern_fallback_needs_slot_id :
  forall (filledSlots : FilledSlots) (mem : InterviewMemory),
    Obj.get "dob" filledSlots = Some (VStr "01/01/1989") ->
    patternFallback birthYearRequest filledSlots (filledSlots, mem)
    = (filledSlots, mem)
    /\ patternFallback dobRequest filledSlots (filledSlots, mem)
       = (Obj.set "dob" (VStr "1987") filledSlots,
          saveInteraction (Some "Correction for dob") dobRequest (VStr "1987")
                          "dob" mem)
    /\ Obj.get "dob" (Obj.set "dob" (VStr "1987") filledSlots) = Some (VStr "1987")
    /\ JsString.includes "1987" (js_String (VStr "1987")) = true
    /\ interactionCount
         (saveInteraction (Some "Correction for dob") dobRequest (VStr "1987")
                          "dob" mem)
       = S (interactionCount mem).
Proof.
  intros filledSlots mem Hdob. split; [| split; [| split; [| split]]].
  - apply patternFallback_no_match. vm_compute. reflexivity.
  - unfold patternFallback.
    change (Obj.keys SLOT_SCHEMA)
      with ["full_name"; "dob"; "has_partner"; "chief_complaint"; "months_ttc"].
    rewrite (fold_left_fixed (strictStep filledSlots dobRequest)).
    2: { intros k Hk. apply strictStep_no_match.
         destruct Hk as [<- | [<- | [<- | [<- | [<- | []]]]]];
           vm_compute; reflexivity. }
    cbn [fold_left].
    rewrite (naturalStep_no_match filledSlots dobRequest (filledSlots, mem) "full_name")
      by (vm_compute; reflexivity).
    rewrite (naturalStep_assign filledSlots filledSlots mem dobRequest "dob"
                                "1987" (VStr "1987")).
    + rewrite !naturalStep_no_match by (vm_compute; reflexivity). reflexivity.
    + vm_compute. reflexivity.
    + reflexivity.
    + unfold assignValue, looksBoolean. rewrite Hdob. reflexivity.
    + rewrite Hdob. reflexivity.
    + vm_compute. reflexivity.
    + vm_compute. reflexivity.
  - apply get_set_same.
  - reflexivity.
  - reflexivity.
Qed.

Lemma pattern_fallback_needs_slot_id_witness :
  patternFallback birthYearRequest [("dob", VStr "01/01/1989")]
                  ([("dob", VStr "01/01/1989")], clearMemory)
  = ([("dob", VStr "01/01/1989")], clearMemory)
  /\ patternFallback dobRequest [("dob", VStr "01/01/1989")]
                     ([("dob", VStr "01/01/1989")], clearMemory)
     = ([("dob", VStr "1987")],
        saveInteraction (Some "Correction for dob") dobRequest (VStr "1987")
                        "dob" clearMemory).
Proof.
  destruct (pattern_fallback_needs_slot_id [("dob", VStr "01/01/1989")] clearMemory
              eq_refl) as (H1 & H2 & _).
  split; [exact H1 | exact H2].
Defined.
End Corrections.

(* ================================================================= *)
(** ** The turn controller *)

Module TurnController.
Import DialogManager.

(** [getNextQuestion] never throws. *)
Lemma getNextQuestion_total (filledSlots : FilledSlots) :
  exists q, getNextQuestion filledSlots = Some q.
Proof.
  unfold getNextQuestion.
  pose proof (SlotGraphFacts.getNextUnfilledSlot_result filledSlots) as H.
  destruct (getNextUnfilledSlot filledSlots) as [s | | s | s |];
    cbn [returned]; try contradiction; [| eauto].
  destruct (Obj.get s SLOT_SCHEMA) as [cfg |] eqn:E; [eauto |].
  apply get_None_iff in E. contradiction.
Qed.









(** C7. In hybrid mode, when the router answers [extract] and the merge
    accepts none of its candidates, the turn is answered by a reprompt that
    carries the delegate's clarification and no slot, phase or slot map; the
    slot map of the merge is the one the turn was given, and the only trace
    is one logged interaction without extracted value. *)
Theorem extract_without_acceptance_reprompts :
  forall (d : Delegates) (currentSlot userResponse : string)
         (filledSlots : FilledSlots) (mem : InterviewMemory)
         (slotConfig : SlotConfig),
    Obj.get currentSlot SLOT_SCHEMA = Some slotConfig ->
    action (routeUserResponse d currentSlot userResponse) = Extract ->
    successfulExtractions
      (fst (processMultipleExtractions
              (extractions (routeUserResponse d currentSlot userResponse))
              filledSlots mem)) = [] ->
    processResponse d true currentSlot userResponse filledSlots mem
    = (Reprompt (Some (generateClarificationQuestion d currentSlot userResponse)) true,
       saveInteraction (Some (question slotConfig)) userResponse VNull
                       currentSlot mem)
    /\ updatedSlots
         (fst (processMultipleExtractions
                 (extractions (routeUserResponse d currentSlot userResponse))
                 filledSlots mem)) = filledSlots.
Proof.
  intros d currentSlot userResponse filledSlots mem slotConfig Hcfg Hact Hnone.
  destruct (merge_result (extractions (routeUserResponse d currentSlot userResponse))
                         filledSlots mem) as (Hs & _ & _).
  rewrite Hs in Hnone.
  destruct (merge_none_accepted
              (extractions (routeUserResponse d currentSlot userResponse))
              {| updatedSlots := filledSlots; successfulExtractions := [];
                 failedExtractions := [] |} mem Hnone) as (Hmem & Hslots).
  fold (processMultipleExtractions
          (extractions (routeUserResponse d currentSlot userResponse))
          filledSlots mem) in Hmem, Hslots.
  split; [| exact Hslots].
  unfold processResponse. rewrite (slotEntry_slot _ _ Hcfg), Hact.
  destruct (processMultipleExtractions
              (extractions (routeUserResponse d currentSlot userResponse))
              filledSlots mem) as [multiResult mem1] eqn:E.
  cbn [fst snd] in *. subst mem1. rewrite Hs, Hnone. reflexivity.
Qed.

Lemma extract_without_acceptance_reprompts_witness :
  processResponse (extractingDelegates (scenarioCandidates "first_name"))
                  true "full_name" "John, or Jon" [] clearMemory
  = (Reprompt (Some "Could you say more?") true,
     saveInteraction (Some "What is your full name?") "John, or Jon" VNull
                     "full_name" clearMemory).
Proof.
  apply (extract_without_acceptance_reprompts
           (extractingDelegates (scenarioCandidates "first_name"))
           "full_name" "John, or Jon" [] clearMemory
           {| id := "full_name"; question := "What is your full name?";
              slot := "full_name"; required := true;
              branches := []; next_default := Some "dob" |});
    reflexivity.
Defined.



End TurnController.

(* ================================================================= *)
(** * Further properties *)

(** ** Objects and the log *)

(** A name the lookup of the schema finds is no array index. *)
Lemma known_named (k : string) : known k -> Obj.arrayIndex k = None.
Proof.
  unfold known, schemaNames, memberNames. cbn [In].
  intros H. repeat destruct H as [H | H]; try contradiction; subst;
    reflexivity.
Qed.

Section MoreObjFacts.
Context {A : Type}.

Lemma keys_set_extends (k : string) (v : A) (o : Obj.t A) (allowed : string -> Prop) :
  Obj.arrayIndex k = None -> allowed k ->
  exists added, Obj.keys (Obj.set k v o) = (Obj.keys o ++ added)%list
                /\ forall x, In x added -> allowed x.
Proof.
  intros Hi Hk. rewrite keys_set by exact Hi. eexists. split; [reflexivity |].
  destruct (Obj.get k o); intros x []; subst; [assumption | contradiction].
Qed.

(** Keys that extend twice extend once. *)
Lemma keys_extend_trans (a b c : list string) (allowed : string -> Prop) :
  (exists added, b = (a ++ added)%list /\ forall x, In x added -> allowed x) ->
  (exists added, c = (b ++ added)%list /\ forall x, In x added -> allowed x) ->
  exists added, c = (a ++ added)%list /\ forall x, In x added -> allowed x.
Proof.
  intros (x & -> & Hx) (y & -> & Hy). exists (x ++ y)%list.
  split; [now rewrite app_assoc |].
  intros z Hz. apply in_app_or in Hz. destruct Hz; auto.
Qed.

Lemma keys_extend_refl (a : list string) (allowed : string -> Prop) :
  exists added, a = (a ++ added)%list /\ forall x, In x added -> allowed x.
Proof. exists []. split; [now rewrite app_nil_r | intros x []]. Qed.

Lemma keys_assign_extends (k : string) (v : A) (o : Obj.t A)
      (allowed : string -> Prop) :
  Obj.arrayIndex k = None -> allowed k ->
  exists added, Obj.keys (Obj.assign k v o) = (Obj.keys o ++ added)%list
                /\ forall x, In x added -> allowed x.
Proof.
  intros Hi Hk. unfold Obj.assign.
  destruct (Obj.get k o); [now apply keys_set_extends |].
  destruct (k =? "__proto__"); [apply keys_extend_refl | now apply keys_set_extends].
Qed.
End MoreObjFacts.

Lemma grows_refl (m : InterviewMemory) : grows m m 0.
Proof. exists []. cbn. now rewrite app_nil_r, Nat.add_0_r. Qed.

Lemma grows_save (question : option string) (userResponse : string)
      (v : JsValue) (k : string) (m : InterviewMemory) :
  grows m (saveInteraction question userResponse v k m) 1.
Proof.
  exists [(question, userResponse, v, k)]. cbn.
  split; [reflexivity |]. split; [reflexivity | lia].
Qed.

Lemma grows_trans (m1 m2 m3 : InterviewMemory) (n p : nat) :
  grows m1 m2 n -> grows m2 m3 p -> grows m1 m3 (n + p).
Proof.
  intros (a & Ha & La & Ca) (b & Hb & Lb & Cb). exists (a ++ b)%list.
  rewrite Hb, Ha, <- app_assoc, flat_map_app, length_app. repeat split; lia.
Qed.

Lemma grows_step (m1 m2 : InterviewMemory) (n : nat)
      (question : option string) (userResponse : string) (v : JsValue)
      (k : string) :
  grows m1 m2 n -> grows m1 (saveInteraction question userResponse v k m2) (S n).
Proof.
  intros H. replace (S n) with (n + 1) by lia.
  eapply grows_trans; [exact H | apply grows_save].
Qed.

(* ================================================================= *)
(** ** More on the merge *)

Module MergeMore.
Import DialogManager.

Lemma valid_storable (k : string) (v : JsValue) :
  isValid (validateSlotValue k v) = true -> known k /\ storable v = true.
Proof.
  unfold validateSlotValue.
  destruct (slotEntry k) as [entry |] eqn:E; [| discriminate].
  intros H. split; [apply slotEntry_known; congruence |].
  destruct v as [| b | s | l]; cbn in *; try discriminate; try reflexivity.
  destruct (JsString.trim s =? ""); [discriminate | reflexivity].
Qed.

Lemma storable_valid (k : string) (v : JsValue) :
  known k -> storable v = true ->
  validateSlotValue k v = {| isValid := true; error := None |}.
Proof.
  intros Hk Hv. unfold validateSlotValue. apply slotEntry_known in Hk.
  destruct (slotEntry k) as [entry |]; [| congruence].
  destruct v as [| b | s | l]; cbn in *; try discriminate; try reflexivity.
  destruct (JsString.trim s =? ""); [discriminate | reflexivity].
Qed.

(** The validation gives an error text exactly when it refuses. *)
Lemma error_None_iff_valid (k : string) (v : JsValue) :
  error (validateSlotValue k v) = None <-> isValid (validateSlotValue k v) = true.
Proof.
  unfold validateSlotValue.
  destruct (slotEntry k); cbn; [| split; discriminate].
  destruct v as [| b | txt | l]; cbn; try (split; discriminate);
    try (split; reflexivity).
  destruct (JsString.trim txt =? ""); cbn; split; try discriminate; reflexivity.
Qed.

Lemma lastAccepted_Some (k : string) (v : JsValue) (candidates : list Extraction) :
  lastAccepted k candidates = Some v ->
  exists e, In e candidates /\ accepted e = true /\ slotName e = k /\ value e = v.
Proof.
  unfold lastAccepted.
  induction candidates as [| c cs IH] using rev_ind; [discriminate |].
  rewrite fold_left_app. cbn [fold_left].
  destruct (accepted c && (slotName c =? k)) eqn:E.
  - apply andb_true_iff in E. destruct E as [Ea Ek]. apply String.eqb_eq in Ek.
    intros [= <-]. exists c. repeat split; auto. apply in_or_app. right. now left.
  - intros H. destruct (IH H) as (e & He & Hrest). exists e.
    split; [apply in_or_app; now left | exact Hrest].
Qed.

Lemma mergeSlots_keys (candidates : list Extraction) (fs : FilledSlots) :
  exists added,
    Obj.keys (fold_left mergeSlots candidates fs) = (Obj.keys fs ++ added)%list
    /\ forall k, In k added -> known k.
Proof.
  revert fs. induction candidates as [| e es IH]; intros fs; cbn [fold_left].
  - apply keys_extend_refl.
  - eapply keys_extend_trans; [| apply IH].
    unfold mergeSlots. destruct (accepted e) eqn:E; [| apply keys_extend_refl].
    unfold accepted in E. apply andb_true_iff in E.
    destruct E as [E _]. apply valid_storable in E. destruct E as [E _].
    apply keys_assign_extends; [now apply known_named | exact E].
Qed.

(** The log of the merge: the two messages of each accepted candidate, in
    the order of the candidates. *)
Lemma merge_fold_log (candidates : list Extraction) :
  forall (r : MultiResult) (mem : InterviewMemory),
    snd (fold_left mergeStep candidates (r, mem))
    = {| messages := (messages mem
                      ++ flat_map mergeMessages (filter accepted candidates))%list;
         interactionCount := interactionCount mem
                             + List.length (filter accepted candidates) |}.
Proof.
  induction candidates as [| e es IH]; intros r mem; cbn [fold_left filter flat_map].
  - cbn. rewrite app_nil_r, Nat.add_0_r. now destruct mem.
  - destruct (accepted e) eqn:E.
    + rewrite (mergeStep_accepted r mem e E), IH. cbn [flat_map List.length].
      unfold saveInteraction, mergeMessages, mergeExchange, exchangeMessages.
      cbn [messages interactionCount].
      rewrite <- app_assoc. f_equal. lia.
    + rewrite (mergeStep_rejected r mem e E). apply IH.
Qed.

(** X1. The merge writes nothing but valid values, under names the lookup
    of the schema finds: the keys of the slot map it returns are those of
    the map it was given, in their order, followed by new keys each of which
    is a slot of the schema or a member of [Object.prototype]; and a value
    of the returned map is the one the given map had for the key, or a
    value under such a name that is neither [null] nor a string of white
    space.  Both kinds of new key occur: a candidate for [constructor] adds
    that key, as one for [dob] adds [dob]; one for [__proto__] adds none. *)
Theorem merge_writes_valid_values_only :
  forall (candidates : list Extraction) (filledSlots : FilledSlots)
         (mem : InterviewMemory),
    let out := fst (processMultipleExtractions candidates filledSlots mem) in
    (exists added,
        Obj.keys (updatedSlots out) = (Obj.keys filledSlots ++ added)%list
        /\ forall k, In k added ->
                     In k schemaNames \/ In k memberNames)
    /\ (forall k v, Obj.get k (updatedSlots out) = Some v ->
          Obj.get k filledSlots = Some v
          \/ ((In k schemaNames \/ In k memberNames)
              /\ storable v = true))
    /\ Obj.keys
         (updatedSlots
            (fst (processMultipleExtractions
                    [memberCandidate;
                     {| slotName := "dob"; value := VStr "1990-01-01";
                        confidence := 0.9 |};
                     {| slotName := "__proto__"; value := VStr "x";
                        confidence := 0.9 |}]
                    [("full_name", VStr "Jane Doe")] mem)))
       = ["full_name"; "constructor"; "dob"].
Proof.
  intros candidates filledSlots mem out.
  destruct (merge_result candidates filledSlots mem) as (_ & _ & Hu).
  fold out in Hu. rewrite Hu. split; [apply mergeSlots_keys |]. split.
  - intros k v. rewrite mergeSlots_get.
    destruct (lastAccepted k candidates) as [w |] eqn:E; [| now left].
    destruct (assignable k filledSlots); [| discriminate].
    intros [= ->]. right.
    destruct (lastAccepted_Some _ _ _ E) as (e & _ & Ha & <- & <-).
    unfold accepted in Ha. apply andb_true_iff in Ha. destruct Ha as [Ha _].
    now apply valid_storable.
  - match goal with
    | |- context [processMultipleExtractions ?c ?f mem] =>
        destruct (merge_result c f mem) as (_ & _ & ->)
    end.
    reflexivity.
Qed.

(** X2. The merge drops no candidate: each one is among the successful
    extractions or has its entry among the failed ones, and the two lists
    together are as long as the input.  A failed entry carries an error text
    exactly when the validation has refused the value; a candidate refused
    for its confidence alone carries none. *)
Theorem merge_drops_no_candidate :
  forall (candidates : list Extraction) (filledSlots : FilledSlots)
         (mem : InterviewMemory),
    let out := fst (processMultipleExtractions candidates filledSlots mem) in
    List.length (successfulExtractions out) + List.length (failedExtractions out)
    = List.length candidates
    /\ (forall e, In e candidates ->
          (accepted e = true /\ In e (successfulExtractions out))
          \/ (accepted e = false /\ In (rejection e) (failedExtractions out)))
    /\ (forall f, In f (failedExtractions out) ->
          In (candidate f) candidates
          /\ (failure f = None <->
              (isValid (validateSlotValue (slotName (candidate f))
                                          (value (candidate f))) = true
               /\ confident (confidence (candidate f)) = false))).
Proof.
  intros candidates filledSlots mem out.
  destruct (merge_result candidates filledSlots mem) as (Hs & Hf & _).
  fold out in Hs, Hf. rewrite Hs, Hf. split; [| split].
  - rewrite length_map. clear. induction candidates as [| e es IH]; [reflexivity |].
    cbn [filter]. destruct (accepted e); cbn [negb List.length]; lia.
  - intros e He. destruct (accepted e) eqn:E.
    + left. split; [reflexivity |]. apply filter_In. auto.
    + right. split; [reflexivity |]. apply in_map, filter_In. now rewrite E.
  - intros f Hin. apply in_map_iff in Hin. destruct Hin as (e & <- & He).
    apply filter_In in He. destruct He as [He Hrej].
    apply negb_true_iff in Hrej. split; [exact He |].
    unfold rejection, accepted in *. cbn [candidate failure].
    rewrite error_None_iff_valid. split.
    + intros Hv. rewrite Hv in Hrej. auto.
    + now intros [Hv _].
Qed.

(** X3. The merge logs one interaction for each accepted candidate and
    nothing else: the messages of the memory are followed by the question of
    the slot and the text "[Multi-extraction] value", for the accepted
    candidates in their order, and the count of interactions rises by their
    number. *)
Theorem merge_logs_accepted_candidates :
  forall (candidates : list Extraction) (filledSlots : FilledSlots)
         (mem : InterviewMemory),
    let result := processMultipleExtractions candidates filledSlots mem in
    messages (snd result)
    = (messages mem ++ flat_map mergeMessages (successfulExtractions (fst result)))%list
    /\ interactionCount (snd result)
       = interactionCount mem + List.length (successfulExtractions (fst result)).
Proof.
  intros candidates filledSlots mem result.
  destruct (merge_result candidates filledSlots mem) as (Hs & _ & _).
  fold result in Hs. rewrite Hs. unfold result, processMultipleExtractions.
  rewrite merge_fold_log. split; reflexivity.
Qed.
End MergeMore.

(* ================================================================= *)
(** ** More on the traversal *)

Module TraversalMore.
Import SlotGraphFacts.

Section Sound.
Variable matches : string -> string -> bool.
Variable slots : SlotGraph.
Variable filledSlots : FilledSlots.

(** What each end of the loop tells, given that the visited slots are
    filled, reached from the root, and lead to the current slot. *)
Lemma walk_sound (fuel : nat) :
  forall (current : option string) (visited : list string),
    (forall x, In x visited ->
               Obj.get x filledSlots <> None /\ reachable slots x) ->
    (forall cur x, or_null current = Some cur -> In x visited ->
                   clos_trans string (edge slots) x cur) ->
    (forall cur, or_null current = Some cur -> reachable slots cur) ->
    match walk matches slots filledSlots fuel current visited with
    | Unfilled s => Obj.get s filledSlots = None /\ reachable slots s
    | LoopDetected s =>
        Obj.get s filledSlots <> None /\ reachable slots s
        /\ clos_trans string (edge slots) s s
    | NoConfig s =>
        Obj.get s filledSlots <> None /\ Obj.get s slots = None
        /\ reachable slots s
    | PathFilled | OutOfFuel => True
    end.
Proof.
  induction fuel as [| fuel IH]; intros current visited Hvis Hpath Hreach; simpl.
  - now destruct (or_null current).
  - destruct (or_null current) as [cur |] eqn:Ecur; [| exact I].
    specialize (Hreach cur eq_refl).
    destruct (existsb (String.eqb cur) visited) eqn:Ev.
    + apply existsb_eqb_In in Ev. destruct (Hvis cur Ev) as [Hf _].
      repeat split; auto.
    + destruct (Obj.get cur filledSlots) as [v |] eqn:Ef; [| auto].
      destruct (Obj.get cur slots) as [cfg |] eqn:Ecfg.
      * assert (Hedge : forall nxt, or_null (next_slot matches cfg v) = Some nxt ->
                                    edge slots cur nxt).
        { intros nxt Hn. apply or_null_Some in Hn. destruct Hn as [Hn _].
          exists cfg. split; [assumption |]. eapply next_slot_target; eauto. }
        apply IH.
        -- intros x [<- | Hx]; [split; [congruence | assumption] | now apply Hvis].
        -- intros nxt x Hn [<- | Hx].
           ++ apply t_step. now apply Hedge.
           ++ eapply t_trans; [apply (Hpath cur x eq_refl Hx) |].
              apply t_step. now apply Hedge.
        -- intros nxt Hn. destruct Hreach as (root & Hroot & Hrt).
           exists root. split; [assumption |].
           eapply rt_trans; [exact Hrt | apply rt_step; now apply Hedge].
      * repeat split; auto. congruence.
Qed.

Lemma nextUnfilledSlot_sound :
  match nextUnfilledSlot matches slots filledSlots with
  | Unfilled s => Obj.get s filledSlots = None /\ reachable slots s
  | LoopDetected s =>
      Obj.get s filledSlots <> None /\ reachable slots s
      /\ clos_trans string (edge slots) s s
  | NoConfig s =>
      Obj.get s filledSlots <> None /\ Obj.get s slots = None
      /\ reachable slots s
  | PathFilled | OutOfFuel => True
  end.
Proof.
  apply walk_sound.
  - intros x [].
  - intros cur x _ [].
  - intros cur H. apply or_null_Some in H. destruct H as [H _].
    exists cur. split; [exact H | apply rt_refl].
Qed.
End Sound.

(** X4. What the end of a traversal tells, for every graph and every slot
    map: the slot returned is not filled and is the root or reached from it
    along edges; a loop is reported only at a filled slot that lies on a
    cycle of the graph; the call throws only at a filled slot, reached from
    the root, that has no entry in the graph. *)
Theorem traversal_result_sound :
  forall (matches : string -> string -> bool) (slots : SlotGraph)
         (filledSlots : FilledSlots),
    match nextUnfilledSlot matches slots filledSlots with
    | Unfilled s => Obj.get s filledSlots = None /\ reachable slots s
    | LoopDetected s =>
        Obj.get s filledSlots <> None /\ reachable slots s
        /\ clos_trans string (edge slots) s s
    | NoConfig s =>
        Obj.get s filledSlots <> None /\ Obj.get s slots = None
        /\ reachable slots s
    | PathFilled => True
    | OutOfFuel => False
    end.
Proof.
  intros matches slots filledSlots.
  pose proof (nextUnfilledSlot_sound matches slots filledSlots) as H.
  pose proof (walk_within_bound matches slots filledSlots
                (S (List.length slots)) (ROOT_SLOT slots) []
                (NoDup_nil _) ltac:(intros ? []) ltac:(simpl; lia)) as Hfuel.
  fold (nextUnfilledSlot matches slots filledSlots) in Hfuel.
  destruct (nextUnfilledSlot matches slots filledSlots); auto.
Qed.

End TraversalMore.

(* ================================================================= *)
(** ** More on the turn controller *)

Module TurnMore.
Import DialogManager.

Lemma merge_grows (candidates : list Extraction) (filledSlots : FilledSlots)
      (mem : InterviewMemory) :
  grows mem (snd (processMultipleExtractions candidates filledSlots mem))
        (List.length (successfulExtractions
                        (fst (processMultipleExtractions candidates filledSlots mem)))).
Proof.
  destruct (merge_result candidates filledSlots mem) as (Hs & _ & _).
  rewrite Hs. unfold processMultipleExtractions. rewrite MergeMore.merge_fold_log.
  exists (map mergeExchange (filter accepted candidates)).
  cbn [messages interactionCount snd]. rewrite length_map.
  split; [| split; reflexivity].
  f_equal. clear Hs.
  induction (filter accepted candidates) as [| e es IH]; [reflexivity |].
  cbn [flat_map map]. now rewrite IH.
Qed.

Lemma standardProcessing_grows (d : Delegates) (slotConfig : SlotEntry)
      (currentSlot userResponse : string) (filledSlots : FilledSlots)
      (mem : InterviewMemory) :
  let result := standardProcessing d slotConfig currentSlot userResponse filledSlots mem in
  grows mem (snd result) 1 /\ turnInteractions (fst result) = 1.
Proof.
  unfold standardProcessing.
  destruct (falsy _); [split; [apply grows_save | reflexivity] |].
  destruct (negb _); [split; [apply grows_save | reflexivity] |].
  destruct (TurnController.getNextQuestion_total
              (Obj.set currentSlot
                       (extractSlotValue d slotConfig currentSlot userResponse)
                       filledSlots)) as [q ->].
  split; [apply grows_save | reflexivity].
Qed.




(** X8. The single-slot path.  With hybrid mode off, a turn for a slot of
    the schema succeeds exactly when the value extracted for the slot is
    truthy and not a string of white space; the slot map returned is then
    the given one with that value written for the current slot, every other
    slot as it was, and the question that follows is that of
    [getNextQuestion] on it.  Otherwise the turn is a reprompt that logs an
    interaction without value.  A value [false], [null] or the empty string
    is therefore never stored by this path: a chain that extracts [false]
    from a response that the preprocessing leaves alone leads to a
    reprompt. *)
Theorem single_slot_turn :
  forall (d : Delegates) (currentSlot userResponse : string)
         (filledSlots : FilledSlots) (mem : InterviewMemory) (cfg : SlotConfig),
    Obj.get currentSlot SLOT_SCHEMA = Some cfg ->
    let v := extractSlotValue d (Slot cfg) currentSlot userResponse in
    let result := processResponse d false currentSlot userResponse filledSlots mem in
    (falsy v = false -> storable v = true ->
     exists next,
       getNextQuestion (Obj.set currentSlot v filledSlots) = Some next
       /\ result = (Success (Obj.set currentSlot v filledSlots) None next,
                    saveInteraction (Some (question cfg)) userResponse v
                                    currentSlot mem))
    /\ (falsy v = true \/ storable v = false ->
        exists e c,
          result = (Reprompt e c,
                    saveInteraction (Some (question cfg)) userResponse VNull
                                    currentSlot mem))
    /\ (forall slots extracted next,
           fst result = Success slots extracted next ->
           Obj.get currentSlot slots = Some v
           /\ falsy v = false /\ storable v = true
           /\ forall k, k <> currentSlot -> Obj.get k slots = Obj.get k filledSlots)
    /\ (preprocessResponse userResponse (Slot cfg) = userResponse ->
        fst (extractionChain d currentSlot userResponse) = VBool false ->
        fst result
        = Reprompt (Some (generateClarificationQuestion d currentSlot userResponse))
                   true).
Proof.
  intros d currentSlot userResponse filledSlots mem cfg Hcfg v result.
  assert (Hkey : known currentSlot) by (eapply schema_slot_known; eauto).
  assert (Hres : result = standardProcessing d (Slot cfg) currentSlot userResponse
                                             filledSlots mem).
  { unfold result, processResponse. now rewrite (slotEntry_slot _ _ Hcfg). }
  assert (Hok : falsy v = false -> storable v = true ->
                exists next,
                  getNextQuestion (Obj.set currentSlot v filledSlots) = Some next
                  /\ result = (Success (Obj.set currentSlot v filledSlots) None next,
                               saveInteraction (Some (question cfg)) userResponse v
                                               currentSlot mem)).
  { intros Hf Hs. rewrite Hres. unfold standardProcessing. fold v.
    rewrite Hf, (MergeMore.storable_valid currentSlot v Hkey Hs). cbn [isValid negb].
    destruct (TurnController.getNextQuestion_total (Obj.set currentSlot v filledSlots))
      as [q Hq].
    exists q. now rewrite Hq. }
  assert (Hbad : falsy v = true \/ storable v = false ->
                 exists e c,
                   result = (Reprompt e c,
                             saveInteraction (Some (question cfg)) userResponse VNull
                                             currentSlot mem)).
  { intros H. rewrite Hres. unfold standardProcessing. fold v.
    destruct (falsy v) eqn:Hf; [eauto |].
    destruct H as [H | H]; [discriminate |].
    destruct (isValid (validateSlotValue currentSlot v)) eqn:Hv.
    - apply MergeMore.valid_storable in Hv. destruct Hv as [_ Hv]. congruence.
    - cbn [negb]. eauto. }
  split; [exact Hok | split; [exact Hbad | split]].
  - intros slots extracted next Hsucc.
    destruct (falsy v) eqn:Hf.
    { destruct (Hbad (or_introl eq_refl)) as (e & c & He).
      rewrite He in Hsucc. discriminate. }
    destruct (storable v) eqn:Hs.
    2:{ destruct (Hbad (or_intror eq_refl)) as (e & c & He).
        rewrite He in Hsucc. discriminate. }
    destruct (Hok eq_refl eq_refl) as (q & _ & He).
    rewrite He in Hsucc. injection Hsucc as <- _ _.
    repeat split; auto using get_set_same.
    intros k Hk. now apply get_set_other.
  - intros Hpre Hchain. rewrite Hres. unfold standardProcessing.
    assert (Hv : extractSlotValue d (Slot cfg) currentSlot userResponse = VNull
                 \/ extractSlotValue d (Slot cfg) currentSlot userResponse
                    = VBool false).
    { unfold extractSlotValue. rewrite Hpre, String.eqb_refl. cbn [negb].
      rewrite Hchain. destruct (confident _); auto. }
    destruct Hv as [-> | ->]; reflexivity.
Qed.

Lemma single_slot_turn_witness :
  fst (processResponse denyingDelegates false "has_partner" "I live alone" []
                       clearMemory)
  = Reprompt (Some "Could you say more?") true.
Proof.
  refine (proj2 (proj2 (proj2
            (single_slot_turn denyingDelegates "has_partner" "I live alone" []
               clearMemory
               {| id := "has_partner";
                  question := "Do you have a partner who will be part of treatment? (yes/no)";
                  slot := "has_partner"; required := true;
                  branches := []; next_default := Some "chief_complaint" |}
               eq_refl))) eq_refl eq_refl).
Defined.

(** X9. When the router fails, or answers [ask], hybrid mode does what the
    single-slot processing does: the turn has the result and the log it has
    with hybrid mode off. *)
Theorem hybrid_falls_back_to_single_slot :
  forall (d : Delegates) (currentSlot userResponse : string)
         (filledSlots : FilledSlots) (mem : InterviewMemory),
    routerDecision d currentSlot userResponse = None
    \/ routerDecision d currentSlot userResponse = Some Ask ->
    processResponse d true currentSlot userResponse filledSlots mem
    = processResponse d false currentSlot userResponse filledSlots mem.
Proof.
  intros d currentSlot userResponse filledSlots mem H.
  unfold processResponse, routeUserResponse.
  destruct (slotEntry currentSlot); [| reflexivity].
  destruct H as [-> | ->]; reflexivity.
Qed.

Lemma hybrid_falls_back_to_single_slot_witness :
  processResponse silentDelegates true "dob" "March 1990" [] clearMemory
  = processResponse silentDelegates false "dob" "March 1990" [] clearMemory.
Proof.
  apply (hybrid_falls_back_to_single_slot silentDelegates "dob" "March 1990"
           [] clearMemory).
  left. reflexivity.
Defined.

(** X10. A request without current slot is answered by the first question
    of the schema, whatever slot map and response it carries: the handler
    asks [getNextQuestion] about the empty map, so that the request the
    client sends to skip a slot starts again at [full_name].  Nothing is
    logged. *)
Theorem request_without_slot_restarts :
  forall (d : Delegates) (hybridMode : bool) (body : Server.RequestBody)
         (mem : InterviewMemory),
    or_null (Server.currentSlot body) = None ->
    Server.interviewNext d hybridMode body mem
    = (Server.Question (SlotQuestion "full_name" "What is your full name?"), mem).
Proof.
  intros d hybridMode body mem H. unfold Server.interviewNext. now rewrite H.
Qed.

Lemma request_without_slot_restarts_witness :
  Server.interviewNext silentDelegates true
    {| Server.currentSlot := None; Server.response := "";
       Server.filledSlots := completedSlots; Server.phase := None |}
    clearMemory
  = (Server.Question (SlotQuestion "full_name" "What is your full name?"),
     clearMemory).
Proof.
  apply (request_without_slot_restarts silentDelegates true
           {| Server.currentSlot := None; Server.response := "";
              Server.filledSlots := completedSlots; Server.phase := None |}
           clearMemory).
  reflexivity.
Defined.
End TurnMore.

(* ================================================================= *)
(** ** More on the correction engine *)

Module CorrectionsMore.
Import DialogManager.

Lemma correctionStep_refl (st : FilledSlots * InterviewMemory) :
  correctionStep st st.
Proof.
  split; [apply keys_extend_refl | split; [exists 0; apply grows_refl | auto]].
Qed.

Lemma correctionStep_trans (a b c : FilledSlots * InterviewMemory) :
  correctionStep a b -> correctionStep b c -> correctionStep a c.
Proof.
  intros (K1 & (n & G1) & U1) (K2 & (p & G2) & U2). split; [| split].
  - eapply keys_extend_trans; eauto.
  - exists (n + p). eapply grows_trans; eauto.
  - intros k Hk. now rewrite U2, U1.
Qed.

(** A write under a name the lookup finds, logged or not, is a step. *)
Lemma correctionStep_set (updated : FilledSlots) (mem mem' : InterviewMemory)
      (k : string) (v : JsValue) (n : nat) :
  known k -> grows mem mem' n ->
  correctionStep (updated, mem) (Obj.set k v updated, mem').
Proof.
  intros Hk Hg. split; [| split]; cbn [fst snd].
  - apply keys_set_extends; [now apply known_named | exact Hk].
  - eauto.
  - intros k' Hk'. apply get_set_other. congruence.
Qed.

Lemma correctionStep_assign (updated : FilledSlots) (mem mem' : InterviewMemory)
      (k : string) (v : JsValue) (n : nat) :
  known k -> grows mem mem' n ->
  correctionStep (updated, mem) (Obj.assign k v updated, mem').
Proof.
  intros Hk Hg. split; [| split]; cbn [fst snd].
  - apply keys_assign_extends; [now apply known_named | exact Hk].
  - eauto.
  - intros k' Hk'. apply get_assign_other. congruence.
Qed.

Lemma assignValue_set (filledSlots updated : FilledSlots) (slot val : string) :
  exists v, assignValue filledSlots slot val updated = Obj.set slot v updated.
Proof.
  unfold assignValue.
  destruct (looksBoolean filledSlots slot && startsWithAny affirmative _); [eauto |].
  destruct (looksBoolean filledSlots slot && startsWithAny negative _); eauto.
Qed.

Lemma applyParsed_step (userResponse : string) (updated : Updated)
      (mem : InterviewMemory) (c : string * JsValue) :
  correctionStep (own updated, mem)
                 (own (fst (applyParsed userResponse (updated, mem) c)),
                  snd (applyParsed userResponse (updated, mem) c)).
Proof.
  destruct c as [k v]. unfold applyParsed.
  destruct (slotEntry k) as [entry |] eqn:E; [| apply correctionStep_refl].
  assert (Hk : known k) by (apply slotEntry_known; congruence).
  destruct (strict_eq (Obj.get k (own updated)) v); [apply correctionStep_refl |].
  cbn [fst snd]. unfold assignParsed.
  destruct (inherits updated); cbn [own].
  - eapply correctionStep_assign; [exact Hk | apply grows_save].
  - eapply correctionStep_set; [exact Hk | apply grows_save].
Qed.

Lemma applyParsed_fold_step (userResponse : string)
      (corrections : list (string * JsValue)) :
  forall (updated : Updated) (mem : InterviewMemory),
    correctionStep
      (own updated, mem)
      (own (fst (fold_left (applyParsed userResponse) corrections (updated, mem))),
       snd (fold_left (applyParsed userResponse) corrections (updated, mem))).
Proof.
  induction corrections as [| c cs IH]; intros updated mem; cbn [fold_left].
  - apply correctionStep_refl.
  - eapply correctionStep_trans; [apply (applyParsed_step userResponse updated mem c) |].
    destruct (applyParsed userResponse (updated, mem) c) as [u1 m1].
    apply IH.
Qed.

Lemma assignMatched_step (filledSlots : FilledSlots) (k userResponse : string)
      (m : option (option string)) (st : FilledSlots * InterviewMemory) :
  In k (Obj.keys SLOT_SCHEMA) ->
  correctionStep st (assignMatched filledSlots k userResponse m st).
Proof.
  intros Hk. destruct st as [updated mem]. unfold assignMatched.
  destruct m as [[m1 |] |]; try apply correctionStep_refl.
  destruct (m1 =? ""); [apply correctionStep_refl |].
  destruct (assignValue_set filledSlots updated k m1) as [v ->].
  rewrite get_set_same.
  destruct (strict_eq (Obj.get k updated) v).
  - eapply correctionStep_set; [now left | apply grows_refl].
  - eapply correctionStep_set; [now left | apply grows_save].
Qed.

Lemma naturalStep_step (filledSlots : FilledSlots) (userResponse k : string)
      (st : FilledSlots * InterviewMemory) :
  In k (Obj.keys SLOT_SCHEMA) ->
  correctionStep st (naturalStep filledSlots userResponse st k).
Proof.
  intros Hk. unfold naturalStep. cbv zeta.
  pose proof (assignMatched_step filledSlots k userResponse
                (naturalMatch k userResponse) st Hk) as H1.
  destruct (assignMatched filledSlots k userResponse
                          (naturalMatch k userResponse) st) as [u1 m1].
  cbn [fst snd].
  eapply correctionStep_trans; [exact H1 |].
  assert (Hknown : known k) by now left.
  destruct (saysSingle _ k); cbn [fst snd].
  - eapply correctionStep_trans;
      [eapply correctionStep_set; [exact Hknown | apply grows_save] |].
    destruct (saysMarried _ k); [| apply correctionStep_refl].
    cbn [fst snd]. eapply correctionStep_set; [exact Hknown | apply grows_save].
  - destruct (saysMarried _ k); [| apply correctionStep_refl].
    cbn [fst snd]. eapply correctionStep_set; [exact Hknown | apply grows_save].
Qed.

Lemma fold_left_step {B : Type}
      (f : FilledSlots * InterviewMemory -> B -> FilledSlots * InterviewMemory)
      (P : B -> Prop) (l : list B) :
  (forall st x, P x -> correctionStep st (f st x)) ->
  (forall x, In x l -> P x) ->
  forall st, correctionStep st (fold_left f l st).
Proof.
  intros Hf. induction l as [| x l IH]; intros HP st; cbn [fold_left].
  - apply correctionStep_refl.
  - eapply correctionStep_trans; [apply Hf, HP; now left |].
    apply IH. intros y Hy. apply HP. now right.
Qed.

(** The correction engine as a whole is a step. *)
Lemma applyCorrections_step (d : Delegates) (userResponse : string)
      (filledSlots : FilledSlots) (mem : InterviewMemory) :
  correctionStep (filledSlots, mem)
                 (applyCorrections d userResponse filledSlots mem).
Proof.
  unfold applyCorrections, patternFallback.
  set (st0 := match parsedCorrections d filledSlots userResponse with
              | Some corrections =>
                  let (updated, mem') :=
                    fold_left (applyParsed userResponse) corrections
                              ({| own := filledSlots; inherits := true |}, mem) in
                  (own updated, mem')
              | None => (filledSlots, mem)
              end).
  assert (H0 : correctionStep (filledSlots, mem) st0).
  { unfold st0.
    destruct (parsedCorrections d filledSlots userResponse) as [cs |];
      [| apply correctionStep_refl].
    pose proof (applyParsed_fold_step userResponse cs
                  {| own := filledSlots; inherits := true |} mem) as H.
    destruct (fold_left (applyParsed userResponse) cs
                        ({| own := filledSlots; inherits := true |}, mem))
      as [u m].
    exact H. }
  apply (correctionStep_trans _ _ _ H0).
  eapply correctionStep_trans.
  - apply (fold_left_step (strictStep filledSlots userResponse)
                          (fun k => In k (Obj.keys SLOT_SCHEMA)));
      [| intros x Hx; exact Hx].
    intros st k Hk. unfold strictStep. apply assignMatched_step. exact Hk.
  - apply (fold_left_step (naturalStep filledSlots userResponse)
                          (fun k => In k (Obj.keys SLOT_SCHEMA)));
      [| intros x Hx; exact Hx].
    intros st k Hk. now apply naturalStep_step.
Qed.

(** X11. The correction engine keeps every property of the slot map and
    adds none but under names the lookup of the schema finds: whatever the
    delegate proposes and whatever the utterance, the keys of the slot map
    it returns are those of the map it was given, in their order, followed
    by new keys each of which is a slot of the schema or a member of
    [Object.prototype]; what is stored under any other name is not touched;
    and the log only grows, by a question and a response for each
    interaction it counts.  A proposal of the delegate for [constructor] is
    applied, and adds that key. *)
Theorem applyCorrections_keeps_slots :
  forall (d : Delegates) (userResponse : string) (filledSlots : FilledSlots)
         (mem : InterviewMemory),
    let result := applyCorrections d userResponse filledSlots mem in
    (exists added,
        Obj.keys (fst result) = (Obj.keys filledSlots ++ added)%list
        /\ forall k, In k added ->
                     In k schemaNames \/ In k memberNames)
    /\ (exists n, grows mem (snd result) n)
    /\ (forall k, ~ (In k schemaNames \/ In k memberNames) ->
                  Obj.get k (fst result) = Obj.get k filledSlots)
    /\ applyCorrections memberDelegates "I gave the wrong year"
                        [("dob", VStr "02/03/1989")] mem
       = ([("dob", VStr "02/03/1990"); ("constructor", VStr "x")],
          logCorrection "constructor" "I gave the wrong year" (VStr "x")
            (logCorrection "dob" "I gave the wrong year" (VStr "02/03/1990") mem)).
Proof.
  intros d userResponse filledSlots mem result.
  destruct (applyCorrections_step d userResponse filledSlots mem)
    as (Hkeys & Hlog & Hrest).
  cbn [fst snd] in Hkeys, Hlog, Hrest. fold result in Hkeys, Hlog, Hrest.
  split; [exact Hkeys | split; [exact Hlog | split; [exact Hrest |]]].
  unfold applyCorrections.
  rewrite Corrections.patternFallback_no_match by (vm_compute; reflexivity).
  reflexivity.
Qed.

Lemma strict_eq_true (a : option JsValue) (v : JsValue) :
  strict_eq a v = true -> a = Some v.
Proof.
  destruct a as [[| x | x | x] |], v as [| y | y | y]; cbn; try discriminate.
  - reflexivity.
  - intros H. apply Bool.eqb_prop in H. now subst.
  - intros H. apply String.eqb_eq in H. now subst.
Qed.

(** The slot map after the loop over the parsed corrections, under a name
    that is not [__proto__]. *)
Lemma applyParsed_fold_get (userResponse : string) (k : string)
      (corrections : list (string * JsValue)) :
  k <> "__proto__" ->
  forall (updated : Updated) (mem : InterviewMemory),
    Obj.get k (own (fst (fold_left (applyParsed userResponse) corrections
                                   (updated, mem))))
    = match lastCorrection k corrections with
      | Some v => Some v
      | None => Obj.get k (own updated)
      end.
Proof.
  intros Hk updated mem. unfold lastCorrection.
  assert (Hfound : knownName k = isSome (slotEntry k)).
  { destruct (slotEntry k) as [e |] eqn:E; cbn [isSome];
      [eapply knownName_found; eauto | now apply knownName_missing]. }
  rewrite Hfound.
  induction corrections as [| [k' v] cs IH] using rev_ind.
  - cbn [fold_left fst]. now destruct (slotEntry k).
  - rewrite !fold_left_app. cbn [fold_left fst snd].
    destruct (fold_left (applyParsed userResponse) cs (updated, mem))
      as [u m] eqn:Est.
    cbn [fst] in IH. unfold applyParsed.
    assert (Hassign : forall w, Obj.get k (own (assignParsed k w u)) = Some w).
    { intros w. unfold assignParsed. destruct (inherits u); cbn [own].
      - rewrite get_assign_same. unfold assignable.
        apply String.eqb_neq in Hk. now rewrite Hk.
      - apply get_set_same. }
    assert (Hother : forall w, k' <> k ->
                       Obj.get k (own (assignParsed k' w u)) = Obj.get k (own u)).
    { intros w Hne. unfold assignParsed. destruct (inherits u); cbn [own].
      - apply get_assign_other. congruence.
      - apply get_set_other. congruence. }
    destruct (k' =? k) eqn:Ek.
    + apply String.eqb_eq in Ek. subst k'.
      destruct (slotEntry k); cbn [isSome] in *; [| exact IH].
      destruct (strict_eq (Obj.get k (own u)) v) eqn:Eq; cbn [fst].
      * now apply strict_eq_true.
      * apply Hassign.
    + assert (Hne : k' <> k) by now apply String.eqb_neq.
      destruct (slotEntry k'); [| exact IH].
      destruct (strict_eq (Obj.get k' (own u)) v); cbn [fst]; [exact IH |].
      rewrite Hother by exact Hne. exact IH.
Qed.

(** X12. The corrections of the delegate.  When the utterance matches no
    pattern of the fallback, the slot map the correction engine returns
    holds, under each name the lookup of the schema finds and the delegate
    has proposed values for, the last value proposed, and under every other
    name what the given map held: a proposal is applied for a slot of the
    schema and for a member of [Object.prototype] alike, and has no effect
    for a name the lookup does not find.  The name [__proto__] is left
    out: an assignment to it goes to the setter of the prototype. *)
Theorem delegate_corrections_applied :
  forall (d : Delegates) (userResponse : string) (filledSlots : FilledSlots)
         (mem : InterviewMemory) (corrections : list (string * JsValue)),
    parsedCorrections d filledSlots userResponse = Some corrections ->
    matchesNoSlotPattern userResponse = true ->
    forall k,
      k <> "__proto__" ->
      Obj.get k (fst (applyCorrections d userResponse filledSlots mem))
      = match lastCorrection k corrections with
        | Some v => Some v
        | None => Obj.get k filledSlots
        end.
Proof.
  intros d userResponse filledSlots mem corrections Hd Hp k Hk.
  unfold applyCorrections. rewrite Hd.
  rewrite Corrections.patternFallback_no_match by exact Hp.
  pose proof (applyParsed_fold_get userResponse k corrections Hk
                {| own := filledSlots; inherits := true |} mem) as H.
  destruct (fold_left (applyParsed userResponse) corrections
                      ({| own := filledSlots; inherits := true |}, mem))
    as [u m].
  exact H.
Qed.

Lemma delegate_corrections_applied_witness :
  Obj.get "dob" (fst (applyCorrections revisingDelegates "I gave the wrong year"
                                       [("dob", VStr "02/03/1989")] clearMemory))
  = Some (VStr "02/03/1991")
  /\ Obj.get "age" (fst (applyCorrections revisingDelegates "I gave the wrong year"
                                          [("dob", VStr "02/03/1989")] clearMemory))
     = None
  /\ Obj.get "constructor"
       (fst (applyCorrections memberDelegates "I gave the wrong year"
                              [("dob", VStr "02/03/1989")] clearMemory))
     = Some (VStr "x").
Proof.
  split; [| split].
  - apply (delegate_corrections_applied revisingDelegates "I gave the wrong year"
             [("dob", VStr "02/03/1989")] clearMemory
             [("dob", VStr "02/03/1990"); ("age", VStr "33");
              ("dob", VStr "02/03/1991")] eq_refl).
    + vm_compute. reflexivity.
    + discriminate.
  - apply (delegate_corrections_applied revisingDelegates "I gave the wrong year"
             [("dob", VStr "02/03/1989")] clearMemory
             [("dob", VStr "02/03/1990"); ("age", VStr "33");
              ("dob", VStr "02/03/1991")] eq_refl).
    + vm_compute. reflexivity.
    + discriminate.
  - apply (delegate_corrections_applied memberDelegates "I gave the wrong year"
             [("dob", VStr "02/03/1989")] clearMemory
             [("dob", VStr "02/03/1990"); ("constructor", VStr "x")] eq_refl).
    + vm_compute. reflexivity.
    + discriminate.
Defined.

Lemma prefix_app_left (a b v : string) :
  prefix (a ++ b) v = true -> prefix a v = true.
Proof.
  revert v. induction a as [| c a IH]; intros v; [now destruct v |].
  destruct v as [| c' v]; cbn; [discriminate |].
  destruct (ascii_dec c c'); [apply IH | discriminate].
Qed.

(** X13. The coercion of a captured text.  A slot that does not look
    boolean (its name does not start with has_ or is_ and the given map
    holds no boolean for it) is given the trimmed text, never a boolean.
    For a slot that looks boolean the affirmative words are tried first, so
    that a text that starts with "without" starts with "with" and is stored
    as [true]; the negative word "without" can never apply. *)
Theorem assignValue_coercion :
  forall (filledSlots updated : FilledSlots) (slot val : string),
    (looksBoolean filledSlots slot = false ->
     assignValue filledSlots slot val updated
     = Obj.set slot (VStr (JsString.trim val)) updated)
    /\ (looksBoolean filledSlots slot = true ->
        prefix "without" (JsString.toLowerCase val) = true ->
        assignValue filledSlots slot val updated = Obj.set slot (VBool true) updated)
    /\ (forall b, Obj.get slot (assignValue filledSlots slot val updated)
                  = Some (VBool b) ->
                  looksBoolean filledSlots slot = true).
Proof.
  intros filledSlots updated slot val. unfold assignValue. split; [| split].
  - now intros ->.
  - intros -> H.
    assert (Hw : prefix "with" (JsString.toLowerCase val) = true)
      by exact (prefix_app_left "with" "out" _ H).
    unfold startsWithAny, affirmative. cbn [existsb andb].
    rewrite Hw, !orb_true_r. reflexivity.
  - intros b. destruct (looksBoolean filledSlots slot); [reflexivity |].
    cbn [andb]. rewrite get_set_same. discriminate.
Qed.
End CorrectionsMore.

(* ================================================================= *)
(** ** The hybrid path of a turn *)

Module HybridTurn.
Import DialogManager.

(** The filter of the router takes nothing from the merge. *)
Lemma accepted_after_filter (l : list Extraction) :
  filter accepted (filter (fun ext => confident (confidence ext)) l)
  = filter accepted l.
Proof.
  induction l as [| e l IH]; [reflexivity |]. cbn [filter].
  destruct (confident (confidence e)) eqn:Ec; cbn [filter].
  - now rewrite IH.
  - assert (Ha : accepted e = false)
      by (unfold accepted; rewrite Ec; apply andb_false_r).
    rewrite Ha. exact IH.
Qed.

Lemma mergeSlots_after_filter (l : list Extraction) (fs : FilledSlots) :
  fold_left mergeSlots (filter (fun ext => confident (confidence ext)) l) fs
  = fold_left mergeSlots l fs.
Proof.
  revert fs. induction l as [| e l IH]; intros fs; [reflexivity |].
  cbn [filter fold_left].
  destruct (confident (confidence e)) eqn:Ec; cbn [fold_left].
  - apply IH.
  - assert (Ha : mergeSlots fs e = fs)
      by (unfold mergeSlots, accepted; rewrite Ec, andb_false_r; reflexivity).
    rewrite Ha. apply IH.
Qed.

(** X14. The hybrid path.  When the router answers [extract] for a slot of
    the schema, the turn depends on the candidates of the extraction that
    pass the validation with confidence 0.7 or more.  With none the turn is
    a reprompt with the clarification question.  With one or more the turn
    succeeds, whether or not one of them is for the current slot: it
    returns these candidates, in their order, and the given slot map with
    their values written, the last one for a slot winning, and the question
    that [getNextQuestion] has for that map.  A value is written under
    every name that can be assigned, which leaves out [__proto__] alone,
    and only when the map does not have it as an own property. *)
Theorem hybrid_extract_turn :
  forall (d : Delegates) (currentSlot userResponse : string)
         (filledSlots : FilledSlots) (mem : InterviewMemory) (cfg : SlotConfig),
    Obj.get currentSlot SLOT_SCHEMA = Some cfg ->
    routerDecision d currentSlot userResponse = Some Extract ->
    let offered := extractMultipleSlots d userResponse currentSlot in
    let kept := filter accepted offered in
    let merged := fold_left mergeSlots offered filledSlots in
    let result := processResponse d true currentSlot userResponse filledSlots mem in
    (kept = [] ->
     fst result
     = Reprompt (Some (generateClarificationQuestion d currentSlot userResponse)) true)
    /\ (kept <> [] ->
        exists next,
          getNextQuestion merged = Some next
          /\ fst result = Success merged (Some kept) next)
    /\ (forall k, Obj.get k merged
                  = match lastAccepted k offered with
                    | Some v => if assignable k filledSlots then Some v else None
                    | None => Obj.get k filledSlots
                    end).
Proof.
  intros d currentSlot userResponse filledSlots mem cfg Hcfg Hr
         offered kept merged result.
  assert (Hres :
    fst result
    = match kept with
      | [] => Reprompt (Some (generateClarificationQuestion d currentSlot userResponse)) true
      | _ :: _ =>
          match getNextQuestion merged with
          | Some next => Success merged (Some kept) next
          | None => Thrown
          end
      end).
  { unfold result, processResponse, routeUserResponse.
    rewrite (slotEntry_slot _ _ Hcfg), Hr. cbn [action extractions].
    pose proof (merge_result
                  (filter (fun ext => confident (confidence ext)) offered)
                  filledSlots mem) as (H1 & _ & H3).
    fold offered.
    destruct (processMultipleExtractions
                (filter (fun ext => confident (confidence ext)) offered)
                filledSlots mem) as [multiResult mem1].
    cbn [fst] in H1, H3.
    rewrite accepted_after_filter in H1. rewrite mergeSlots_after_filter in H3.
    fold kept in H1. fold merged in H3. rewrite H1, H3.
    destruct kept as [| first rest]; [reflexivity |].
    destruct (TurnController.getNextQuestion_total merged) as [q Hq].
    rewrite Hq. reflexivity. }
  split; [| split].
  - intros Hk. rewrite Hres, Hk. reflexivity.
  - intros Hk. destruct (TurnController.getNextQuestion_total merged) as [q Hq].
    exists q. split; [exact Hq |]. rewrite Hres, Hq.
    destruct kept; [contradiction | reflexivity].
  - intros k. apply mergeSlots_get.
Qed.

Lemma hybrid_extract_turn_witness :
  exists next,
    getNextQuestion (fold_left mergeSlots sampleCandidates [])
    = Some next
    /\ fst (processResponse (extractingDelegates sampleCandidates) true
                            "dob" "Jane Doe, no partner, headache and nausea"
                            [] clearMemory)
       = Success (fold_left mergeSlots sampleCandidates [])
                 (Some (filter accepted sampleCandidates)) next.
Proof.
  assert (Hcfg : Obj.get "dob" SLOT_SCHEMA
                 = Some {| id := "dob"; question := "What is your date of birth?";
                           slot := "dob"; required := true;
                           branches := []; next_default := Some "has_partner" |})
    by reflexivity.
  refine (proj1 (proj2 (hybrid_extract_turn (extractingDelegates sampleCandidates)
                          "dob" "Jane Doe, no partner, headache and nausea"
                          [] clearMemory _ Hcfg eq_refl)) _).
  vm_compute. discriminate.
Defined.
End HybridTurn.

(* ================================================================= *)
(** ** The memory *)

Module MemoryFacts.
Import DialogManager Memory.

(** The slots of a log that continues another. *)
Lemma getFilledSlots_app (m : InterviewMemory) (added : list Message) (n : nat) :
  getFilledSlots {| messages := (messages m ++ added)%list; interactionCount := n |}
  = fold_left recordSlot (filter fillsSlot added) (getFilledSlots m).
Proof.
  unfold getFilledSlots. cbn [messages].
  now rewrite filter_app, fold_left_app.
Qed.

Lemma replay_values (l : list Message) (k : string) (v : JsValue) :
  Obj.get k (fold_left recordSlot (filter fillsSlot l) []) = Some v ->
  falsy v = false /\ k <> "" /\ exists content, In (HumanMessage content v k) l.
Proof.
  induction l as [| msg l IH] using rev_ind; [discriminate |].
  rewrite filter_app, fold_left_app. cbn [filter].
  assert (Hold : Obj.get k (fold_left recordSlot (filter fillsSlot l) []) = Some v ->
                 falsy v = false /\ k <> ""
                 /\ exists content, In (HumanMessage content v k) (l ++ [msg])).
  { intros H. destruct (IH H) as (Hf & Hk & content & Hin).
    repeat split; auto. exists content. apply in_or_app. now left. }
  destruct (fillsSlot msg) eqn:E; cbn [fold_left]; [| exact Hold].
  destruct msg as [content | content v' k']; cbn [recordSlot fillsSlot] in *;
    [discriminate |].
  apply andb_true_iff in E. destruct E as [Ek Ev].
  apply negb_true_iff in Ek, Ev. apply String.eqb_neq in Ek.
  destruct (String.eqb_spec k' k) as [-> | Hne].
  - rewrite get_assign_same.
    destruct (assignable k _); [| discriminate].
    intros [= <-]. repeat split; auto.
    exists content. apply in_or_app. right. now left.
  - rewrite get_assign_other by congruence. exact Hold.
Qed.

(** X15. The slots read back from the log.  An interaction saved with a
    slot name and a truthy value assigns that value to the slot in
    [getFilledSlots]; an interaction saved without slot name, or with the
    value [null], [false] or the empty string, changes nothing.  So every
    value [getFilledSlots] holds is truthy and is the value of a response
    of the log for that slot: the answer [false] is never read back. *)
Theorem getFilledSlots_reads_truthy_values :
  (forall (question : option string) (userResponse : string) (v : JsValue)
          (k : string) (m : InterviewMemory),
      getFilledSlots (saveInteraction question userResponse v k m)
      = if negb (k =? "") && negb (falsy v)
        then Obj.assign k v (getFilledSlots m)
        else getFilledSlots m)
  /\ (forall (m : InterviewMemory) (k : string) (v : JsValue),
         Obj.get k (getFilledSlots m) = Some v ->
         falsy v = false /\ k <> ""
         /\ exists content, In (HumanMessage content v k) (messages m)).
Proof.
  split.
  - intros question userResponse v k m. unfold saveInteraction.
    rewrite getFilledSlots_app. cbn [filter fillsSlot].
    now destruct (negb (k =? "") && negb (falsy v)).
  - intros m k v. apply replay_values.
Qed.

Lemma accepted_named (e : Extraction) :
  accepted e = true -> (slotName e =? "") = false.
Proof.
  unfold accepted. intros H. apply andb_true_iff in H. destruct H as [H _].
  apply MergeMore.valid_storable in H. destruct H as [H _].
  apply String.eqb_neq. intros E. rewrite E in H.
  unfold known, schemaNames, memberNames in H.
  cbn in H. intuition discriminate.
Qed.

Lemma assignable_recordSlot (k : string) (l : list Message) :
  forall base, assignable k (fold_left recordSlot l base) = assignable k base.
Proof.
  induction l as [| msg l IH]; intros base; cbn [fold_left]; [reflexivity |].
  rewrite IH. destruct msg as [content | content v' k']; cbn [recordSlot];
    [reflexivity | apply assignable_assign].
Qed.

(** The slots read back from the log of a merge. *)
Lemma merge_replay (candidates : list Extraction) (base : FilledSlots) (k : string) :
  Obj.get k (fold_left recordSlot
               (filter fillsSlot (flat_map mergeMessages (filter accepted candidates)))
               base)
  = match lastAccepted k (truthyCandidates candidates) with
    | Some v => if assignable k base then Some v else None
    | None => Obj.get k base
    end.
Proof.
  unfold lastAccepted, truthyCandidates.
  induction candidates as [| e es IH] using rev_ind; [reflexivity |].
  rewrite !filter_app, flat_map_app, filter_app, !fold_left_app.
  cbn [filter].
  destruct (accepted e) eqn:Ea.
  - cbn [flat_map mergeMessages mergeExchange exchangeMessages app filter fillsSlot].
    rewrite (accepted_named e Ea). cbn [negb andb].
    destruct (falsy (value e)); cbn [negb fold_left recordSlot].
    + exact IH.
    + rewrite Ea. cbn [andb].
      destruct (String.eqb_spec (slotName e) k) as [-> | Hne].
      * rewrite get_assign_same. now rewrite assignable_recordSlot.
      * rewrite get_assign_other by congruence. exact IH.
  - cbn [flat_map filter fold_left].
    destruct (negb (falsy (value e))); cbn [fold_left]; [| exact IH].
    rewrite Ea. cbn [andb]. exact IH.
Qed.

(** X16. The slots read back after a merge.  Under each name that can be
    assigned (every name but [__proto__] when it is no own property),
    [getFilledSlots] holds after the merge the value of the last accepted
    candidate for the slot whose value is truthy, and what it held before
    when there is none; the slot map the merge returns holds the value of
    the last accepted candidate, truthy or not.  An accepted answer [false]
    is thus in the slot map and not in the slots of the log. *)
Theorem merge_log_reads_back :
  forall (candidates : list Extraction) (filledSlots : FilledSlots)
         (mem : InterviewMemory) (k : string),
    let result := processMultipleExtractions candidates filledSlots mem in
    Obj.get k (getFilledSlots (snd result))
    = match lastAccepted k (truthyCandidates candidates) with
      | Some v => if assignable k (getFilledSlots mem) then Some v else None
      | None => Obj.get k (getFilledSlots mem)
      end
    /\ Obj.get k (updatedSlots (fst result))
       = match lastAccepted k candidates with
         | Some v => if assignable k filledSlots then Some v else None
         | None => Obj.get k filledSlots
         end.
Proof.
  intros candidates filledSlots mem k result. split.
  - unfold result, processMultipleExtractions.
    rewrite MergeMore.merge_fold_log, getFilledSlots_app.
    apply merge_replay.
  - destruct (merge_result candidates filledSlots mem) as (_ & _ & H).
    fold result in H. rewrite H. apply mergeSlots_get.
Qed.

Lemma grows_transcript (m m' : InterviewMemory) (n : nat) :
  grows m m' n -> transcript m -> transcript m'.
Proof.
  intros (added & Hm & Hl & Hc) (exchanges & Hx & Hn).
  exists (exchanges ++ added)%list.
  rewrite Hm, Hx, flat_map_app, length_app. split; [reflexivity | lia].
Qed.

Lemma processResponse_logs (d : Delegates) (hybridMode : bool)
      (currentSlot userResponse : string) (filledSlots : FilledSlots)
      (mem : InterviewMemory) :
  exists n,
    grows mem (snd (processResponse d hybridMode currentSlot userResponse
                                    filledSlots mem)) n.
Proof.
  unfold processResponse.
  destruct (slotEntry currentSlot) as [cfg |];
    [| exists 0; apply grows_refl].
  assert (Hstd : forall m n, grows mem m n ->
             exists p, grows mem (snd (standardProcessing d cfg currentSlot
                                         userResponse filledSlots m)) p).
  { intros m n Hm.
    destruct (TurnMore.standardProcessing_grows d cfg currentSlot userResponse
                                                filledSlots m) as [Hg _].
    exists (n + 1). eapply grows_trans; eauto. }
  destruct hybridMode; [| apply (Hstd mem 0), grows_refl].
  destruct (action (routeUserResponse d currentSlot userResponse));
    [| apply (Hstd mem 0), grows_refl | exists 1; apply grows_save].
  pose proof (TurnMore.merge_grows
                (extractions (routeUserResponse d currentSlot userResponse))
                filledSlots mem) as Hm.
  destruct (processMultipleExtractions _ filledSlots mem) as [multiResult mem1].
  cbn [fst snd] in Hm.
  destruct (successfulExtractions multiResult) as [| first rest].
  - eexists. cbn [snd]. eapply grows_step. exact Hm.
  - destruct (getNextQuestion (updatedSlots multiResult)).
    + eexists. cbn [snd]. eapply grows_step. exact Hm.
    + eapply Hstd. eapply grows_step. exact Hm.
Qed.

Lemma handle_transcript (m : InterviewMemory) (ev : Event) :
  transcript m -> transcript (handle m ev).
Proof.
  intros Hm. destruct ev as [d hybridMode body | d userResponse filledSlots |];
    cbn [handle].
  - unfold Server.interviewNext.
    destruct (or_null (Server.currentSlot body)) as [cur |].
    + destruct (processResponse_logs d hybridMode cur (Server.response body)
                                     (Server.filledSlots body) m) as [n Hn].
      destruct (processResponse d hybridMode cur (Server.response body)
                                (Server.filledSlots body) m) as [result m'].
      cbn [snd] in Hn.
      assert (Ht : transcript m') by (eapply grows_transcript; eauto).
      now destruct result.
    + now destruct (getNextQuestion []).
  - destruct (CorrectionsMore.applyCorrections_step d userResponse filledSlots m)
      as (_ & (n & Hn) & _).
    cbn [snd] in Hn. eapply grows_transcript; eauto.
  - exists []. split; reflexivity.
Qed.

(** X17. The log is a transcript.  Whatever requests are posted to
    [/api/interview-next], under whatever setting of the hybrid mode and
    whatever the model answers, whatever corrections are applied and however
    often the session is reset, the memory holds a sequence of exchanges, a
    question of the interviewer followed by a response of the patient each,
    and counts them: [getStats] reports twice as many messages as
    interactions. *)
Theorem session_log_is_transcript :
  forall (events : list Event),
    transcript (session events)
    /\ totalMessages (getStats (session events))
       = 2 * totalInteractions (getStats (session events)).
Proof.
  intros events.
  assert (H : transcript (session events)).
  { unfold session.
    assert (H0 : transcript clearMemory) by (exists []; split; reflexivity).
    revert H0. generalize clearMemory.
    induction events as [| ev evs IH]; intros m Hm; cbn [fold_left];
      [exact Hm |].
    apply IH. now apply handle_transcript. }
  split; [exact H |].
  destruct H as (exchanges & Hx & Hn). unfold getStats.
  cbn [totalMessages totalInteractions]. rewrite Hx, Hn. clear Hx Hn.
  induction exchanges as [| [[[q u] v] k] xs IH]; [reflexivity |].
  cbn [flat_map exchangeMessages List.length app]. rewrite IH. lia.
Qed.
End MemoryFacts.

(* ================================================================= *)
(** ** The post-processing of the router and the skip rules *)

Module RouterFacts.
Import JsString DialogManager RouterChain ContextChain.

Lemma prefix_includes (needle hay : string) :
  prefix needle hay = true -> includes needle hay = true.
Proof. intros H. destruct hay; cbn [includes]; now rewrite H. Qed.

Lemma includes_tail (needle hay : string) (c : ascii) :
  includes needle hay = true -> includes needle (String c hay) = true.
Proof. intros H. cbn [includes]. rewrite H. apply orb_true_r. Qed.

Lemma prefix_app_includes (a b hay : string) :
  prefix (a ++ b) hay = true -> includes b hay = true.
Proof.
  revert hay. induction a as [| c a IH]; intros hay.
  - apply prefix_includes.
  - destruct hay as [| c' hay]; cbn [append prefix]; [discriminate |].
    destruct (ascii_dec c c'); [| discriminate].
    intros H. apply includes_tail. now apply IH.
Qed.

(** A text that includes a word includes the end of the word. *)
Lemma includes_app (a b hay : string) :
  includes (a ++ b) hay = true -> includes b hay = true.
Proof.
  induction hay as [| c hay IH]; intros H.
  - cbn [includes] in H. rewrite orb_false_r in H.
    now apply prefix_app_includes in H.
  - cbn [includes] in H. apply orb_true_iff in H. destruct H as [H | H].
    + now apply prefix_app_includes in H.
    + apply (includes_tail b hay c). now apply IH.
Qed.

Section PostProcessingFacts.
Variable birthYear : option string -> string.
Variable userResponse : string.

Lemma convertAge_other (e : Extraction) :
  slotName e <> "dob" -> convertAge birthYear userResponse e = e.
Proof.
  intros H. unfold convertAge. destruct (value e); try reflexivity.
  destruct (String.eqb_spec (slotName e) "dob"); [contradiction | reflexivity].
Qed.

Lemma inferPartner_other (e : Extraction) :
  slotName e <> "has_partner" -> inferPartner userResponse e = e.
Proof.
  intros H. unfold inferPartner. destruct (value e); try reflexivity.
  destruct (String.eqb_spec (slotName e) "has_partner");
    [contradiction | reflexivity].
Qed.

Lemma postProcess_frame (e : Extraction) :
  slotName (postProcess birthYear userResponse e) = slotName e
  /\ confidence (postProcess birthYear userResponse e) = confidence e.
Proof.
  unfold postProcess.
  assert (H1 : slotName (convertAge birthYear userResponse e) = slotName e
               /\ confidence (convertAge birthYear userResponse e) = confidence e).
  { unfold convertAge. destruct (value e); auto.
    destruct (slotName e =? "dob"); auto.
    destruct (Regex.exec true ageRegex userResponse); auto. }
  destruct H1 as [<- <-]. generalize (convertAge birthYear userResponse e).
  intros x. unfold inferPartner. destruct (value x); auto.
  destruct (slotName x =? "has_partner"); auto.
  cbv zeta. destruct (existsb _ marriedKeywords); auto.
  destruct (existsb _ singleKeywords); auto.
Qed.

(** X18. The post-processing of [extractMultipleSlots].  It returns as
    many extractions as were parsed, with their slot names and confidences,
    and none when the parsing fails; an extraction whose value is no string
    is returned as it is.  For [has_partner] with a string value the married
    key words are tried first: a response that says "unmarried" says
    "married", so the value becomes [true]; the value becomes [false] only
    for a response with "single", "divorced" or "widowed" and none of the
    married key words, "partner" among them. *)
Theorem extraction_postprocessing :
  (forall parsed : option (list Extraction),
      let result := processedExtractions birthYear userResponse parsed in
      let given := match parsed with Some l => l | None => [] end in
      map slotName result = map slotName given
      /\ map confidence result = map confidence given)
  /\ (forall e : Extraction,
         (forall s, value e <> VStr s) ->
         postProcess birthYear userResponse e = e)
  /\ (forall (e : Extraction) (s : string),
         slotName e = "has_partner" -> value e = VStr s ->
         includes "unmarried" (toLowerCase userResponse) = true ->
         value (postProcess birthYear userResponse e) = VBool true)
  /\ (forall (e : Extraction) (s : string),
         value e = VStr s ->
         value (postProcess birthYear userResponse e) = VBool false ->
         slotName e = "has_partner"
         /\ existsb (fun keyword => includes keyword (toLowerCase userResponse))
                    ["single"; "divorced"; "widowed"] = true
         /\ existsb (fun keyword => includes keyword (toLowerCase userResponse))
                    marriedKeywords = false).
Proof.
  split; [| split; [| split]].
  - intros [l |]; cbn [processedExtractions]; [| split; reflexivity].
    rewrite !map_map. split; apply map_ext; intros e; apply postProcess_frame.
  - intros e H. unfold postProcess, convertAge, inferPartner.
    destruct (value e) as [| b | s | l] eqn:E; try (rewrite E; reflexivity).
    now destruct (H s).
  - intros e s Hk Hv Hu. unfold postProcess.
    rewrite convertAge_other by (rewrite Hk; discriminate).
    unfold inferPartner. rewrite Hv, Hk. cbn [String.eqb Ascii.eqb Bool.eqb].
    cbv zeta.
    assert (Hm : includes "married" (toLowerCase userResponse) = true)
      by exact (includes_app "un" "married" _ Hu).
    unfold marriedKeywords. cbn [existsb]. rewrite Hm. reflexivity.
  - intros e s Hv. unfold postProcess.
    destruct (String.eqb_spec (slotName e) "has_partner") as [Hk | Hk].
    + rewrite convertAge_other by (rewrite Hk; discriminate).
      unfold inferPartner. rewrite Hv, Hk. cbn [String.eqb Ascii.eqb Bool.eqb].
      cbv zeta.
      destruct (existsb _ marriedKeywords) eqn:Em; [discriminate |].
      destruct (existsb _ singleKeywords) eqn:Es;
        [| rewrite Hv; discriminate].
      intros _. split; [reflexivity |]. split; [| reflexivity].
      unfold singleKeywords in Es. cbn [existsb] in Es |- *.
      destruct (includes "single" _); [reflexivity |].
      destruct (includes "unmarried" (toLowerCase userResponse)) eqn:Eu;
        [| exact Es].
      apply (includes_app "un" "married") in Eu.
      unfold marriedKeywords in Em. cbn [existsb] in Em.
      rewrite Eu in Em. discriminate.
    + rewrite inferPartner_other.
      * unfold convertAge. rewrite Hv.
        destruct (slotName e =? "dob"); [| rewrite Hv; discriminate].
        destruct (Regex.exec true ageRegex userResponse);
          [discriminate | rewrite Hv; discriminate].
      * destruct (postProcess_frame e) as [_ _].
        unfold convertAge. destruct (value e); auto.
        destruct (slotName e =? "dob"); auto.
        destruct (Regex.exec true ageRegex userResponse); auto.
Qed.

(** X19. A date of birth converted from an age is skipped.  When the
    response states an age ("... years old"), a string value extracted for
    [dob] is replaced by the first of January of the year computed, and with
    that value in the slot map [shouldSkipSlot] tells to skip [dob]. *)
Theorem converted_age_is_skipped :
  forall (e : Extraction) (s : string) (ageMatch1 : option string)
         (filledSlots : FilledSlots),
    slotName e = "dob" -> value e = VStr s ->
    Regex.exec true ageRegex userResponse = Some ageMatch1 ->
    value (postProcess birthYear userResponse e)
    = VStr ("01/01/" ++ birthYear ageMatch1)
    /\ shouldSkipSlot "dob"
         (Obj.set "dob" (value (postProcess birthYear userResponse e)) filledSlots)
       = Returns (Some (VBool true)).
Proof.
  intros e s ageMatch1 filledSlots Hk Hv Hm.
  assert (H : value (postProcess birthYear userResponse e)
              = VStr ("01/01/" ++ birthYear ageMatch1)).
  { unfold postProcess. rewrite inferPartner_other.
    - unfold convertAge. rewrite Hv, Hk, Hm. reflexivity.
    - unfold convertAge. rewrite Hv, Hk, Hm, String.eqb_refl.
      cbn [withValue slotName]. rewrite Hk. discriminate. }
  split; [exact H |]. rewrite H. unfold shouldSkipSlot.
  assert (Hi : includes "01/01/" ("01/01/" ++ birthYear ageMatch1) = true).
  { apply prefix_includes. cbn [append prefix].
    repeat (destruct (ascii_dec _ _); [| congruence]).
    now destruct (birthYear ageMatch1). }
  cbn [existsb partnerSlots orb].
  change (existsb (String.eqb "dob") []) with false.
  replace ("dob" =? "partner_first_name") with false by reflexivity.
  replace ("dob" =? "partner_last_name") with false by reflexivity.
  replace ("dob" =? "partner_dob") with false by reflexivity.
  replace ("dob" =? "partner_sex_at_birth") with false by reflexivity.
  replace ("dob" =? "partner_gender_identity") with false by reflexivity.
  replace ("dob" =? "partner_pronouns") with false by reflexivity.
  replace ("dob" =? "partner_prior_children") with false by reflexivity.
  replace ("dob" =? "partner_children_details") with false by reflexivity.
  cbn [orb]. rewrite String.eqb_refl, get_set_same.
  assert (Hf : falsy (VStr ("01/01/" ++ birthYear ageMatch1)) = false)
    by reflexivity.
  rewrite Hf, Hi. reflexivity.
Qed.
End PostProcessingFacts.

Lemma converted_age_is_skipped_witness :
  value (postProcess (fun _ => "1991") "I am 35 years old"
                     {| slotName := "dob"; value := VStr "35";
                        confidence := 0.9 |})
  = VStr "01/01/1991"
  /\ shouldSkipSlot "dob"
       (Obj.set "dob"
          (value (postProcess (fun _ => "1991") "I am 35 years old"
                              {| slotName := "dob"; value := VStr "35";
                                 confidence := 0.9 |}))
          [("full_name", VStr "Jane Doe")])
     = Returns (Some (VBool true)).
Proof.
  exact (converted_age_is_skipped (fun _ => "1991") "I am 35 years old"
           {| slotName := "dob"; value := VStr "35"; confidence := 0.9 |}
           "35" (Some "35") [("full_name", VStr "Jane Doe")]
           eq_refl eq_refl eq_refl).
Defined.

Lemma single_slot_success (d : Delegates) (currentSlot userResponse : string)
      (filledSlots slots : FilledSlots) (mem : InterviewMemory)
      (extracted : option (list Extraction)) (next : NextQuestion) :
  fst (processResponse d false currentSlot userResponse filledSlots mem)
  = Success slots extracted next ->
  exists v, slots = Obj.set currentSlot v filledSlots /\ falsy v = false.
Proof.
  unfold processResponse.
  destruct (slotEntry currentSlot) as [cfg |]; [| discriminate].
  unfold standardProcessing.
  destruct (falsy (extractSlotValue d cfg currentSlot userResponse)) eqn:Ef;
    [discriminate |].
  destruct (negb _); [discriminate |].
  destruct (getNextQuestion _); [| discriminate].
  cbn [fst]. intros [= <- _ _]. eauto.
Qed.

(** X20. A single-slot turn never makes a partner question skippable:
    with hybrid mode off, when [shouldSkipSlot] tells to skip a partner slot
    in the slot map a successful turn returns, it told so in the slot map
    the turn was given, and the turn was not for [has_partner].  The answer
    to [has_partner] is stored as a truthy value, "no" for instance, never
    as the [false] the skip rules look for. *)
Theorem single_slot_turn_skips_no_partner_slot :
  forall (d : Delegates) (currentSlot userResponse : string)
         (filledSlots slots : FilledSlots) (mem : InterviewMemory)
         (extracted : option (list Extraction)) (next : NextQuestion)
         (partnerSlot : string),
    fst (processResponse d false currentSlot userResponse filledSlots mem)
    = Success slots extracted next ->
    In partnerSlot partnerSlots ->
    shouldSkipSlot partnerSlot slots = Returns (Some (VBool true)) ->
    currentSlot <> "has_partner"
    /\ shouldSkipSlot partnerSlot filledSlots = Returns (Some (VBool true)).
Proof.
  intros d currentSlot userResponse filledSlots slots mem extracted next
         partnerSlot Hs Hp.
  destruct (single_slot_success _ _ _ _ _ _ _ _ Hs) as (v & -> & Hv).
  assert (Hin : existsb (String.eqb partnerSlot) partnerSlots = true).
  { apply existsb_exists. exists partnerSlot. split; [exact Hp |].
    apply String.eqb_refl. }
  unfold shouldSkipSlot. rewrite Hin.
  destruct (String.eqb_spec currentSlot "has_partner") as [-> | Hne].
  - rewrite get_set_same. destruct v as [| [|] | |]; cbn in Hv |- *;
      discriminate.
  - rewrite get_set_other by congruence. intros H. split; [exact Hne | exact H].
Qed.

Lemma single_slot_turn_skips_no_partner_slot_witness :
  "dob" <> "has_partner"
  /\ shouldSkipSlot "partner_dob" [("has_partner", VBool false)]
     = Returns (Some (VBool true)).
Proof.
  assert (H : fst (processResponse silentDelegates false "dob" "Yes"
                                   [("has_partner", VBool false)] clearMemory)
              = Success [("has_partner", VBool false); ("dob", VStr "yes")]
                        None (SlotQuestion "full_name" "What is your full name?"))
    by (vm_compute; reflexivity).
  exact (single_slot_turn_skips_no_partner_slot silentDelegates "dob" "Yes"
           [("has_partner", VBool false)] _ clearMemory None _ "partner_dob"
           H (or_intror (or_intror (or_introl eq_refl))) eq_refl).
Defined.

(** X29. The slots the model is told about.  The prompt of the multiple
    extraction describes the key slots and the current slot.  [full_name]
    is no key slot ([first_name] and [last_name] are, which the schema does
    not have): on the schema of the program the prompt describes [dob],
    [has_partner], [chief_complaint] and [months_ttc], and [full_name] only
    when it is the current slot.  The prompt of the router describes all
    five. *)
Theorem extraction_prompt_slots :
  forall (currentSlot : string),
    Obj.keys (describedSlots SLOT_SCHEMA currentSlot)
    = ((if currentSlot =? "full_name" then ["full_name"] else [])
       ++ ["dob"; "has_partner"; "chief_complaint"; "months_ttc"])%list
    /\ includes "full_name" (slotContext SLOT_SCHEMA currentSlot)
       = (currentSlot =? "full_name")
    /\ includes "full_name" (slotsContext SLOT_SCHEMA) = true.
Proof.
  intros currentSlot.
  assert (Hd : describedSlots SLOT_SCHEMA currentSlot
               = ((if currentSlot =? "full_name"
                   then firstn 1 SLOT_SCHEMA else [])
                  ++ skipn 1 SLOT_SCHEMA)%list).
  { unfold describedSlots. rewrite SLOT_SCHEMA_entries.
    unfold SLOT_SCHEMA. cbn [filter fst].
    replace (existsb (String.eqb "full_name") keySlots) with false by reflexivity.
    replace (existsb (String.eqb "dob") keySlots) with true by reflexivity.
    replace (existsb (String.eqb "has_partner") keySlots) with true by reflexivity.
    replace (existsb (String.eqb "chief_complaint") keySlots) with true
      by reflexivity.
    replace (existsb (String.eqb "months_ttc") keySlots) with true by reflexivity.
    cbn [orb firstn skipn]. rewrite (String.eqb_sym "full_name" currentSlot).
    now destruct (currentSlot =? "full_name"). }
  split; [| split].
  - rewrite Hd. now destruct (currentSlot =? "full_name").
  - unfold slotContext. rewrite Hd.
    destruct (currentSlot =? "full_name"); vm_compute; reflexivity.
  - vm_compute. reflexivity.
Qed.
End RouterFacts.

(* ================================================================= *)
(** ** The short cut for yes and no *)

Module ExtractFacts.
Import JsString DialogManager.

Lemma schema_config (k : string) (cfg : SlotConfig) :
  Obj.get k SLOT_SCHEMA = Some cfg ->
  branches cfg = []
  \/ branches cfg = [(".*fertility.*", "months_ttc");
                     (".*pregnant.*", "months_ttc");
                     (".*trying.*", "months_ttc")].
Proof.
  unfold SLOT_SCHEMA. cbn [Obj.get].
  repeat (match goal with
          | |- context [if ?b then _ else _] => destruct b
          end; [intros [= <-]; cbn [branches]; auto |]).
  discriminate.
Qed.

(** On the slots of the schema a word for yes or no finds no branch. *)
Lemma preprocessResponse_word (k : string) (cfg : SlotConfig)
      (userResponse word : string) :
  Obj.get k SLOT_SCHEMA = Some cfg ->
  In word ["yes"; "y"; "true"; "no"; "n"; "false"] ->
  trim (toLowerCase userResponse) = word ->
  preprocessResponse userResponse (Slot cfg)
  = if existsb (String.eqb word) ["yes"; "y"; "true"] then "yes" else "no".
Proof.
  intros Hcfg Hin Hw. unfold preprocessResponse. rewrite Hw. clear Hw.
  cbn [entryBranches].
  destruct (schema_config k cfg Hcfg) as [-> | ->];
    cbn [In] in Hin; intuition (subst word; reflexivity).
Qed.

(** X21. The short cut for yes and no.  For every slot of the schema, a
    response that is a word for yes ("yes", "y" or "true", in any case and
    between any white space) is stored as the string "yes", and a word for
    no as the string "no", without a call of the model; the short cut
    stores a string, never a boolean.  The response that is exactly "yes",
    or exactly "no", is the exception: the preprocessing returns it
    unchanged, so it is sent to the model like any other text, and it is
    stored only if the model extracts a value with confidence 0.7 or
    more. *)
Theorem yes_no_shortcut :
  forall (d : Delegates) (k : string) (cfg : SlotConfig) (userResponse : string),
    Obj.get k SLOT_SCHEMA = Some cfg ->
    let word := trim (toLowerCase userResponse) in
    let chain (text : string) :=
      match fst (extractionChain d k text) with
      | VNull => VNull
      | v => if confident (snd (extractionChain d k text)) then v else VNull
      end in
    (In word ["yes"; "y"; "true"] ->
     extractSlotValue d (Slot cfg) k userResponse
     = if userResponse =? "yes" then chain "yes" else VStr "yes")
    /\ (In word ["no"; "n"; "false"] ->
        extractSlotValue d (Slot cfg) k userResponse
        = if userResponse =? "no" then chain "no" else VStr "no").
Proof.
  intros d k cfg userResponse Hcfg word chain. split; intros Hin.
  - unfold extractSlotValue.
    rewrite (preprocessResponse_word k cfg userResponse word Hcfg);
      [| cbn [In] in *; intuition | reflexivity].
    assert (Hy : existsb (String.eqb word) ["yes"; "y"; "true"] = true).
    { apply existsb_exists. exists word. split; [exact Hin | apply String.eqb_refl]. }
    rewrite Hy. rewrite (String.eqb_sym "yes" userResponse).
    destruct (String.eqb_spec userResponse "yes") as [-> | Hne]; reflexivity.
  - unfold extractSlotValue.
    rewrite (preprocessResponse_word k cfg userResponse word Hcfg);
      [| cbn [In] in *; intuition | reflexivity].
    assert (Hn : existsb (String.eqb word) ["yes"; "y"; "true"] = false).
    { cbn [In] in Hin.
      destruct Hin as [H | [H | [H | []]]]; unfold word in H |- *;
        rewrite <- H; reflexivity. }
    rewrite Hn. rewrite (String.eqb_sym "no" userResponse).
    destruct (String.eqb_spec userResponse "no") as [-> | Hne]; reflexivity.
Qed.

Lemma yes_no_shortcut_witness :
  extractSlotValue silentDelegates
    (Slot {| id := "has_partner";
             question := "Do you have a partner who will be part of treatment? (yes/no)";
             slot := "has_partner"; required := true;
             branches := []; next_default := Some "chief_complaint" |})
    "has_partner" " No "
  = VStr "no".
Proof.
  exact (proj2 (yes_no_shortcut silentDelegates "has_partner" _ " No " eq_refl)
               (or_introl eq_refl)).
Defined.
End ExtractFacts.

(* ================================================================= *)
(** ** The questions of the schema *)

Module Questions.
Import JsString DialogManager SearchFacts.

Section Walk.
Variable matches : string -> string -> bool.
Variable slots : SlotGraph.
Variable filledSlots : FilledSlots.



End Walk.

Lemma branch_value_text (v : JsValue) :
  branch_value v = "" \/ branch_value v = toLowerCase (js_String v).
Proof. destruct v; cbn; auto. Qed.




End Questions.
(* ================================================================= *)
(** ** Strings *)

Module StringFacts.
Import JsString.

Lemma length_app (a b : string) :
  String.length (a ++ b) = String.length a + String.length b.
Proof. induction a as [| c a IH]; cbn; [reflexivity | now rewrite IH]. Qed.

Lemma app_assoc (a b c : string) : (a ++ b) ++ c = a ++ (b ++ c).
Proof. induction a as [| x a IH]; cbn; [reflexivity | now rewrite IH]. Qed.

Lemma app_empty_r (a : string) : a ++ "" = a.
Proof. induction a as [| x a IH]; cbn; [reflexivity | now rewrite IH]. Qed.

Lemma length_zero (a : string) : String.length a = 0 -> a = "".
Proof. destruct a; [reflexivity | discriminate]. Qed.

Lemma allChars_ext (p q : ascii -> bool) (w : string) :
  (forall c, p c = q c) -> allChars p w = allChars q w.
Proof.
  intros H. induction w as [| c w IH]; [reflexivity |].
  cbn [allChars]. now rewrite H, IH.
Qed.

Lemma allChars_weaken (p q : ascii -> bool) (w : string) :
  (forall c, p c = true -> q c = true) ->
  allChars p w = true -> allChars q w = true.
Proof.
  intros H. induction w as [| c w IH]; [reflexivity |].
  cbn [allChars]. intros Hw. apply andb_true_iff in Hw. destruct Hw as [Hc Hw].
  now rewrite (H c Hc), IH.
Qed.

Lemma allChars_filterChars (p : ascii -> bool) (s : string) :
  allChars p (filterChars p s) = true.
Proof.
  induction s as [| c s IH]; [reflexivity |]. cbn [filterChars].
  destruct (p c) eqn:E; [| exact IH]. cbn [allChars]. now rewrite E.
Qed.

(** The text between [s] and its end [s']. *)
Lemma consumed_app (a b : string) : Regex.consumed (a ++ b) b = a.
Proof.
  unfold Regex.consumed. rewrite length_app.
  replace (String.length a + String.length b - String.length b)
    with (String.length a) by lia.
  induction a as [| c a IH]; cbn [append String.length substring].
  - now destruct b.
  - now rewrite IH.
Qed.
End StringFacts.

(* ================================================================= *)
(** ** Anchored expressions and character classes *)

Module AnchoredFacts.
Import JsString Regex RegexOps RegexFacts StringFacts.

(** An expression between [^] and [$] tests whether it matches the whole
    input. *)
Lemma testAnchored_lang (icase : bool) (r : regex) (s : string) :
  boundaryFree r = true ->
  (testAnchored icase r s = true <-> lang icase r s "").
Proof.
  intros Hb. unfold testAnchored. split.
  - destruct (run icase r None s None _) as [x |] eqn:E; [| discriminate].
    intros _. destruct (run_sound icase r _ _ _ _ _ E) as (s' & p & c & Hl & Hk).
    destruct s'; [exact Hl | discriminate].
  - intros Hl.
    assert (H : run icase r None s None
                    (fun _ s' _ => if s' =? "" then Some tt else None) <> None)
      by (apply (run_complete icase r Hb None s ""); [exact Hl | discriminate]).
    now destruct (run icase r None s None _).
Qed.

Lemma in_allAscii (c : ascii) : In c allAscii.
Proof.
  unfold allAscii. rewrite <- (ascii_nat_embedding c).
  apply in_map, in_seq. pose proof (nat_ascii_bounded c). lia.
Qed.

(** A class holds the characters that pass its test. *)
Lemma class_matches (p : ascii -> bool) (c : ascii) :
  atom_matches false (class p) c = p c.
Proof.
  unfold class. cbn [atom_matches]. unfold char_eq.
  destruct (p c) eqn:E.
  - apply existsb_exists. exists c. split; [| apply Ascii.eqb_refl].
    apply filter_In. split; [apply in_allAscii | exact E].
  - destruct (existsb _ _) eqn:Ex; [| reflexivity].
    apply existsb_exists in Ex. destruct Ex as (x & Hx & Heq).
    apply Ascii.eqb_eq in Heq. subst x. apply filter_In in Hx.
    destruct Hx as [_ Hx]. congruence.
Qed.

Lemma digit_matches (c : ascii) :
  atom_matches false RouterChain.digit c = is_digit c.
Proof. destruct c as [[] [] [] [] [] [] [] []]; reflexivity. Qed.

Lemma char_matches (x c : ascii) :
  atom_matches false (AChar x) c = true <-> c = x.
Proof.
  cbn [atom_matches]. unfold char_eq. rewrite Ascii.eqb_eq. split; congruence.
Qed.

(** The removal of the matches of a one-character expression keeps the
    characters the expression does not match. *)
Lemma removeAll_atom (a : atom) (s : string) :
  forall prev,
    removeAll false (Atom a) 0 prev s
    = filterChars (fun c => negb (atom_matches false a c)) s.
Proof.
  induction s as [| c s IH]; intros prev; [reflexivity |].
  cbn [removeAll filterChars]. unfold matchAt. cbn [run].
  destruct (atom_matches false a c); cbn [negb].
  - replace (String.length (String c s) - String.length s) with 1
      by (cbn [String.length]; lia).
    apply IH.
  - now rewrite IH.
Qed.

Lemma removeAll_separator (s : string) :
  removeAll false ValidationChain.separator 0 None s = withoutSeparators s.
Proof.
  unfold ValidationChain.separator. rewrite removeAll_atom.
  unfold withoutSeparators. induction s as [| c s IH]; [reflexivity |].
  cbn [filterChars]. rewrite class_matches. fold (isSeparator c). now rewrite IH.
Qed.
End AnchoredFacts.
(* ================================================================= *)
(** ** The format rules *)

Module FormatFacts.
Import JsString Regex RegexOps RegexFacts StringFacts AnchoredFacts ValidationChain.

Lemma digits_matches (w : string) :
  allChars (atom_matches false digit) w = digits w.
Proof. apply allChars_ext, digit_matches. Qed.

Lemma plain_matches (w : string) :
  allChars (atom_matches false notSpaceNorAt) w = plain w.
Proof. apply allChars_ext. intros c. apply class_matches. Qed.

Lemma withoutSeparators_clean (s : string) :
  allChars (fun c => negb (isSeparator c)) (withoutSeparators s) = true.
Proof. apply allChars_filterChars. Qed.

(** A text without separators has no hyphen. *)
Lemma no_hyphen (a b : string) :
  allChars (fun c => negb (isSeparator c)) (a ++ String "-" b) = true -> False.
Proof.
  rewrite SearchFacts.allChars_app. cbn [allChars].
  replace (isSeparator "-") with true by reflexivity.
  cbn [negb andb]. rewrite andb_false_r. discriminate.
Qed.

Lemma lang_slashes (t : string) : lang false slashes t "" <-> slashDate t.
Proof.
  unfold slashes, slashDate. cbn [seq fold_right lang within]. split.
  - intros (m1 & (d & -> & Hd & Hd1 & Hd2)
            & m2 & (c1 & -> & Hc1)
            & m3 & (m & -> & Hm & Hm1 & Hm2)
            & m4 & (c2 & -> & Hc2)
            & m5 & (y & -> & Hy & Hy1 & Hy2) & He).
    apply char_matches in Hc1, Hc2. subst c1 c2 m5.
    rewrite digits_matches in Hd, Hm, Hy.
    exists d, m, y. rewrite app_empty_r. cbn [append].
    repeat split; auto; lia.
  - intros (d & m & y & -> & Hd & [Hd1 Hd2] & Hm & [Hm1 Hm2] & Hy & Hy4).
    exists ("/" ++ m ++ "/" ++ y). split.
    { exists d. rewrite digits_matches. auto. }
    exists (m ++ "/" ++ y). split.
    { exists "/"%char. split; [reflexivity | now apply char_matches]. }
    exists ("/" ++ y). split.
    { exists m. rewrite digits_matches. auto. }
    exists y. split.
    { exists "/"%char. split; [reflexivity | now apply char_matches]. }
    exists "". split; [| reflexivity].
    exists y. rewrite digits_matches, app_empty_r. repeat split; auto; lia.
Qed.

Lemma includes_char (c : ascii) (a b : string) :
  includes (String c "") (a ++ String c b) = true.
Proof.
  apply (SearchFacts.includes_suffix _ (String c b)); [now exists a |].
  cbn [prefix]. destruct (ascii_dec c c); [now destruct b | congruence].
Qed.

Lemma prefix_char (c x : ascii) (r : string) :
  prefix (String c "") (String x r) = Ascii.eqb c x.
Proof.
  cbn [prefix]. destruct (ascii_dec c x) as [-> | Hne].
  - rewrite Ascii.eqb_refl. now destruct r.
  - symmetry. now apply Ascii.eqb_neq.
Qed.

Lemma includes_filterChars (p : ascii -> bool) (c : ascii) (s : string) :
  includes (String c "") (filterChars p s) = true ->
  includes (String c "") s = true.
Proof.
  induction s as [| x s IH]; [auto |]. cbn [filterChars].
  destruct (p x).
  - cbn [includes]. rewrite !prefix_char. intros H.
    apply orb_true_iff in H. destruct H as [H | H].
    + now rewrite H.
    + rewrite (IH H). apply orb_true_r.
  - intros H. cbn [includes]. rewrite (IH H). apply orb_true_r.
Qed.

Lemma Some_true (b : bool) : Some b = Some true <-> b = true.
Proof. split; congruence. Qed.

(** X23. The format rule of a date of birth.  The separators (white space,
    hyphens and parentheses) are removed before the rule is tested, so of
    its three forms only the one with slashes can apply: a string is
    accepted for [dob] exactly when what is left of it is one or two digits,
    a slash, one or two digits, a slash and four digits.  A date without
    slash, 1990-05-17 for instance, is refused.  A value that is no string
    is accepted under any name, and a string is accepted under a name that
    is neither [email], [phone] nor [dob] nor a member of
    [Object.prototype].  Under the name of such a member, [constructor] for
    instance, the rule found is no regular expression and the call on a
    string throws a TypeError. *)
Theorem dob_format_rule :
  (forall s : string,
      quickFormatValidation "dob" (VStr s) = Some true
      <-> slashDate (withoutSeparators s))
  /\ (forall s : string,
         includes "/" s = false ->
         quickFormatValidation "dob" (VStr s) = Some false)
  /\ (forall (slotName : string) (v : JsValue),
         (~ In slotName ["email"; "phone"; "dob"]
          /\ ~ In slotName
                 ["constructor"; "__defineGetter__"; "__defineSetter__";
                  "hasOwnProperty"; "__lookupGetter__"; "__lookupSetter__";
                  "isPrototypeOf"; "propertyIsEnumerable"; "toString";
                  "valueOf"; "__proto__"; "toLocaleString"])
         \/ (forall s, v <> VStr s) ->
         quickFormatValidation slotName v = Some true)
  /\ (forall slotName s : string,
         In slotName
            ["constructor"; "__defineGetter__"; "__defineSetter__";
             "hasOwnProperty"; "__lookupGetter__"; "__lookupSetter__";
             "isPrototypeOf"; "propertyIsEnumerable"; "toString";
             "valueOf"; "__proto__"; "toLocaleString"] ->
         quickFormatValidation slotName (VStr s) = None)
  /\ quickFormatValidation "dob" (VStr "17/05/1990") = Some true
  /\ quickFormatValidation "dob" (VStr "(17) / 5 / 1990") = Some true
  /\ quickFormatValidation "dob" (VStr "1990-05-17") = Some false
  /\ quickFormatValidation "full_name" (VStr "1990-05-17") = Some true
  /\ quickFormatValidation "constructor" (VStr "x") = None
  /\ quickFormatValidation "constructor" (VBool true) = Some true.
Proof.
  assert (Hrun : forall s,
             quickFormatValidation "dob" (VStr s)
             = Some (testAnchored false dobRule (withoutSeparators s))).
  { intros s. unfold quickFormatValidation.
    change (formatRules "dob") with (Some dobRule). cbv iota.
    now rewrite removeAll_separator. }
  assert (Hdob : forall s, quickFormatValidation "dob" (VStr s) = Some true
                           <-> slashDate (withoutSeparators s)).
  { intros s. rewrite Hrun.
    rewrite Some_true.
    rewrite (testAnchored_lang false dobRule _ eq_refl).
    rewrite <- lang_slashes. unfold dobRule. cbn [lang alt]. fold slashes.
    split; [| auto].
    intros [H | [H | H]]; [exact H | exfalso | exfalso];
      cbn [seq fold_right lang] in H;
      destruct H as (m1 & (d & Ht & _) & m2 & (c1 & -> & Hc1) & _);
      apply char_matches in Hc1; subst c1;
      pose proof (withoutSeparators_clean s) as Hs; rewrite Ht in Hs;
      exact (no_hyphen _ _ Hs). }
  split; [exact Hdob | split; [| split; [| split]]].
  - intros s Hs. rewrite Hrun.
    destruct (testAnchored false dobRule (withoutSeparators s)) eqn:E;
      [| reflexivity].
    assert (E' : quickFormatValidation "dob" (VStr s) = Some true)
      by (rewrite Hrun; now rewrite E).
    apply Hdob in E'. destruct E' as (d & m & y & Ht & _).
    assert (Hi : includes "/" (withoutSeparators s) = true).
    { rewrite Ht. apply (includes_char "/" d). }
    apply includes_filterChars in Hi. congruence.
  - intros slotName v [[Hr Hm] | H]; unfold quickFormatValidation.
    + destruct v as [| b | s | l]; try reflexivity.
      assert (Hf : formatRules slotName = None).
      { unfold formatRules.
        destruct (slotName =? "email") eqn:E1;
          [apply String.eqb_eq in E1; subst; cbn in Hr; tauto |].
        destruct (slotName =? "phone") eqn:E2;
          [apply String.eqb_eq in E2; subst; cbn in Hr; tauto |].
        destruct (slotName =? "dob") eqn:E3;
          [apply String.eqb_eq in E3; subst; cbn in Hr; tauto |].
        reflexivity. }
      rewrite Hf.
      destruct (Obj.inherited slotName) eqn:Ei; [| reflexivity].
      apply inherited_In in Ei. contradiction.
    + destruct v as [| b | s | l]; try reflexivity. now destruct (H s).
  - intros slotName s Hin. cbn [In] in Hin.
    repeat (destruct Hin as [<- | Hin]; [reflexivity |]). contradiction.
  - repeat split; vm_compute; reflexivity.
Qed.

(** X24. The format rules of a telephone number and of an e-mail address,
    on what is left of the string once white space, hyphens and parentheses
    are removed: a number is an optional plus sign, a digit that is not zero
    and at most fifteen digits more; an address is a text, an [@], a text, a
    dot and a text, the three texts without [@] and not empty. *)
Theorem phone_and_email_format_rules :
  forall s : string,
    (quickFormatValidation "phone" (VStr s) = Some true
     <-> phoneNumber (withoutSeparators s))
    /\ (quickFormatValidation "email" (VStr s) = Some true
        <-> emailAddress (withoutSeparators s)).
Proof.
  intros s. split.
  - unfold quickFormatValidation.
    change (formatRules "phone") with (Some phoneRule). cbv iota.
    rewrite removeAll_separator, Some_true,
      (testAnchored_lang false phoneRule _ eq_refl).
    generalize (withoutSeparators s). intros t.
    unfold phoneRule, phoneNumber. cbn [seq fold_right lang within]. split.
    + intros (m1 & (sign & -> & Hs & _ & Hs1)
              & m2 & (first & -> & Hf)
              & m3 & (rest & -> & Hr & _ & Hr15) & He).
      subst m3. rewrite digits_matches in Hr. rewrite app_empty_r.
      exists sign, first, rest. split; [reflexivity |]. split.
      { destruct sign as [| c [| c' sign]]; cbn in Hs1; [auto | | lia].
        right. cbn [allChars atom_matches existsb] in Hs. unfold char_eq in Hs.
        rewrite andb_true_r, orb_false_r in Hs.
        apply Ascii.eqb_eq in Hs. now subst c. }
      split; [| split; [| split]]; auto.
      * destruct first as [[] [] [] [] [] [] [] []]; try discriminate Hf;
          reflexivity.
      * intros ->. discriminate Hf.
    + intros (sign & first & rest & -> & Hsign & Hf & Hz & Hr & Hr15).
      exists (String first rest). split.
      { exists sign. split; [reflexivity |].
        destruct Hsign as [-> | ->]; cbn; repeat split; lia. }
      exists rest. split.
      { exists first. split; [reflexivity |].
        destruct first as [[] [] [] [] [] [] [] []]; try discriminate Hf;
          try reflexivity. now destruct Hz. }
      exists "". split; [| reflexivity].
      exists rest. rewrite digits_matches, app_empty_r. repeat split; auto; lia.
  - unfold quickFormatValidation.
    change (formatRules "email") with (Some emailRule). cbv iota.
    rewrite removeAll_separator, Some_true,
      (testAnchored_lang false emailRule _ eq_refl).
    generalize (withoutSeparators s). intros t.
    unfold emailRule, emailAddress, plus. cbn [seq fold_right lang within]. split.
    + intros (m1 & (a & -> & Ha & Ha1 & _)
              & m2 & (c1 & -> & Hc1)
              & m3 & (b & -> & Hb & Hb1 & _)
              & m4 & (c2 & -> & Hc2)
              & m5 & (c & -> & Hc & Hc1' & _) & He).
      apply char_matches in Hc1, Hc2. subst c1 c2 m5.
      rewrite plain_matches in Ha, Hb, Hc. rewrite app_empty_r.
      exists a, b, c. cbn [append].
      repeat split; auto; intros ->; cbn in *; lia.
    + intros (a & b & c & -> & Ha0 & Ha & Hb0 & Hb & Hc0 & Hc).
      assert (Hlen : forall w, w <> "" -> 1 <= String.length w).
      { intros [| x w] H; [contradiction | cbn; lia]. }
      exists ("@" ++ b ++ "." ++ c). split.
      { exists a. rewrite plain_matches. auto. }
      exists (b ++ "." ++ c). split.
      { exists "@"%char. split; [reflexivity | now apply char_matches]. }
      exists ("." ++ c). split.
      { exists b. rewrite plain_matches. auto. }
      exists c. split.
      { exists "."%char. split; [reflexivity | now apply char_matches]. }
      exists "". split; [| reflexivity].
      exists c. rewrite plain_matches, app_empty_r. auto.
Qed.
End FormatFacts.
(* ================================================================= *)
(** ** The cleaning of an answer of the model *)

Module CleaningFacts.
Import JsString Regex RegexOps RegexFacts StringFacts SearchFacts AnchoredFacts
       ExtractSlotChain.

(** *** Trimming *)

Lemma trimStart_idem (s : string) : trimStart (trimStart s) = trimStart s.
Proof.
  induction s as [| c s IH]; [reflexivity |]. cbn [trimStart].
  destruct (is_space c) eqn:E; [exact IH |]. cbn [trimStart]. now rewrite E.
Qed.

Lemma trimEnd_idem (s : string) : trimEnd (trimEnd s) = trimEnd s.
Proof.
  induction s as [| c s IH]; [reflexivity |]. cbn [trimEnd].
  destruct (is_space c && (trimEnd s =? "")) eqn:E; [reflexivity |].
  cbn [trimEnd]. now rewrite IH, E.
Qed.

Lemma trim_commute (s : string) : trimEnd (trimStart s) = trimStart (trimEnd s).
Proof.
  induction s as [| c s IH]; [reflexivity |]. cbn [trimStart trimEnd].
  destruct (is_space c) eqn:E; cbn [andb].
  - destruct (trimEnd s =? "") eqn:Et.
    + apply String.eqb_eq in Et. rewrite IH, Et. reflexivity.
    + cbn [trimStart]. now rewrite E.
  - cbn [trimEnd trimStart]. now rewrite E.
Qed.

Lemma trim_idem (s : string) : trim (trim s) = trim s.
Proof.
  unfold trim. now rewrite trim_commute, trimStart_idem, trimEnd_idem.
Qed.

Lemma trimEnd_last (w : string) (c : ascii) :
  is_space c = false -> trimEnd (w ++ String c "") = w ++ String c "".
Proof.
  intros Hc. induction w as [| x w IH]; cbn [append trimEnd].
  - now rewrite Hc.
  - rewrite IH.
    replace (w ++ String c "" =? "") with false
      by (now destruct w). now rewrite andb_false_r.
Qed.

Lemma trim_braced (s : string) : braced s -> trim s = s.
Proof.
  intros [w ->]. unfold trim.
  replace ("{" ++ w ++ "}") with (("{" ++ w) ++ "}") by (now rewrite app_assoc).
  rewrite trimEnd_last by reflexivity. reflexivity.
Qed.

Lemma allChars_trimStart (p : ascii -> bool) (s : string) :
  allChars p s = true -> allChars p (trimStart s) = true.
Proof.
  induction s as [| c s IH]; [auto |]. cbn [trimStart].
  destruct (is_space c); [| auto].
  cbn [allChars]. intros H. apply andb_true_iff in H. now apply IH.
Qed.

Lemma allChars_trimEnd (p : ascii -> bool) (s : string) :
  allChars p s = true -> allChars p (trimEnd s) = true.
Proof.
  induction s as [| c s IH]; [auto |]. cbn [trimEnd allChars].
  intros H. apply andb_true_iff in H. destruct H as [Hc Hs].
  destruct (is_space c && (trimEnd s =? "")); [reflexivity |].
  cbn [allChars]. now rewrite Hc, IH.
Qed.

Lemma allChars_trim (p : ascii -> bool) (s : string) :
  allChars p s = true -> allChars p (trim s) = true.
Proof. intros H. now apply allChars_trimStart, allChars_trimEnd. Qed.

(** *** Ends of strings *)

Lemma endsWith_app (p suffix : string) : endsWith suffix (p ++ suffix) = true.
Proof.
  induction p as [| c p IH]; cbn [append].
  - destruct suffix; cbn [endsWith]; now rewrite String.eqb_refl.
  - cbn [endsWith]. rewrite IH. apply orb_true_r.
Qed.

Lemma endsWith_elim (suffix s : string) :
  endsWith suffix s = true -> exists p, s = p ++ suffix.
Proof.
  induction s as [| c s IH]; cbn [endsWith]; intros H.
  - rewrite orb_false_r in H. apply String.eqb_eq in H. now exists "".
  - apply orb_true_iff in H. destruct H as [H | H].
    + apply String.eqb_eq in H. now exists "".
    + destruct (IH H) as [p ->]. now exists (String c p).
Qed.

Lemma braced_iff (s : string) :
  prefix "{" s && endsWith "}" s = true <-> braced s.
Proof.
  split.
  - intros H. apply andb_true_iff in H. destruct H as [Hp He].
    destruct (endsWith_elim _ _ He) as [p ->].
    destruct p as [| c p].
    + cbn in Hp. discriminate.
    + cbn [append prefix] in Hp.
      destruct (ascii_dec "{" c) as [<- |]; [| discriminate]. now exists p.
  - intros [w ->]. apply andb_true_iff. split.
    + cbn [append prefix]. destruct (ascii_dec "{" "{"); [| congruence].
      now destruct (w ++ "}").
    + replace ("{" ++ w ++ "}") with (("{" ++ w) ++ "}")
        by (now rewrite app_assoc).
      apply endsWith_app.
Qed.

(** *** What an expression matches is the start of the input *)

Lemma lang_split (icase : bool) (r : regex) :
  forall s s', lang icase r s s' -> exists a, s = a ++ s'.
Proof.
  induction r as [| a | r1 IH1 r2 IH2 | r1 IH1 r2 IH2 | lo hi a | r1 IH1 |];
    intros s s' H; cbn [lang] in H.
  - subst. now exists "".
  - destruct H as (c & -> & _). now exists (String c "").
  - destruct H as (m & H1 & H2).
    destruct (IH1 _ _ H1) as [a ->]. destruct (IH2 _ _ H2) as [b ->].
    exists (a ++ b). now rewrite app_assoc.
  - destruct H as [H | H]; eauto.
  - destruct H as (w & -> & _). now exists w.
  - eauto.
  - subst. now exists "".
Qed.

(** *** The text of the first match *)

Lemma matchText_sound (icase : bool) (r : regex) (s : string) :
  forall (prev : option ascii) (text : string),
    matchText icase r prev s = Some text ->
    exists p rest, s = p ++ text ++ rest /\ lang icase r (text ++ rest) rest.
Proof.
  assert (Hrun : forall prev t text,
             run icase r prev t None (fun _ s' _ => Some (consumed t s')) = Some text ->
             exists rest, t = text ++ rest /\ lang icase r (text ++ rest) rest).
  { intros prev t text E.
    destruct (run_sound icase r _ _ _ _ _ E) as (s' & _ & _ & Hl & Hk).
    injection Hk as <-. destruct (lang_split icase r _ _ Hl) as [a ->].
    exists s'. rewrite consumed_app. auto. }
  induction s as [| c s IH]; intros prev text H; cbn [matchText] in H.
  - destruct (run icase r prev "" None _) as [x |] eqn:E; [| discriminate].
    injection H as ->. destruct (Hrun _ _ _ E) as (rest & Ht & Hl).
    exists "", rest. auto.
  - destruct (run icase r prev (String c s) None _) as [x |] eqn:E.
    + injection H as ->. destruct (Hrun _ _ _ E) as (rest & Ht & Hl).
      exists "", rest. auto.
    + destruct (IH _ _ H) as (p & rest & -> & Hl).
      exists (String c p), rest. auto.
Qed.

Lemma matchText_complete (icase : bool) (r : regex) (t s' : string) :
  boundaryFree r = true -> lang icase r t s' ->
  forall (p : string) (prev : option ascii),
    matchText icase r prev (p ++ t) <> None.
Proof.
  intros Hb Hl p. induction p as [| c p IH]; intros prev.
  - cbn [append].
    assert (Hr : run icase r prev t None (fun _ s0 _ => Some (consumed t s0)) <> None)
      by (apply (run_complete icase r Hb prev t s'); [exact Hl | discriminate]).
    destruct t; cbn [matchText];
      destruct (run icase r prev _ None _); try discriminate; contradiction.
  - cbn [append matchText].
    destruct (run icase r prev _ None _); [discriminate | apply IH].
Qed.

(** What [jsonObject] matches. *)
Lemma lang_jsonObject (s s' : string) :
  lang false jsonObject s s' <-> exists w, s = "{" ++ w ++ "}" ++ s'.
Proof.
  unfold jsonObject, star. cbn [seq fold_right lang within]. split.
  - intros (m1 & (c1 & -> & Hc1) & m2 & (w & -> & _) & m3 & (c2 & -> & Hc2) & He).
    apply char_matches in Hc1, Hc2. subst c1 c2 m3. now exists w.
  - intros (w & ->). exists (w ++ "}" ++ s'). split.
    { exists "{"%char. split; [reflexivity | now apply char_matches]. }
    exists ("}" ++ s'). split.
    { exists w. repeat split; [| lia].
      rewrite (allChars_ext _ (fun _ => true)) by (intros c; apply class_matches).
      clear. induction w; [reflexivity | assumption]. }
    exists s'. split; [| reflexivity].
    exists "}"%char. split; [reflexivity | now apply char_matches].
Qed.

(** *** The removal of fences and backticks *)

Lemma allChars_removeAll (p : ascii -> bool) (icase : bool) (r : regex) (s : string) :
  forall (skip : nat) (prev : option ascii),
    allChars p s = true -> allChars p (removeAll icase r skip prev s) = true.
Proof.
  induction s as [| c s IH]; intros skip prev H; [reflexivity |].
  cbn [allChars] in H. apply andb_true_iff in H. destruct H as [Hc Hs].
  cbn [removeAll]. destruct skip as [| n]; [| now apply IH].
  destruct (matchAt icase r prev (String c s)) as [rest |].
  - destruct (String.length (String c s) - String.length rest);
      [cbn [allChars]; rewrite Hc |]; now apply IH.
  - cbn [allChars]. rewrite Hc. now apply IH.
Qed.

(** Once the backticks are removed, none is left. *)
Lemma removeAll_backticks (s : string) :
  forall (skip : nat) (prev : option ascii),
    noBacktick (removeAll false backticks skip prev s) = true.
Proof.
  unfold noBacktick.
  induction s as [| c s IH]; intros skip prev; [reflexivity |].
  cbn [removeAll]. destruct skip as [| n]; [| apply IH].
  destruct (matchAt false backticks prev (String c s)) as [rest |] eqn:E.
  - destruct (String.length (String c s) - String.length rest) eqn:En;
      [| apply IH].
    exfalso. unfold matchAt, backticks in E. cbn [run] in E.
    destruct (rep_sound false _ _ _ _ _ _ _ _ E)
      as (w & s' & _ & Hs & _ & Hlo & _ & Hk).
    injection Hk as ->. rewrite Hs, length_app in En. lia.
  - cbn [allChars]. rewrite IH, andb_true_r.
    destruct (Ascii.eqb_spec c backtick) as [-> | Hne]; [| reflexivity].
    exfalso. unfold matchAt, backticks in E. cbn [run] in E. revert E.
    apply (rep_complete false (AChar backtick) (String backtick "") 1 (Some 3)
                        prev s None (fun _ s' _ => Some s'));
      [reflexivity | cbn; lia | cbn; lia | discriminate].
Qed.

(** An expression that starts with a backtick removes nothing from a text
    without backtick. *)
Lemma removeAll_nothing (r : regex) (s : string) :
  (forall prev c s', Ascii.eqb c backtick = false ->
                     matchAt false r prev (String c s') = None) ->
  noBacktick s = true ->
  forall prev, removeAll false r 0 prev s = s.
Proof.
  intros Hr. unfold noBacktick.
  induction s as [| c s IH]; intros H prev; [reflexivity |].
  cbn [allChars] in H. apply andb_true_iff in H. destruct H as [Hc Hs].
  apply negb_true_iff in Hc. cbn [removeAll].
  now rewrite (Hr prev c s Hc), IH.
Qed.

Lemma tick_needed (c : ascii) :
  Ascii.eqb c backtick = false -> atom_matches false (AChar backtick) c = false.
Proof.
  intros H. cbn [atom_matches]. unfold char_eq.
  now rewrite Ascii.eqb_sym.
Qed.

Lemma removeAll_fences (s : string) :
  noBacktick s = true ->
  removeAll false backticks 0 None
    (removeAll false fence 0 None (removeAll false jsonFence 0 None s)) = s.
Proof.
  intros Hs.
  rewrite (removeAll_nothing jsonFence s); [| | exact Hs].
  rewrite (removeAll_nothing fence s); [| | exact Hs].
  apply (removeAll_nothing backticks s); [| exact Hs].
  - intros prev c s' Hc. unfold matchAt, backticks. cbn [run rep].
    fold backtick. now rewrite (tick_needed c Hc).
  - intros prev c s' Hc. unfold matchAt, fence. cbn [run lit].
    fold backtick. now rewrite (tick_needed c Hc).
  - intros prev c s' Hc. unfold matchAt, jsonFence. cbn [run lit].
    fold backtick. now rewrite (tick_needed c Hc).
Qed.

Lemma noBacktick_withoutFences (response : string) :
  noBacktick (withoutFences response) = true.
Proof. apply allChars_trim, removeAll_backticks. Qed.

(** The function in terms of [withoutFences]. *)
Lemma cleanLLMResponse_cases (response : string) :
  let cleaned := withoutFences response in
  (braced cleaned /\ cleanLLMResponse response = cleaned)
  \/ (~ braced cleaned /\ ~ hasBraces cleaned
      /\ cleanLLMResponse response = cleaned)
  \/ (~ braced cleaned /\ braced (cleanLLMResponse response)
      /\ exists p rest, cleaned = p ++ cleanLLMResponse response ++ rest).
Proof.
  cbv zeta. unfold cleanLLMResponse. fold (withoutFences response).
  destruct (prefix "{" (withoutFences response)
            && endsWith "}" (withoutFences response)) eqn:E.
  - left. split; [now apply braced_iff | reflexivity].
  - right.
    assert (Hnb : ~ braced (withoutFences response)).
    { intros H. apply braced_iff in H. congruence. }
    destruct (matchText false jsonObject None (withoutFences response))
      as [text |] eqn:Em.
    + right. split; [exact Hnb |].
      destruct (matchText_sound _ _ _ _ _ Em) as (p & rest & Hc & Hl).
      apply lang_jsonObject in Hl. destruct Hl as [w Hw].
      split; [| eauto]. exists w.
      assert (H : (text ++ rest) = ("{" ++ w ++ "}") ++ rest)
        by (rewrite Hw; cbn [append]; now rewrite app_assoc).
      clear - H. revert H. generalize ("{" ++ w ++ "}"). intros u.
      revert u. induction text as [| c t IH]; intros [| c' u] H;
        cbn [append] in H.
      * reflexivity.
      * exfalso. apply (f_equal String.length) in H.
        cbn [String.length] in H. rewrite length_app in H. lia.
      * exfalso. apply (f_equal String.length) in H.
        cbn [String.length] in H. rewrite length_app in H. lia.
      * injection H as -> H. now rewrite (IH u H).
    + left. split; [exact Hnb |]. split; [| reflexivity].
      intros (a & w & b & Hc).
      apply (matchText_complete false jsonObject ("{" ++ w ++ "}" ++ b) b
                                eq_refl) with (p := a) (prev := None).
      * apply lang_jsonObject. now exists w.
      * rewrite <- Hc. exact Em.
Qed.

(** X25. The cleaning of an answer of the model.  The cleaned answer holds
    no backtick and neither starts nor ends with white space.  When it has
    an opening brace before a closing one, it starts with the one and ends
    with the other: the text around a JSON object is dropped.  Cleaning a
    cleaned answer changes nothing. *)
Theorem cleanLLMResponse_result :
  forall response : string,
    let result := cleanLLMResponse response in
    noBacktick result = true
    /\ trim result = result
    /\ (hasBraces result -> braced result)
    /\ cleanLLMResponse result = result.
Proof.
  intros response result.
  pose proof (noBacktick_withoutFences response) as Hnt.
  assert (Hfix : forall t, noBacktick t = true -> trim t = t ->
                           withoutFences t = t).
  { intros t Ht Htrim. unfold withoutFences. now rewrite removeAll_fences. }
  assert (Htrimmed : trim (withoutFences response) = withoutFences response)
    by apply trim_idem.
  destruct (cleanLLMResponse_cases response)
    as [[Hb Hr] | [(Hnb & Hnh & Hr) | (Hnb & Hb & p & rest & Hc)]];
    fold result in Hr || fold result in Hb, Hc.
  - rewrite Hr. repeat split; auto.
    unfold cleanLLMResponse. fold (withoutFences (withoutFences response)).
    rewrite (Hfix _ Hnt Htrimmed).
    now rewrite (proj2 (braced_iff _) Hb).
  - rewrite Hr. repeat split; auto; [intros H; contradiction |].
    unfold cleanLLMResponse. fold (withoutFences (withoutFences response)).
    rewrite (Hfix _ Hnt Htrimmed).
    destruct (prefix "{" (withoutFences response)
              && endsWith "}" (withoutFences response)) eqn:E; [reflexivity |].
    destruct (matchText false jsonObject None (withoutFences response))
      as [text |] eqn:Em; [| reflexivity].
    exfalso. apply Hnh.
    destruct (matchText_sound _ _ _ _ _ Em) as (p & rest & Hc & Hl).
    apply lang_jsonObject in Hl. destruct Hl as [w Hw].
    exists p, w, rest. now rewrite Hc, Hw.
  - assert (Hrt : noBacktick result = true).
    { unfold noBacktick in *. rewrite Hc, !allChars_app in Hnt.
      apply andb_true_iff in Hnt. destruct Hnt as [_ Hnt].
      apply andb_true_iff in Hnt. tauto. }
    assert (Htr : trim result = result) by now apply trim_braced.
    repeat split; auto.
    unfold cleanLLMResponse. fold (withoutFences result).
    rewrite (Hfix _ Hrt Htr). now rewrite (proj2 (braced_iff _) Hb).
Qed.
End CleaningFacts.
(* ================================================================= *)
(** ** The page *)

Module PageFacts.
Import DialogManager Client.

(** A request without current slot is answered by the first question. *)
Lemma start_reply (d : Delegates) (hybridMode : bool) (slots : FilledSlots)
      (mem : InterviewMemory) :
  Server.interviewNext d hybridMode (Page.startBody slots) mem
  = (Server.Question (SlotQuestion "full_name" "What is your full name?"), mem).
Proof. reflexivity. Qed.


(** X26. Three refusals.  When the answer sent is refused (a reprompt,
    status 400), the page counts the refusal if it has counted fewer than
    two.  At the third refusal in a row it sends the request meant to skip the
    question, which the server answers with the first question of the
    schema: the page then asks for [full_name] again, with the slot map and
    all else as they were and the count back at zero; the question the
    patient could not answer is not skipped.  And the page is left with
    [loading] set, so that whatever is typed afterwards, it sends nothing. *)
Theorem third_refusal_restarts :
  forall (d : Delegates) (hybridMode : bool) (p : Page.PageState)
         (input : string) (mem : InterviewMemory)
         (body : Server.RequestBody) (error : option string)
         (isClarification : bool),
    Page.loading p = false ->
    Client.sendMessage (Page.interview p) input = Some body ->
    fst (Server.interviewNext d hybridMode body mem)
    = Server.BadRequest error isClarification ->
    let after := fst (Page.sendMessage d hybridMode p input mem) in
    after
    = (if Nat.leb 2 (retryCount (Page.interview p))
       then {| Page.interview := Page.skipTo (Page.interview p) (Some "full_name");
               Page.loading := true |}
       else {| Page.interview := Page.retry (Page.interview p);
               Page.loading := false |})
    /\ (2 <= retryCount (Page.interview p) ->
        forall (d' : Delegates) (hybridMode' : bool) (input' : string)
               (mem' : InterviewMemory),
          Page.sendMessage d' hybridMode' after input' mem' = (after, mem')).
Proof.
  intros d hybridMode p input mem body error isClarification Hl Hb Hr after.
  assert (Ha : after
               = if Nat.leb 2 (retryCount (Page.interview p))
                 then {| Page.interview :=
                           Page.skipTo (Page.interview p) (Some "full_name");
                         Page.loading := true |}
                 else {| Page.interview := Page.retry (Page.interview p);
                         Page.loading := false |}).
  { unfold after, Page.sendMessage. rewrite Hl, Hb.
    destruct (Server.interviewNext d hybridMode body mem) as [reply mem1].
    cbn [fst] in Hr. subst reply. cbn [Page.okData].
    destruct (Nat.leb 2 (retryCount (Page.interview p))); [| reflexivity].
    rewrite start_reply. reflexivity. }
  split; [exact Ha |].
  intros Hrc d' hybridMode' input' mem'. rewrite Ha.
  apply Nat.leb_le in Hrc. rewrite Hrc.
  unfold Page.sendMessage. reflexivity.
Qed.

Lemma third_refusal_restarts_witness :
  fst (Page.sendMessage silentDelegates false stuckState "hm" clearMemory)
  = {| Page.interview := Page.skipTo stuckInterview (Some "full_name");
       Page.loading := true |}.
Proof.
  exact (proj1 (third_refusal_restarts silentDelegates false stuckState "hm"
                  clearMemory
                  {| Server.currentSlot := Some "dob"; Server.response := "hm";
                     Server.filledSlots := [("full_name", VStr "Jane Doe")];
                     Server.phase := None |}
                  (Some "Could you say more?") true eq_refl eq_refl eq_refl)).
Defined.

Lemma question_slot (filledSlots : FilledSlots) (slot message : string) :
  getNextQuestion filledSlots = Some (SlotQuestion slot message) ->
  In slot (Obj.keys SLOT_SCHEMA).
Proof.
  unfold getNextQuestion.
  destruct (returned (getNextUnfilledSlot filledSlots)) as [[s |] |];
    try discriminate.
  destruct (Obj.get s SLOT_SCHEMA) as [cfg |] eqn:E; [| discriminate].
  intros [= <- _]. eapply get_Some_key; eauto.
Qed.

(** The slot of a reply with status 200 is a slot of the schema. *)
Lemma okData_slot (d : Delegates) (hybridMode : bool) (body : Server.RequestBody)
      (mem : InterviewMemory) (slot message : string)
      (slots : option FilledSlots) :
  Page.okData (fst (Server.interviewNext d hybridMode body mem))
  = Some (SlotQuestion slot message, slots) ->
  In slot (Obj.keys SLOT_SCHEMA).
Proof.
  unfold Server.interviewNext.
  destruct (or_null (Server.currentSlot body)) as [cur |].
  - unfold processResponse.
    destruct (slotEntry cur) as [cfg |]; [| discriminate].
    assert (Hstd : forall m,
               Page.okData
                 (fst (let (result, mem') :=
                         standardProcessing d cfg cur (Server.response body)
                                            (Server.filledSlots body) m in
                       match result with
                       | Reprompt e c => (Server.BadRequest e c, mem')
                       | Success s ex next =>
                           (Server.Accepted s
                              (match ex with Some l => l | None => [] end)
                              (match ex with Some _ => true | None => false end)
                              next, mem')
                       | Thrown => (Server.InternalError, mem')
                       end))
               = Some (SlotQuestion slot message, slots) ->
               In slot (Obj.keys SLOT_SCHEMA)).
    { intros m. unfold standardProcessing.
      destruct (falsy _); [discriminate |].
      destruct (negb _); [discriminate |].
      destruct (getNextQuestion _) as [[fs msg | s msg] |] eqn:Eq;
        cbn [fst Page.okData]; try discriminate.
      intros [= <- _ _]. eapply question_slot; eauto. }
    destruct hybridMode; [| apply Hstd].
    destruct (action (routeUserResponse d cur (Server.response body)));
      [| apply Hstd | discriminate].
    destruct (processMultipleExtractions _ _ mem) as [multiResult mem1].
    destruct (successfulExtractions multiResult); [discriminate |].
    destruct (getNextQuestion (updatedSlots multiResult))
      as [[fs msg | s msg] |] eqn:Eq; cbn [fst Page.okData];
      try discriminate; [| apply Hstd].
    intros [= <- _ _]. eapply question_slot; eauto.
  - destruct (getNextQuestion []) as [[fs msg | s msg] |] eqn:Eq;
      cbn [fst Page.okData]; try discriminate.
    intros [= <- _ _]. eapply question_slot; eauto.
Qed.

Lemma knownKeyed_extends (slots slots' : FilledSlots) :
  knownKeyed slots ->
  (exists added, Obj.keys slots' = (Obj.keys slots ++ added)%list
                 /\ forall k, In k added -> known k) ->
  knownKeyed slots'.
Proof.
  intros Hs (added & Hk & Ha) k Hin. rewrite Hk in Hin.
  apply in_app_or in Hin. destruct Hin as [Hin | Hin]; auto.
Qed.

(** A turn that succeeds returns a slot map with the keys it was given and
    names the lookup of the schema finds, and the question for that map. *)
Lemma success_keys (d : Delegates) (hybridMode : bool)
      (cur userResponse : string) (filledSlots slots : FilledSlots)
      (mem : InterviewMemory) (extracted : option (list Extraction))
      (next : NextQuestion) :
  fst (processResponse d hybridMode cur userResponse filledSlots mem)
  = Success slots extracted next ->
  knownKeyed filledSlots ->
  knownKeyed slots /\ getNextQuestion slots = Some next.
Proof.
  unfold processResponse. intros H Hfs.
  destruct (slotEntry cur) as [cfg |] eqn:Ecfg; [| discriminate].
  assert (Hcur : known cur).
  { apply slotEntry_known. rewrite Ecfg. discriminate. }
  assert (Hstd : forall m,
             fst (standardProcessing d cfg cur userResponse filledSlots m)
             = Success slots extracted next ->
             knownKeyed slots /\ getNextQuestion slots = Some next).
  { intros m. unfold standardProcessing.
    destruct (falsy _); [discriminate |].
    destruct (negb _); [discriminate |].
    destruct (getNextQuestion _) as [q |] eqn:Eq; [| discriminate].
    cbn [fst]. intros [= <- _ <-]. split; [| exact Eq].
    apply (knownKeyed_extends filledSlots); [exact Hfs |].
    apply keys_set_extends; [now apply known_named | exact Hcur]. }
  destruct hybridMode; [| eapply Hstd; eauto].
  destruct (action (routeUserResponse d cur userResponse));
    [| eapply Hstd; eauto | discriminate].
  pose proof (merge_result (extractions (routeUserResponse d cur userResponse))
                           filledSlots mem) as (_ & _ & Hu).
  destruct (processMultipleExtractions _ filledSlots mem) as [multiResult mem1].
  cbn [fst] in Hu.
  destruct (successfulExtractions multiResult); [discriminate |].
  destruct (getNextQuestion (updatedSlots multiResult)) as [q |] eqn:Eq;
    [| eapply Hstd; eauto].
  cbn [fst] in H. injection H as <- _ <-. split; [| exact Eq].
  rewrite Hu. apply (knownKeyed_extends filledSlots); [exact Hfs |].
  apply MergeMore.mergeSlots_keys.
Qed.

Lemma review_slots (filledSlots slots : FilledSlots) (message : string) :
  getNextQuestion filledSlots = Some (ReviewQuestion slots message) ->
  slots = filledSlots.
Proof.
  unfold getNextQuestion.
  destruct (returned (getNextUnfilledSlot filledSlots)) as [[s |] |];
    try discriminate.
  - destruct (Obj.get s SLOT_SCHEMA); discriminate.
  - now intros [= <- _].
Qed.

(** The slot map of a reply with status 200. *)
Lemma okData_keys (d : Delegates) (hybridMode : bool) (body : Server.RequestBody)
      (mem : InterviewMemory) (next : NextQuestion) (slots : FilledSlots) :
  Page.okData (fst (Server.interviewNext d hybridMode body mem))
  = Some (next, Some slots) ->
  knownKeyed (Server.filledSlots body) -> knownKeyed slots.
Proof.
  unfold Server.interviewNext. intros H Hfs.
  destruct (or_null (Server.currentSlot body)) as [cur |].
  - pose proof (fun s ex q =>
                  success_keys d hybridMode cur (Server.response body)
                               (Server.filledSlots body) s mem ex q) as Hk.
    destruct (processResponse d hybridMode cur (Server.response body)
                              (Server.filledSlots body) mem) as [result mem1].
    cbn [fst] in Hk.
    destruct result as [s ex q | e c |]; cbn [fst Page.okData] in H;
      try discriminate.
    destruct (Hk s ex q eq_refl Hfs) as [Hs Hq].
    destruct q as [fs msg | slot msg].
    + injection H as _ <-. apply review_slots in Hq. now subst fs.
    + now injection H as _ <-.
  - destruct (getNextQuestion []) as [[fs msg | slot msg] |] eqn:Eq;
      cbn [fst Page.okData] in H; try discriminate H.
    injection H as _ <-. apply review_slots in Eq. subst fs. intros k [].
Qed.

Lemma startInterview_invariant (d : Delegates) (hybridMode : bool)
      (p : Page.PageState) (mem : InterviewMemory) :
  pageInvariant (Page.interview p) ->
  pageInvariant (Page.interview (fst (Page.startInterview d hybridMode p mem))).
Proof.
  intros (Hs & Hr & Hk). unfold Page.startInterview. rewrite start_reply.
  cbn [Page.okData fst Page.interview].
  split; [cbn [currentSlot Page.skipTo]; rewrite SLOT_SCHEMA_keys; cbn; auto |].
  split; [exact Hr |]. intros k [].
Qed.

Lemma sendMessage_invariant (d : Delegates) (hybridMode : bool)
      (p : Page.PageState) (input : string) (mem : InterviewMemory) :
  pageInvariant (Page.interview p) ->
  pageInvariant (Page.interview (fst (Page.sendMessage d hybridMode p input mem))).
Proof.
  intros Hinv. pose proof Hinv as (Hs & Hr & Hk). unfold Page.sendMessage.
  destruct (Page.loading p); [exact Hinv |].
  set (st := Page.interview p) in *.
  destruct (Client.sendMessage st input) as [body |] eqn:Eb; [| exact Hinv].
  assert (Hbody : Server.filledSlots body = filledSlots st).
  { unfold Client.sendMessage in Eb.
    destruct (JsString.trim input =? ""); [discriminate |].
    now injection Eb as <-. }
  pose proof (okData_slot d hybridMode body mem) as Hok.
  pose proof (okData_keys d hybridMode body mem) as Hkeys.
  rewrite Hbody in Hkeys.
  destruct (Server.interviewNext d hybridMode body mem) as [reply mem1].
  cbn [fst] in Hok, Hkeys.
  destruct (Page.okData reply) as [[[fs msg | slot msg] slots] |];
    cbn [fst Page.interview].
  - split; [exact Hs |]. split; [exact Hr |]. cbn.
    destruct slots as [s |]; [| exact Hk]. eapply Hkeys; eauto.
  - split; [cbn; eapply Hok; reflexivity |]. split; [cbn; lia |]. cbn.
    destruct slots as [s |]; [eapply Hkeys; eauto | intros k []].
  - destruct (Nat.leb 2 (retryCount st)) eqn:E.
    + rewrite start_reply. cbn [Page.okData fst Page.interview].
      split; [cbn [currentSlot Page.skipTo]; rewrite SLOT_SCHEMA_keys; cbn; auto |].
      split; [cbn; lia | exact Hk].
    + apply Nat.leb_gt in E. cbn [fst Page.interview].
      split; [exact Hs |]. split; [cbn; lia | exact Hk].
Qed.

Lemma pageSession_invariant (events : list PageEvent) :
  pageInvariant (Page.interview (fst (pageSession events))).
Proof.
  unfold pageSession.
  assert (H0 : pageInvariant
                 (Page.interview (fst (Page.initialState, clearMemory)))).
  { split; [exact I |]. split; [cbn; lia | intros k []]. }
  revert H0. generalize (Page.initialState, clearMemory).
  induction events as [| ev evs IH]; intros s Hs; cbn [fold_left]; [exact Hs |].
  apply IH. destruct ev as [d hybridMode | d hybridMode input]; cbn [pageStep].
  - now apply startInterview_invariant.
  - now apply sendMessage_invariant.
Qed.


Lemma knownKeyed_absent (slots : FilledSlots) (k : string) :
  knownKeyed slots -> ~ known k -> Obj.get k slots = None.
Proof.
  intros Hs Hk. destruct (Obj.get k slots) as [v |] eqn:E; [| reflexivity].
  exfalso. apply Hk, Hs. eapply get_Some_key; eauto.
Qed.

(** X28. The consistency checks on the slots of the page.  The slot map of
    the page never holds an age or a field of the partner, which are no
    slots of the schema; so of the three checks of [checkDataConsistency]
    only the one of the time of trying can report an issue, whatever the
    year and however dates are read: the checks of the age against the date
    of birth and of the partner fields against [has_partner] never do. *)
Theorem page_slots_have_timeline_issue_only :
  forall (currentYear : Z) (getFullYear : JsValue -> option Z)
         (events : list PageEvent),
    let slots := filledSlots (Page.interview (fst (pageSession events))) in
    ValidationChain.ageIssue currentYear getFullYear slots = []
    /\ ValidationChain.partnerIssue slots = []
    /\ ValidationChain.checkDataConsistency currentYear getFullYear slots
       = ValidationChain.timelineIssue slots.
Proof.
  intros currentYear getFullYear events slots.
  destruct (pageSession_invariant events) as (_ & _ & Hk). fold slots in Hk.
  assert (Habsent : forall k,
             In k ["age"; "partner_first_name"; "partner_last_name"; "partner_dob"] ->
             Obj.get k slots = None).
  { intros k Hin. apply knownKeyed_absent; [exact Hk |].
    unfold known, schemaNames, memberNames.
    cbn [In] in *.
    intuition (subst k; discriminate). }
  assert (Ha : ValidationChain.ageIssue currentYear getFullYear slots = []).
  { unfold ValidationChain.ageIssue, ValidationChain.truthy.
    rewrite (Habsent "age") by (cbn; auto).
    now rewrite andb_false_r. }
  assert (Hp : ValidationChain.partnerIssue slots = []).
  { unfold ValidationChain.partnerIssue, ValidationChain.partnerFields,
      ValidationChain.truthy.
    cbn [filter].
    rewrite (Habsent "partner_first_name"), (Habsent "partner_last_name"),
      (Habsent "partner_dob") by (cbn; auto).
    now destruct (Obj.get "has_partner" slots) as [[| [|] | |] |]. }
  split; [exact Ha |]. split; [exact Hp |].
  unfold ValidationChain.checkDataConsistency. now rewrite Ha, Hp.
Qed.
End PageFacts.
(* ================================================================= *)
(** ** The names the validation knows *)

Module LookupFacts.
Import DialogManager.

(** X30. The names the validation refuses.  A name that is neither one of
    the five slots of the schema nor one of the twelve members of
    [Object.prototype] is invalid whatever the value, with the reason
    "Invalid slot name", and no candidate for it is ever among the
    successful extractions of a merge; every other name is valid for the
    value [true]. *)
Theorem unlisted_name_never_accepted :
  forall (name : string) (v : JsValue),
    ~ (In name ["full_name"; "dob"; "has_partner"; "chief_complaint";
                "months_ttc"]
       \/ In name ["constructor"; "__defineGetter__"; "__defineSetter__";
                   "hasOwnProperty"; "__lookupGetter__"; "__lookupSetter__";
                   "isPrototypeOf"; "propertyIsEnumerable"; "toString";
                   "valueOf"; "__proto__"; "toLocaleString"]) ->
    validateSlotValue name v
    = {| isValid := false; error := Some "Invalid slot name" |}
    /\ (forall (c : float) (candidates : list Extraction)
               (filledSlots : FilledSlots) (mem : InterviewMemory),
           ~ In {| slotName := name; value := v; confidence := c |}
                (successfulExtractions
                   (fst (processMultipleExtractions candidates filledSlots mem))))
    /\ forall other,
         In other ["full_name"; "dob"; "has_partner"; "chief_complaint";
                   "months_ttc"]
         \/ In other ["constructor"; "__defineGetter__"; "__defineSetter__";
                      "hasOwnProperty"; "__lookupGetter__"; "__lookupSetter__";
                      "isPrototypeOf"; "propertyIsEnumerable"; "toString";
                      "valueOf"; "__proto__"; "toLocaleString"] ->
         validateSlotValue other (VBool true)
         = {| isValid := true; error := None |}.
Proof.
  intros name v Hname.
  assert (Hentry : slotEntry name = None) by now apply slotEntry_unknown.
  split; [now apply unknown_name_invalid |]. split.
  - intros c candidates filledSlots mem Hin.
    destruct (merge_result candidates filledSlots mem) as (Hs & _ & _).
    rewrite Hs in Hin. apply filter_In in Hin. destruct Hin as [_ Hacc].
    rewrite (unknown_name_rejected name v c Hentry) in Hacc. discriminate.
  - intros other Hother. cbn [In] in Hother.
    repeat (destruct Hother as [Hother | Hother]);
      try contradiction; subst other; reflexivity.
Qed.

Lemma unlisted_name_never_accepted_witness :
  validateSlotValue "first_name" (VBool true)
  = {| isValid := false; error := Some "Invalid slot name" |}.
Proof.
  apply (unlisted_name_never_accepted "first_name" (VBool true)).
  cbn [In]. intuition discriminate.
Defined.
End LookupFacts.
